(** * sc2/distances.py: the per-frame distance cache of [DistanceCalculation]

    A shallow embedding of the class [DistanceCalculation] of
    [sc2/distances.py] and the properties of its frame-gated cache, its
    condensed index mapping and its four unit-to-unit strategies.

    Conventions of the embedding.
    - A Python [int] is a [Z]; a Python [float] is an IEEE 754 binary64 number,
      a [spec_float] with the operations of the Standard Library's
      specification at precision 53 and maximal exponent 1024.
    - A method that reads or writes [self] is a function from the object to a
      result and the object afterwards: an assignment made before an exception
      is raised stays made, as in Python.
    - [numpy], [scipy] and [math] are not part of the repository; the few
      functions the class calls are written out from their documentation in
      the modules [Np], [Scipy] and [PyMath]. What the platform decides, the
      last bit of [math.pow], is a parameter [libm] of the functions that
      call it.
    - Two floats are compared in units of the last place by their [ordinal],
      the 64 bits read as an integer; the exact values behind a rounding are
      integers in units of [2^-2148].
    - The helpers for linear distances ([distance_math_hypot] and the three
      functions built on it) take no part in the cache or in the strategies
      and are left out: they rest on [math.hypot], whose rounding the
      language leaves to the platform. *)

From Stdlib Require Import String ZArith List Bool Lia.
From Stdlib Require Import Floats.SpecFloat.
Import ListNotations.

Local Open Scope Z_scope.

(** ** Python floats *)

Module F64.

Definition prec : Z := 53.
Definition emax : Z := 1024.

Definition float := spec_float.

Definition add : float -> float -> float := SFadd prec emax.
Definition sub : float -> float -> float := SFsub prec emax.
Definition mul : float -> float -> float := SFmul prec emax.

(** [0.0] *)
Definition zero : float := S754_zero false.

(** The float of an integer, as [float(z)] gives it. *)
Definition of_Z (z : Z) : float := binary_normalize prec emax z 0 false.

(** Neither an infinity nor a NaN. *)
Definition is_finite (x : float) : bool :=
  match x with
  | S754_zero _ | S754_finite _ _ _ => true
  | S754_infinity _ | S754_nan => false
  end.

End F64.

Abbreviation float := F64.float.

(** ** Exceptions and results *)

(** The message of an [assert]. The f-strings of the source are kept as their
    arguments. *)
Inductive assert_msg : Type :=
| NoMessage
| NoDiagonal
    (* "No diagonal elements in condensed matrix! Diagonal elements are zero" *)
| CondensedIndexTooLarge (condensed_index len : Z) (tag1 tag2 : Z)
    (* "Condensed index is larger than amount of calculated distances: ..." *)
| SelectedMethodWas (method : Z).
    (* "Selected method was: {method}" *)

Inductive exn : Type :=
| AssertionError (msg : assert_msg)
| AttributeError (name : string)
| TypeError
| IndexError
| ValueError
| OverflowError.

Inductive result (A : Type) : Type :=
| Ok (a : A)
| Raise (e : exn).

Arguments Ok {A} a.
Arguments Raise {A} e.

Definition rbind {A B} (r : result A) (k : A -> result B) : result B :=
  match r with
  | Ok a => k a
  | Raise e => Raise e
  end.

Declare Scope result_scope.
Delimit Scope result_scope with result.
Notation "'let?' x ':=' r 'in' k" := (rbind r (fun x => k))
  (at level 10, x name, r at level 100, k at level 200) : result_scope.

(** [assert cond, msg] *)
Definition assert_ (cond : bool) (msg : assert_msg) : result unit :=
  if cond then Ok tt else Raise (AssertionError msg).

(** ** The values the class hands around *)

Inductive value : Type :=
| VNone
| VInt (z : Z)
| VFloat (f : float)
| VVec (v : list float)              (* a 1-d ndarray *)
| VMat (m : list (list float)).     (* a 2-d ndarray, by rows *)

Definition of_option {A} (f : A -> value) (o : option A) : value :=
  match o with
  | Some a => f a
  | None => VNone
  end.

(** ** The library functions the class calls *)

Module Np.

Local Open Scope result_scope.

(** [np.fromiter(it, dtype=float, count=count)]: reads [count] items, all of
    them when [count] is negative; an iterator that ends early is a
    [ValueError]. *)
Definition fromiter (it : list float) (count : Z) : result (list float) :=
  if count <? 0 then Ok it
  else if Z.of_nat (length it) <? count then Raise ValueError
  else Ok (firstn (Z.to_nat count) it).

(** The rows of a flat array read two by two. *)
Fixpoint rows2 (flat : list float) : list (float * float) :=
  match flat with
  | x :: y :: rest => (x, y) :: rows2 rest
  | _ => []
  end.

(** [a.reshape((n, 2))] *)
Definition reshape_n_2 (flat : list float) (n : Z) : result (list (float * float)) :=
  if Z.of_nat (length flat) =? n * 2 then Ok (rows2 flat) else Raise ValueError.

(** [a.reshape((-1, 2))] *)
Definition reshape_any_2 (flat : list float) : result (list (float * float)) :=
  if Z.even (Z.of_nat (length flat)) then Ok (rows2 flat) else Raise ValueError.

(** [len(a)] *)
Definition len {A} (a : list A) : Z := Z.of_nat (length a).

(** An index into an axis of length [n]: a negative index counts from the
    end. *)
Definition axis_index (n k : Z) : result nat :=
  if (0 <=? k) && (k <? n) then Ok (Z.to_nat k)
  else if (- n <=? k) && (k <? 0) then Ok (Z.to_nat (k + n))
  else Raise IndexError.

Definition item {A} (a : list A) (k : Z) : result A :=
  let? n := axis_index (len a) k in
  match nth_error a n with
  | Some x => Ok x
  | None => Raise IndexError
  end.

(** [a[k]] *)
Definition getitem (a : value) (k : Z) : result value :=
  match a with
  | VVec v => let? x := item v k in Ok (VFloat x)
  | VMat m => let? r := item m k in Ok (VVec r)
  | VNone | VInt _ => Raise TypeError
  | VFloat _ => Raise IndexError
  end.

(** [a[i, j]] *)
Definition getitem2 (a : value) (i j : Z) : result value :=
  match a with
  | VMat m => let? r := item m i in let? x := item r j in Ok (VFloat x)
  | VVec _ => Raise IndexError
  | VNone | VInt _ => Raise TypeError
  | VFloat _ => Raise IndexError
  end.

(** [len(a)] of a value *)
Definition len_value (a : value) : result Z :=
  match a with
  | VVec v => Ok (len v)
  | VMat m => Ok (len m)
  | VNone | VInt _ | VFloat _ => Raise TypeError
  end.

End Np.

Module Scipy.

(** The ["sqeuclidean"] kernel on rows of two columns: the sum starts at
    [0.0] and each squared difference is added in turn, every operation
    rounded. *)
Definition sqeuclidean (u v : float * float) : float :=
  let d0 := F64.sub (fst u) (fst v) in
  let s := F64.add F64.zero (F64.mul d0 d0) in
  let d1 := F64.sub (snd u) (snd v) in
  F64.add s (F64.mul d1 d1).

(** [cdist(XA, XB, "sqeuclidean")]: entry [i, j] is the distance of row [i]
    of [XA] and row [j] of [XB]. *)
Definition cdist (XA XB : list (float * float)) : list (list float) :=
  map (fun u => map (sqeuclidean u) XB) XA.

(** [pdist(X, "sqeuclidean")]: the distances of the pairs [i < j], by [i]
    then by [j]. *)
Fixpoint pdist (X : list (float * float)) : list float :=
  match X with
  | [] => []
  | u :: rest => map (sqeuclidean u) rest ++ pdist rest
  end.

End Scipy.

Module PyMath.

(** [math.pow] hands a finite argument to the [pow] of the platform's C
    library, which is faithfully rounded, not correctly rounded: where the
    exact result is a float the library returns it, and where it is not the
    library returns the float just below or the one just above, and which of
    the two is the platform's choice. The choice is a parameter of the model:
    a [pow_rounding] tells, for the magnitude of an argument, whether the
    library rounds its inexact square up. The exponent 2 is even, so the
    result depends on the magnitude only. *)
Definition pow_rounding : Type := float -> bool.

(** The mantissa a faithful rounding keeps: the truncated one, or the next
    when the value is inexact and the rounding goes up. *)
Definition round_faithful (up : bool) (mx : Z) (lx : location) : Z :=
  match lx with
  | loc_Exact => mx
  | loc_Inexact _ => if up then mx + 1 else mx
  end.

(** The rounding of the Standard Library's specification, with
    [round_faithful] in the place of its rounding to nearest. *)
Definition binary_round_aux_faithful (up sx : bool) (mx ex : Z) (lx : location) : float :=
  let '(mrs', e') := shr_fexp F64.prec F64.emax mx ex lx in
  let '(mrs'', e'') :=
    shr_fexp F64.prec F64.emax
             (round_faithful up (shr_m mrs') (loc_of_shr_record mrs')) e' loc_Exact in
  match shr_m mrs'' with
  | Z0 => S754_zero sx
  | Zpos m =>
      if e'' <=? F64.emax - F64.prec then S754_finite sx m e'' else S754_infinity sx
  | Zneg _ => S754_nan
  end.

(** The square of [x], faithfully rounded. *)
Definition square (up : bool) (x : float) : float :=
  match x with
  | S754_nan => S754_nan
  | S754_infinity _ => S754_infinity false
  | S754_zero _ => S754_zero false
  | S754_finite _ m e =>
      binary_round_aux_faithful up false (Zpos (m * m)) (e + e) loc_Exact
  end.

(** [math.pow(x, 2)]. A NaN or an infinity goes through; on a finite [x] the
    result is the library's square, and one that overflows is an
    [OverflowError]. *)
Definition pow_2 (libm : pow_rounding) (x : float) : result float :=
  let r := square (libm (SFabs x)) x in
  match x, r with
  | S754_finite _ _ _, S754_infinity _ => Raise OverflowError
  | _, _ => Ok r
  end.

End PyMath.

(** ** The collaborators of the class *)

(** [sc2.game_state.GameState], as far as the class reads it. *)
Record GameState : Type := { game_loop : Z }.

(** [sc2.unit.Unit], as far as the class reads it. *)
Record Unit : Type := {
  tag : Z;
  position_tuple : float * float;
  distance_calculation_index : Z
}.

(** ** The object *)

(** What [self._distance_squared_unit_to_unit] can be bound to. *)
Inductive unit_to_unit_impl : Type :=
| Bound_unit_to_unit_method0
| Bound_unit_to_unit_method1
| Bound_unit_to_unit_method2.

(** What [self.calculate_distances] can be bound to. *)
Inductive calculate_impl : Type :=
| Bound_calculate_method1
| Bound_calculate_method2
| Bound_calculate_method3.

(** The attributes of a [DistanceCalculation]. [all_units] is set by the bot
    that mixes the class in; the two last fields are the attributes
    [_distances_override_functions] binds, [None] while they are unbound. *)
Record DistanceCalculation : Type := {
  state : option GameState;
  _generated_frame2 : Z;
  _cached_pdist : option (list float);
  _cached_cdist : option (list (list float));
  all_units : list Unit;
  _distance_squared_unit_to_unit : option unit_to_unit_impl;
  calculate_distances : option calculate_impl
}.

(** [__init__]. [all_units] is not an attribute of a new object: the bot sets
    it before any method runs, and it is empty here until then. *)
Definition __init__ : DistanceCalculation :=
  {| state := None;
     _generated_frame2 := -100;
     _cached_pdist := None;
     _cached_cdist := None;
     all_units := [];
     _distance_squared_unit_to_unit := None;
     calculate_distances := None |}.

Definition set_state (g : option GameState) (self : DistanceCalculation) :=
  {| state := g;
     _generated_frame2 := _generated_frame2 self;
     _cached_pdist := _cached_pdist self;
     _cached_cdist := _cached_cdist self;
     all_units := all_units self;
     _distance_squared_unit_to_unit := _distance_squared_unit_to_unit self;
     calculate_distances := calculate_distances self |}.

Definition set_all_units (units : list Unit) (self : DistanceCalculation) :=
  {| state := state self;
     _generated_frame2 := _generated_frame2 self;
     _cached_pdist := _cached_pdist self;
     _cached_cdist := _cached_cdist self;
     all_units := units;
     _distance_squared_unit_to_unit := _distance_squared_unit_to_unit self;
     calculate_distances := calculate_distances self |}.

Definition set_generated_frame2 (frame : Z) (self : DistanceCalculation) :=
  {| state := state self;
     _generated_frame2 := frame;
     _cached_pdist := _cached_pdist self;
     _cached_cdist := _cached_cdist self;
     all_units := all_units self;
     _distance_squared_unit_to_unit := _distance_squared_unit_to_unit self;
     calculate_distances := calculate_distances self |}.

Definition set_cached_pdist (d : list float) (self : DistanceCalculation) :=
  {| state := state self;
     _generated_frame2 := _generated_frame2 self;
     _cached_pdist := Some d;
     _cached_cdist := _cached_cdist self;
     all_units := all_units self;
     _distance_squared_unit_to_unit := _distance_squared_unit_to_unit self;
     calculate_distances := calculate_distances self |}.

Definition set_cached_cdist (d : list (list float)) (self : DistanceCalculation) :=
  {| state := state self;
     _generated_frame2 := _generated_frame2 self;
     _cached_pdist := _cached_pdist self;
     _cached_cdist := Some d;
     all_units := all_units self;
     _distance_squared_unit_to_unit := _distance_squared_unit_to_unit self;
     calculate_distances := calculate_distances self |}.

Definition set_distance_squared_unit_to_unit
    (f : unit_to_unit_impl) (self : DistanceCalculation) :=
  {| state := state self;
     _generated_frame2 := _generated_frame2 self;
     _cached_pdist := _cached_pdist self;
     _cached_cdist := _cached_cdist self;
     all_units := all_units self;
     _distance_squared_unit_to_unit := Some f;
     calculate_distances := calculate_distances self |}.

Definition set_calculate_distances (f : calculate_impl) (self : DistanceCalculation) :=
  {| state := state self;
     _generated_frame2 := _generated_frame2 self;
     _cached_pdist := _cached_pdist self;
     _cached_cdist := _cached_cdist self;
     all_units := all_units self;
     _distance_squared_unit_to_unit := _distance_squared_unit_to_unit self;
     calculate_distances := Some f |}.

(** ** Methods: a result and the object afterwards *)

Definition Method (A : Type) : Type :=
  DistanceCalculation -> result A * DistanceCalculation.

Definition ret {A} (a : A) : Method A := fun self => (Ok a, self).

Definition bind {A B} (m : Method A) (k : A -> Method B) : Method B :=
  fun self =>
    match m self with
    | (Ok a, self') => k a self'
    | (Raise e, self') => (Raise e, self')
    end.

(** An expression over [self] that may raise and assigns nothing. *)
Definition eval {A} (f : DistanceCalculation -> result A) : Method A :=
  fun self => (f self, self).

(** An assignment to an attribute of [self]. *)
Definition assign (f : DistanceCalculation -> DistanceCalculation) : Method unit :=
  fun self => (Ok tt, f self).

Declare Scope method_scope.
Delimit Scope method_scope with method.
Notation "x <- m ;; k" := (bind m (fun x => k))
  (at level 61, m at next level, right associativity) : method_scope.
Notation "m ;; k" := (bind m (fun _ => k))
  (at level 61, right associativity) : method_scope.

Local Open Scope method_scope.

(** [self._units_count] *)
Definition _units_count (self : DistanceCalculation) : Z :=
  Np.len (all_units self).

(** [self.state.game_loop]; [self.state] is [None] until the bot sets it. *)
Definition state_game_loop (self : DistanceCalculation) : result Z :=
  match state self with
  | Some g => Ok (game_loop g)
  | None => Raise (AttributeError "game_loop")
  end.

(** [(coord for unit in self.all_units for coord in unit.position_tuple)] *)
Definition flat_positions (self : DistanceCalculation) : list float :=
  flat_map (fun unit => [fst (position_tuple unit); snd (position_tuple unit)])
           (all_units self).

(** The part of the two checked builds after [positions_array] is made: the
    assertion on its length, then the distances and the cache. *)
Definition _calculate_distances_method1_store
    (positions_array : list (float * float)) : Method value :=
  eval (fun self =>
          assert_ (Np.len positions_array =? _units_count self) NoMessage) ;;
  let d := Scipy.pdist positions_array in
  assign (set_cached_pdist d) ;;
  eval (fun self => Ok (of_option VVec (_cached_pdist self))).

Definition _calculate_distances_method1 : Method value :=
  frame <- eval state_game_loop ;;
  assign (set_generated_frame2 frame) ;;
  positions_array <-
    eval (fun self =>
            rbind (Np.fromiter (flat_positions self) (2 * _units_count self))
                  (fun flat => Np.reshape_n_2 flat (_units_count self))) ;;
  _calculate_distances_method1_store positions_array.

Definition _calculate_distances_method2_store
    (positions_array : list (float * float)) : Method value :=
  eval (fun self =>
          assert_ (Np.len positions_array =? _units_count self) NoMessage) ;;
  let d := Scipy.cdist positions_array positions_array in
  assign (set_cached_cdist d) ;;
  eval (fun self => Ok (of_option VMat (_cached_cdist self))).

Definition _calculate_distances_method2 : Method value :=
  frame <- eval state_game_loop ;;
  assign (set_generated_frame2 frame) ;;
  positions_array <-
    eval (fun self =>
            rbind (Np.fromiter (flat_positions self) (2 * _units_count self))
                  (fun flat => Np.reshape_n_2 flat (_units_count self))) ;;
  _calculate_distances_method2_store positions_array.

(** The same part of the third build: no assertion. *)
Definition _calculate_distances_method3_store
    (positions_array : list (float * float)) : Method value :=
  let d := Scipy.cdist positions_array positions_array in
  assign (set_cached_cdist d) ;;
  eval (fun self => Ok (of_option VMat (_cached_cdist self))).

Definition _calculate_distances_method3 : Method value :=
  frame <- eval state_game_loop ;;
  assign (set_generated_frame2 frame) ;;
  positions_array <-
    eval (fun self =>
            rbind (Np.fromiter (flat_positions self) (2 * _units_count self))
                  Np.reshape_any_2) ;;
  _calculate_distances_method3_store positions_array.

(** The method a binding of [self.calculate_distances] stands for. *)
Definition calculate_function (k : calculate_impl) : Method value :=
  match k with
  | Bound_calculate_method1 => _calculate_distances_method1
  | Bound_calculate_method2 => _calculate_distances_method2
  | Bound_calculate_method3 => _calculate_distances_method3
  end.

(** [self.calculate_distances()]: the call goes to whatever the attribute is
    bound to. *)
Definition call_calculate_distances : Method value :=
  fun self =>
    match calculate_distances self with
    | Some k => calculate_function k self
    | None => (Raise (AttributeError "calculate_distances"), self)
    end.

(** The property [_pdist]. *)
Definition _pdist : Method value :=
  frame <- eval state_game_loop ;;
  fun self =>
    if negb (_generated_frame2 self =? frame) then call_calculate_distances self
    else (Ok (of_option VVec (_cached_pdist self)), self).

(** The property [_cdist]. *)
Definition _cdist : Method value :=
  frame <- eval state_game_loop ;;
  fun self =>
    if negb (_generated_frame2 self =? frame) then call_calculate_distances self
    else (Ok (of_option VMat (_cached_cdist self)), self).

(** *** Helper functions *)

Definition square_to_condensed (self : DistanceCalculation) (i j : Z) : result Z :=
  rbind (assert_ (negb (i =? j)) NoDiagonal) (fun _ =>
  let '(i, j) := if i <? j then (j, i) else (i, j) in
  Ok (_units_count self * j - j * (j + 1) / 2 + i - 1 - j)).

Definition distance_math_hypot_squared
    (libm : PyMath.pow_rounding) (p1 p2 : float * float) : result float :=
  rbind (PyMath.pow_2 libm (F64.sub (fst p1) (fst p2))) (fun a =>
  rbind (PyMath.pow_2 libm (F64.sub (snd p1) (snd p2))) (fun b =>
  Ok (F64.add a b))).

(** *** The unit-to-unit strategies *)

Definition _distance_squared_unit_to_unit_method0
    (libm : PyMath.pow_rounding) (unit1 unit2 : Unit) : Method value :=
  eval (fun _ =>
          rbind (distance_math_hypot_squared libm (position_tuple unit1)
                                                  (position_tuple unit2))
                (fun d => Ok (VFloat d))).

Definition _distance_squared_unit_to_unit_method1 (unit1 unit2 : Unit) : Method value :=
  if tag unit1 =? tag unit2 then ret (VInt 0)
  else
    condensed_index <-
      eval (fun self =>
              square_to_condensed self (distance_calculation_index unit1)
                                       (distance_calculation_index unit2)) ;;
    n <- eval (fun self => Np.len_value (of_option VVec (_cached_pdist self))) ;;
    eval (fun _ =>
            assert_ (condensed_index <? n)
                    (CondensedIndexTooLarge condensed_index n (tag unit1) (tag unit2))) ;;
    a <- _pdist ;;
    eval (fun _ => Np.getitem a condensed_index).

Definition _distance_squared_unit_to_unit_method2 (unit1 unit2 : Unit) : Method value :=
  a <- _cdist ;;
  eval (fun _ => Np.getitem2 a (distance_calculation_index unit1)
                               (distance_calculation_index unit2)).

(** *** Strategy selection *)

Definition _distances_override_functions (method : Z) : Method unit :=
  eval (fun _ => assert_ ((0 <=? method) && (method <=? 3)) (SelectedMethodWas method)) ;;
  if method =? 0 then
    assign (set_distance_squared_unit_to_unit Bound_unit_to_unit_method0)
  else if method =? 1 then
    assign (set_distance_squared_unit_to_unit Bound_unit_to_unit_method1) ;;
    assign (set_calculate_distances Bound_calculate_method1)
  else if method =? 2 then
    assign (set_distance_squared_unit_to_unit Bound_unit_to_unit_method2) ;;
    assign (set_calculate_distances Bound_calculate_method2)
  else if method =? 3 then
    assign (set_distance_squared_unit_to_unit Bound_unit_to_unit_method2) ;;
    assign (set_calculate_distances Bound_calculate_method3)
  else ret tt.

(** The method a binding of [self._distance_squared_unit_to_unit] stands for. *)
Definition unit_to_unit_function
    (libm : PyMath.pow_rounding) (f : unit_to_unit_impl) : Unit -> Unit -> Method value :=
  match f with
  | Bound_unit_to_unit_method0 => _distance_squared_unit_to_unit_method0 libm
  | Bound_unit_to_unit_method1 => _distance_squared_unit_to_unit_method1
  | Bound_unit_to_unit_method2 => _distance_squared_unit_to_unit_method2
  end.

(** [self._distance_squared_unit_to_unit(unit1, unit2)]: the call goes to
    whatever the attribute is bound to. *)
Definition call_distance_squared_unit_to_unit
    (libm : PyMath.pow_rounding) (unit1 unit2 : Unit) : Method value :=
  fun self =>
    match _distance_squared_unit_to_unit self with
    | Some f => unit_to_unit_function libm f unit1 unit2 self
    | None => (Raise (AttributeError "_distance_squared_unit_to_unit"), self)
    end.

(** ** Definitions the statements use *)

(** The [N x 2] array of the positions, in the order of [all_units]. *)
Definition positions (self : DistanceCalculation) : list (float * float) :=
  map position_tuple (all_units self).

(** The object after a build of kind [k] in frame [frame]. *)
Definition built (k : calculate_impl) (frame : Z) (self : DistanceCalculation) :=
  let stamped := set_generated_frame2 frame self in
  match k with
  | Bound_calculate_method1 =>
      set_cached_pdist (Scipy.pdist (positions self)) stamped
  | Bound_calculate_method2 | Bound_calculate_method3 =>
      set_cached_cdist (Scipy.cdist (positions self) (positions self)) stamped
  end.

(** The data a build of kind [k] returns. *)
Definition built_data (k : calculate_impl) (self : DistanceCalculation) : value :=
  match k with
  | Bound_calculate_method1 => VVec (Scipy.pdist (positions self))
  | Bound_calculate_method2 | Bound_calculate_method3 =>
      VMat (Scipy.cdist (positions self) (positions self))
  end.

(** The offset of the pair with larger index [i] and smaller index [j] in the
    condensed vector of [N] entities, as the specification words it. *)
Definition condensed_offset (N i j : Z) : Z :=
  N * j - j * (j + 1) / 2 + i - 1 - j.

(** What a selection of [method] in [0..3] binds, as the specification words
    it: the unit-to-unit implementation, and the build of the modes 1 to 3. *)
Definition unit_to_unit_of_mode (method : Z) : unit_to_unit_impl :=
  if method =? 0 then Bound_unit_to_unit_method0
  else if method =? 1 then Bound_unit_to_unit_method1
  else Bound_unit_to_unit_method2.

Definition calculate_of_mode (method : Z) : option calculate_impl :=
  if method =? 1 then Some Bound_calculate_method1
  else if method =? 2 then Some Bound_calculate_method2
  else if method =? 3 then Some Bound_calculate_method3
  else None.

(** The array the two checked builds read, [np.fromiter(flat_positions,
    count=2 * N).reshape((N, 2))], and the one the third build reads, with
    [reshape((-1, 2))]. *)
Definition read_positions_n_2 (self : DistanceCalculation) : result (list (float * float)) :=
  rbind (Np.fromiter (flat_positions self) (2 * _units_count self))
        (fun flat => Np.reshape_n_2 flat (_units_count self)).

Definition read_positions_any_2 (self : DistanceCalculation) : result (list (float * float)) :=
  rbind (Np.fromiter (flat_positions self) (2 * _units_count self)) Np.reshape_any_2.

(** The three builds with the expression that makes [positions_array] left
    open: the frame is stamped, [read] gives the array, and the rest of the
    build runs on it. Each build is its [_reading] at the array it reads. *)
Definition _calculate_distances_method1_reading
    (read : DistanceCalculation -> result (list (float * float))) : Method value :=
  frame <- eval state_game_loop ;;
  assign (set_generated_frame2 frame) ;;
  positions_array <- eval read ;;
  _calculate_distances_method1_store positions_array.

Definition _calculate_distances_method2_reading
    (read : DistanceCalculation -> result (list (float * float))) : Method value :=
  frame <- eval state_game_loop ;;
  assign (set_generated_frame2 frame) ;;
  positions_array <- eval read ;;
  _calculate_distances_method2_store positions_array.

Definition _calculate_distances_method3_reading
    (read : DistanceCalculation -> result (list (float * float))) : Method value :=
  frame <- eval state_game_loop ;;
  assign (set_generated_frame2 frame) ;;
  positions_array <- eval read ;;
  _calculate_distances_method3_store positions_array.

(** ** Well-formed entities and caches *)

(** Both coordinates of a position are finite numbers. *)
Definition finite_position (p : float * float) : Prop :=
  F64.is_finite (fst p) = true /\ F64.is_finite (snd p) = true.

(** The entity stands in [all_units] at its distance-calculation index. *)
Definition indexed (self : DistanceCalculation) (unit : Unit) : Prop :=
  0 <= distance_calculation_index unit /\
  nth_error (all_units self) (Z.to_nat (distance_calculation_index unit)) = Some unit.

(** A square strategy (2 or 3) is selected in a running game, and a cache
    that the counter marks as current holds the matrix of the current entity
    set: the state a session is in between a selection of strategy 2 or 3 and
    the next. *)
Definition square_session (self : DistanceCalculation) : Prop :=
  exists g,
    state self = Some g /\
    (calculate_distances self = Some Bound_calculate_method2 \/
     calculate_distances self = Some Bound_calculate_method3) /\
    (_generated_frame2 self = game_loop g ->
     _cached_cdist self = Some (Scipy.cdist (positions self) (positions self))).

(** ** Floats in units of the last place *)

(** Exact values, where they are needed, are integers in units of [2^-2148],
    the square of the smallest positive float. The floats are the values
    [n] that are multiples of [2 ^ cexp n]: at most 53 significant bits, and
    none below [2^-1074]. *)
Definition cexp (n : Z) : Z := Z.max (Z.log2 n + 1 - 53) 1074.

Definition representable (n : Z) : Prop := n mod 2 ^ cexp n = 0.

(** The float just below a value, and the two floats a rounding of the value
    may give: that one and the next. *)
Definition round_down (n : Z) : Z := n / 2 ^ cexp n * 2 ^ cexp n.

Definition rounds (n r : Z) : Prop :=
  r = round_down n \/ r = round_down n + 2 ^ cexp n.

(** Rounding to nearest: down when the rest is at most half a unit, up when
    it is at least half. *)
Definition rounds_nearest (n r : Z) : Prop :=
  (r = round_down n /\ 2 * (n - round_down n) <= 2 ^ cexp n) \/
  (r = round_down n + 2 ^ cexp n /\ 2 ^ cexp n <= 2 * (n - round_down n)).

(** The place of the float just below a value among the floats that are zero
    or more, counted from zero. *)
Definition floor_ordinal (n : Z) : Z := (cexp n - 1074) * 2 ^ 52 + n / 2 ^ cexp n.

(** The float of a representable value, with the sign [s]: the mantissa is
    the quotient by [2 ^ cexp], and past the largest float it is an
    infinity. *)
Definition to_float (s : bool) (r : Z) : float :=
  match r / 2 ^ cexp r with
  | Zpos m =>
      if cexp r - 2148 <=? 971 then S754_finite s m (cexp r - 2148) else S754_infinity s
  | _ => S754_zero s
  end.

(** The 64 bits of a float that is zero or more, read as an integer: [0.0]
    is 0, each float is one more than the float just below it, and [inf]
    comes after the largest float. Two floats are [k] units in the last
    place apart when their ordinals differ by [k]. *)
Definition ordinal (x : float) : Z :=
  match x with
  | S754_zero _ => 0
  | S754_finite _ m e => (e + 1074) * 2 ^ 52 + Zpos m
  | S754_infinity _ => 2047 * 2 ^ 52
  | S754_nan => 2047 * 2 ^ 52 + 1
  end.

(** The rounding of the Standard Library's specification with the rounding
    of the mantissa left open: [round_nearest_even] gives [binary_round_aux],
    [PyMath.round_faithful] gives [PyMath.binary_round_aux_faithful]. *)
Definition binary_round_aux_with (rnd : Z -> location -> Z)
    (sx : bool) (mx ex : Z) (lx : location) : float :=
  let '(mrs', e') := shr_fexp F64.prec F64.emax mx ex lx in
  let '(mrs'', e'') :=
    shr_fexp F64.prec F64.emax (rnd (shr_m mrs') (loc_of_shr_record mrs')) e' loc_Exact in
  match shr_m mrs'' with
  | Z0 => S754_zero sx
  | Zpos m =>
      if e'' <=? F64.emax - F64.prec then S754_finite sx m e'' else S754_infinity sx
  | Zneg _ => S754_nan
  end.

(** A rounding keeps the truncated mantissa or takes the next. *)
Definition one_up (rnd : Z -> location -> Z) : Prop :=
  forall q l, q <= rnd q l <= q + 1.

(** What a location says of the rest [rem] of a division by [P]. *)
Definition loc_ok (rem P : Z) (l : location) : Prop :=
  match l with
  | loc_Exact => rem = 0
  | loc_Inexact Lt => 0 < 2 * rem < P
  | loc_Inexact Eq => 2 * rem = P
  | loc_Inexact Gt => P < 2 * rem
  end.

(** After [k] shifts of [M]: the quotient, and the location of the rest. *)
Definition shr_inv (M k : Z) (mrs : shr_record) : Prop :=
  shr_m mrs = M / 2 ^ k /\ loc_ok (M mod 2 ^ k) (2 ^ k) (loc_of_shr_record mrs).

(** Both coordinates are binary64 numbers: finite, with a mantissa and an
    exponent of the format, as every Python float has. *)
Definition binary64_position (p : float * float) : Prop :=
  finite_position p /\
  valid_binary F64.prec F64.emax (fst p) = true /\
  valid_binary F64.prec F64.emax (snd p) = true.

(** ** Example objects *)

(** A platform whose [pow] rounds every inexact square down. *)
Definition example_libm : PyMath.pow_rounding := fun _ => false.

Definition example_unit (t x y i : Z) : Unit :=
  {| tag := t;
     position_tuple := (F64.of_Z x, F64.of_Z y);
     distance_calculation_index := i |}.

(** Three entities at [(0,0)], [(3,4)] and [(0,4)]. *)
Definition example_units : list Unit :=
  [example_unit 10 0 0 0; example_unit 11 3 4 1; example_unit 12 0 4 2].

(** A fresh object in frame 5 of a game. *)
Definition example_self : DistanceCalculation :=
  set_state (Some {| game_loop := 5 |}) (set_all_units example_units __init__).

(** The same object once strategy [method] is selected. *)
Definition example_selected (method : Z) : DistanceCalculation :=
  snd (_distances_override_functions method example_self).

(** Four entities, and an object of strategy 1 whose condensed vector has
    been built for the current frame 7. *)
Definition example_units4 : list Unit :=
  [example_unit 10 0 0 0; example_unit 11 3 4 1;
   example_unit 12 0 4 2; example_unit 13 3 0 3].

Definition example_condensed4 : DistanceCalculation :=
  let self := set_state (Some {| game_loop := 7 |}) (set_all_units example_units4 __init__) in
  let self := snd (_distances_override_functions 1 self) in
  snd (_pdist self).

(** Two entities kept from an earlier frame, when the set was larger: their
    indices 9 and 8 are those of that frame. They are 100 apart. *)
Definition stale_unit_a : Unit := example_unit 20 100 0 9.
Definition stale_unit_b : Unit := example_unit 21 0 0 8.

(** ** Definitions for the further properties *)

(** A float that is zero or more: [0.0], a positive number or [inf]. *)
Definition nonneg_number (x : float) : Prop :=
  match x with
  | S754_zero false | S754_infinity false | S754_finite false _ _ => True
  | _ => False
  end.

(** The condensed vector of the current entity set is cached and the counter
    marks it as current: the state after [_pdist] is read in a frame of a
    session of strategy 1. *)
Definition condensed_cache_current (self : DistanceCalculation) : Prop :=
  exists g,
    state self = Some g /\
    _generated_frame2 self = game_loop g /\
    _cached_pdist self = Some (Scipy.pdist (positions self)).

(** The entity that an index selects in the current set, a negative index
    counting from the end. *)
Definition at_index (self : DistanceCalculation) (k : Z) (entity : Unit) : Prop :=
  - _units_count self <= k < _units_count self /\
  nth_error (all_units self)
            (Z.to_nat (if k <? 0 then k + _units_count self else k)) = Some entity.

(** [convert_tuple_to_numpy_array(pos)]: [pos] is read as a Python sequence of
    floats of any length, as [np.fromiter] reads it. *)
Definition convert_tuple_to_numpy_array (pos : list float) : result (list (float * float)) :=
  rbind (Np.fromiter pos 2) (fun flat => Np.reshape_n_2 flat 1).

(** * Properties *)

(** ** What the builds compute *)

Lemma flat_positions_length self :
  Z.of_nat (length (flat_positions self)) = 2 * _units_count self.
Proof.
  unfold flat_positions, _units_count, Np.len.
  induction (all_units self) as [|u us IH]; simpl length.
  - reflexivity.
  - rewrite !Nat2Z.inj_succ, IH. lia.
Qed.

Lemma rows2_flat_positions self :
  Np.rows2 (flat_positions self) = positions self.
Proof.
  unfold flat_positions, positions.
  induction (all_units self) as [|u us IH]; simpl.
  - reflexivity.
  - rewrite IH. now destruct (position_tuple u).
Qed.

Lemma positions_len self : Np.len (positions self) = _units_count self.
Proof. unfold positions, Np.len, _units_count. now rewrite length_map. Qed.

Lemma fromiter_flat_positions self :
  Np.fromiter (flat_positions self) (2 * _units_count self) = Ok (flat_positions self).
Proof.
  unfold Np.fromiter.
  rewrite <- flat_positions_length.
  destruct (Z.ltb_spec (Z.of_nat (length (flat_positions self))) 0); [lia|].
  rewrite Z.ltb_irrefl, Nat2Z.id.
  now rewrite firstn_all.
Qed.

(** The array both checked builds make. *)
Lemma positions_array_n_2 self :
  rbind (Np.fromiter (flat_positions self) (2 * _units_count self))
        (fun flat => Np.reshape_n_2 flat (_units_count self))
  = Ok (positions self).
Proof.
  rewrite fromiter_flat_positions. simpl. unfold Np.reshape_n_2.
  rewrite flat_positions_length.
  replace (2 * _units_count self =? _units_count self * 2) with true
    by (symmetry; apply Z.eqb_eq; lia).
  now rewrite rows2_flat_positions.
Qed.

(** The array the third build makes. *)
Lemma positions_array_any_2 self :
  rbind (Np.fromiter (flat_positions self) (2 * _units_count self)) Np.reshape_any_2
  = Ok (positions self).
Proof.
  rewrite fromiter_flat_positions. simpl. unfold Np.reshape_any_2.
  rewrite flat_positions_length, Z.even_mul. simpl.
  now rewrite rows2_flat_positions.
Qed.

Lemma _calculate_distances_method1_eq self g :
  state self = Some g ->
  _calculate_distances_method1 self =
    (Ok (VVec (Scipy.pdist (positions self))),
     built Bound_calculate_method1 (game_loop g) self).
Proof.
  intros Hg.
  unfold _calculate_distances_method1, bind, eval, assign, state_game_loop.
  rewrite Hg.
  change (_units_count (set_generated_frame2 (game_loop g) self)) with (_units_count self).
  change (flat_positions (set_generated_frame2 (game_loop g) self)) with (flat_positions self).
  rewrite positions_array_n_2.
  unfold _calculate_distances_method1_store, bind, eval, assign.
  change (_units_count (set_generated_frame2 (game_loop g) self)) with (_units_count self).
  rewrite positions_len, Z.eqb_refl. reflexivity.
Qed.

Lemma _calculate_distances_method2_eq self g :
  state self = Some g ->
  _calculate_distances_method2 self =
    (Ok (VMat (Scipy.cdist (positions self) (positions self))),
     built Bound_calculate_method2 (game_loop g) self).
Proof.
  intros Hg.
  unfold _calculate_distances_method2, bind, eval, assign, state_game_loop.
  rewrite Hg.
  change (_units_count (set_generated_frame2 (game_loop g) self)) with (_units_count self).
  change (flat_positions (set_generated_frame2 (game_loop g) self)) with (flat_positions self).
  rewrite positions_array_n_2.
  unfold _calculate_distances_method2_store, bind, eval, assign.
  change (_units_count (set_generated_frame2 (game_loop g) self)) with (_units_count self).
  rewrite positions_len, Z.eqb_refl. reflexivity.
Qed.

Lemma _calculate_distances_method3_eq self g :
  state self = Some g ->
  _calculate_distances_method3 self =
    (Ok (VMat (Scipy.cdist (positions self) (positions self))),
     built Bound_calculate_method3 (game_loop g) self).
Proof.
  intros Hg.
  unfold _calculate_distances_method3, bind, eval, assign, state_game_loop.
  rewrite Hg.
  change (_units_count (set_generated_frame2 (game_loop g) self)) with (_units_count self).
  change (flat_positions (set_generated_frame2 (game_loop g) self)) with (flat_positions self).
  rewrite positions_array_any_2.
  reflexivity.
Qed.

Lemma call_calculate_distances_eq self g k :
  state self = Some g ->
  calculate_distances self = Some k ->
  call_calculate_distances self = (Ok (built_data k self), built k (game_loop g) self).
Proof.
  intros Hg Hk. unfold call_calculate_distances. rewrite Hk.
  destruct k; simpl.
  - now apply _calculate_distances_method1_eq.
  - now apply _calculate_distances_method2_eq.
  - now apply _calculate_distances_method3_eq.
Qed.

Lemma call_calculate_distances_unbound self :
  calculate_distances self = None ->
  call_calculate_distances self = (Raise (AttributeError "calculate_distances"), self).
Proof. intros Hk. unfold call_calculate_distances. now rewrite Hk. Qed.

(** A call of [calculate_distances] that returns has stamped the frame and
    returns what it has just cached. *)
Lemma call_calculate_distances_ok self g d self' :
  state self = Some g ->
  call_calculate_distances self = (Ok d, self') ->
  exists k, calculate_distances self = Some k /\
            d = built_data k self /\ self' = built k (game_loop g) self.
Proof.
  intros Hg Hcall.
  destruct (calculate_distances self) as [k|] eqn:Hk.
  - rewrite (call_calculate_distances_eq self g k Hg Hk) in Hcall.
    exists k. inversion Hcall; subst. auto.
  - rewrite (call_calculate_distances_unbound self Hk) in Hcall. discriminate.
Qed.

(** The accessors when the recorded frame is the current one, and when it is
    not. *)
Lemma _pdist_fresh self g :
  state self = Some g -> _generated_frame2 self = game_loop g ->
  _pdist self = (Ok (of_option VVec (_cached_pdist self)), self).
Proof.
  intros Hg Hf. unfold _pdist, bind, eval, state_game_loop.
  rewrite Hg, Hf, Z.eqb_refl. reflexivity.
Qed.

Lemma _cdist_fresh self g :
  state self = Some g -> _generated_frame2 self = game_loop g ->
  _cdist self = (Ok (of_option VMat (_cached_cdist self)), self).
Proof.
  intros Hg Hf. unfold _cdist, bind, eval, state_game_loop.
  rewrite Hg, Hf, Z.eqb_refl. reflexivity.
Qed.

Lemma _pdist_stale self g :
  state self = Some g -> _generated_frame2 self <> game_loop g ->
  _pdist self = call_calculate_distances self.
Proof.
  intros Hg Hf. unfold _pdist, bind, eval, state_game_loop.
  rewrite Hg. apply Z.eqb_neq in Hf. now rewrite Hf.
Qed.

Lemma _cdist_stale self g :
  state self = Some g -> _generated_frame2 self <> game_loop g ->
  _cdist self = call_calculate_distances self.
Proof.
  intros Hg Hf. unfold _cdist, bind, eval, state_game_loop.
  rewrite Hg. apply Z.eqb_neq in Hf. now rewrite Hf.
Qed.

Lemma built_state k frame self : state (built k frame self) = state self.
Proof. now destruct k. Qed.

Lemma built_generated_frame2 k frame self : _generated_frame2 (built k frame self) = frame.
Proof. now destruct k. Qed.

Lemma built_all_units k frame self : all_units (built k frame self) = all_units self.
Proof. now destruct k. Qed.

Lemma built_calculate_distances k frame self :
  calculate_distances (built k frame self) = calculate_distances self.
Proof. now destruct k. Qed.

(** ** The frame-gated cache *)

Lemma calculate_function_eq self g k :
  state self = Some g ->
  calculate_function k self = (Ok (built_data k self), built k (game_loop g) self).
Proof.
  intros Hg. destruct k; simpl.
  - now apply _calculate_distances_method1_eq.
  - now apply _calculate_distances_method2_eq.
  - now apply _calculate_distances_method3_eq.
Qed.

(** What a stale accessor does when a build is bound. *)
Lemma _pdist_rebuild self g k :
  state self = Some g -> _generated_frame2 self <> game_loop g ->
  calculate_distances self = Some k ->
  _pdist self = (Ok (built_data k self), built k (game_loop g) self).
Proof.
  intros Hg Hf Hk.
  now rewrite (_pdist_stale self g Hg Hf), (call_calculate_distances_eq self g k Hg Hk).
Qed.

Lemma _cdist_rebuild self g k :
  state self = Some g -> _generated_frame2 self <> game_loop g ->
  calculate_distances self = Some k ->
  _cdist self = (Ok (built_data k self), built k (game_loop g) self).
Proof.
  intros Hg Hf Hk.
  now rewrite (_cdist_stale self g Hg Hf), (call_calculate_distances_eq self g k Hg Hk).
Qed.

Lemma _pdist_built self g k :
  state self = Some g ->
  _pdist (built k (game_loop g) self) =
    (Ok (of_option VVec (_cached_pdist (built k (game_loop g) self))),
     built k (game_loop g) self).
Proof.
  intros Hg. apply (_pdist_fresh _ g).
  - now rewrite built_state.
  - apply built_generated_frame2.
Qed.

Lemma _cdist_built self g k :
  state self = Some g ->
  _cdist (built k (game_loop g) self) =
    (Ok (of_option VMat (_cached_cdist (built k (game_loop g) self))),
     built k (game_loop g) self).
Proof.
  intros Hg. apply (_cdist_fresh _ g).
  - now rewrite built_state.
  - apply built_generated_frame2.
Qed.

(** An accessor that has returned leaves the counter at the current frame. *)
Lemma accessor_returned self g d self' :
  state self = Some g ->
  _pdist self = (Ok d, self') \/ _cdist self = (Ok d, self') ->
  state self' = Some g /\ _generated_frame2 self' = game_loop g.
Proof.
  intros Hg Hacc.
  destruct (Z.eq_dec (_generated_frame2 self) (game_loop g)) as [Hf|Hf].
  - rewrite (_pdist_fresh self g Hg Hf), (_cdist_fresh self g Hg Hf) in Hacc.
    assert (self' = self) by (destruct Hacc as [H|H]; now inversion H).
    subst self'. auto.
  - rewrite (_pdist_stale self g Hg Hf), (_cdist_stale self g Hg Hf) in Hacc.
    assert (Hcall : call_calculate_distances self = (Ok d, self'))
      by (destruct Hacc; assumption).
    destruct (call_calculate_distances_ok _ _ _ _ Hg Hcall) as (k & _ & _ & ->).
    now rewrite built_state, built_generated_frame2.
Qed.

(** C1, amended. In a frame [g] of a running game:
    - an accessor whose recorded counter is the current [game_loop] returns
      its cached structure and leaves the object as it is: nothing is
      recomputed;
    - otherwise the accessor runs the bound build: it returns the structure
      that build computes from the current entity set, and leaves the counter
      at the current frame and that structure in the cache of its kind, the
      other cache untouched;
    - after a read that has returned, the counter is the current frame and
      both accessors serve their caches with the object unchanged;
    - a second read returns what the first read returned when the counter
      was current at the first read, or the accessor is the one the bound
      build fills: [_pdist] under build 1, [_cdist] under builds 2 and 3;
    - the other accessor is not idempotent on a stale counter: its first read
      returns the structure of the other kind, its second read what its own
      cache held before. *)
Theorem cache_accessors_frame_gated self g :
  state self = Some g ->
  (_generated_frame2 self = game_loop g ->
     _pdist self = (Ok (of_option VVec (_cached_pdist self)), self) /\
     _cdist self = (Ok (of_option VMat (_cached_cdist self)), self))
  /\
  (forall k,
     _generated_frame2 self <> game_loop g -> calculate_distances self = Some k ->
     let self' := snd (calculate_function k self) in
     _pdist self = calculate_function k self /\
     _cdist self = calculate_function k self /\
     fst (calculate_function k self) = Ok (built_data k self) /\
     _generated_frame2 self' = game_loop g /\
     state self' = Some g /\
     all_units self' = all_units self /\
     match k with
     | Bound_calculate_method1 =>
         _cached_pdist self' = Some (Scipy.pdist (positions self)) /\
         _cached_cdist self' = _cached_cdist self
     | Bound_calculate_method2 | Bound_calculate_method3 =>
         _cached_cdist self' = Some (Scipy.cdist (positions self) (positions self)) /\
         _cached_pdist self' = _cached_pdist self
     end)
  /\
  (forall d self',
     _pdist self = (Ok d, self') \/ _cdist self = (Ok d, self') ->
     _generated_frame2 self' = game_loop g /\
     _pdist self' = (Ok (of_option VVec (_cached_pdist self')), self') /\
     _cdist self' = (Ok (of_option VMat (_cached_cdist self')), self'))
  /\
  (forall d self',
     _pdist self = (Ok d, self') ->
     _generated_frame2 self = game_loop g \/
     calculate_distances self = Some Bound_calculate_method1 ->
     _pdist self' = (Ok d, self'))
  /\
  (forall d self',
     _cdist self = (Ok d, self') ->
     _generated_frame2 self = game_loop g \/
     calculate_distances self = Some Bound_calculate_method2 \/
     calculate_distances self = Some Bound_calculate_method3 ->
     _cdist self' = (Ok d, self'))
  /\
  (_generated_frame2 self <> game_loop g ->
     (calculate_distances self = Some Bound_calculate_method2 \/
      calculate_distances self = Some Bound_calculate_method3 ->
      fst (_pdist self) = Ok (VMat (Scipy.cdist (positions self) (positions self))) /\
      fst (_pdist (snd (_pdist self))) = Ok (of_option VVec (_cached_pdist self)))
     /\
     (calculate_distances self = Some Bound_calculate_method1 ->
      fst (_cdist self) = Ok (VVec (Scipy.pdist (positions self))) /\
      fst (_cdist (snd (_cdist self))) = Ok (of_option VMat (_cached_cdist self)))).
Proof.
  intros Hg.
  split; [|split; [|split; [|split; [|split]]]].
  - intros Hf. split.
    + now apply _pdist_fresh with (g := g).
    + now apply _cdist_fresh with (g := g).
  - intros k Hf Hk. cbv zeta.
    rewrite (_pdist_rebuild self g k Hg Hf Hk), (_cdist_rebuild self g k Hg Hf Hk),
            (calculate_function_eq self g k Hg).
    cbn [fst snd].
    rewrite built_generated_frame2, built_state, built_all_units.
    destruct k; repeat split; assumption || reflexivity.
  - intros d self' Hacc.
    destruct (accessor_returned self g d self' Hg Hacc) as [Hs' Hf'].
    split; [exact Hf'|]. split.
    + now apply _pdist_fresh with (g := g).
    + now apply _cdist_fresh with (g := g).
  - intros d self' Hread Hwhen.
    destruct (Z.eq_dec (_generated_frame2 self) (game_loop g)) as [Hf|Hf].
    + rewrite (_pdist_fresh self g Hg Hf) in Hread.
      inversion Hread; subst. now apply _pdist_fresh with (g := g).
    + destruct Hwhen as [Hf'|Hk]; [contradiction|].
      rewrite (_pdist_rebuild self g _ Hg Hf Hk) in Hread.
      injection Hread as <- <-.
      exact (_pdist_built self g Bound_calculate_method1 Hg).
  - intros d self' Hread Hwhen.
    destruct (Z.eq_dec (_generated_frame2 self) (game_loop g)) as [Hf|Hf].
    + rewrite (_cdist_fresh self g Hg Hf) in Hread.
      inversion Hread; subst. now apply _cdist_fresh with (g := g).
    + destruct Hwhen as [Hf'|[Hk|Hk]]; [contradiction| |];
        rewrite (_cdist_rebuild self g _ Hg Hf Hk) in Hread;
        injection Hread as <- <-;
        [exact (_cdist_built self g Bound_calculate_method2 Hg)
        |exact (_cdist_built self g Bound_calculate_method3 Hg)].
  - intros Hf. split.
    + intros [Hk|Hk]; rewrite (_pdist_rebuild self g _ Hg Hf Hk); cbn [fst snd];
        (split; [reflexivity|]);
        [rewrite (_pdist_built self g Bound_calculate_method2 Hg)
        |rewrite (_pdist_built self g Bound_calculate_method3 Hg)]; reflexivity.
    + intros Hk. rewrite (_cdist_rebuild self g _ Hg Hf Hk). cbn [fst snd].
      split; [reflexivity|].
      rewrite (_cdist_built self g Bound_calculate_method1 Hg). reflexivity.
Qed.

(** In frame 5, with strategy 1 selected and nothing built yet, the first
    read of [_pdist] builds and returns the three distances 25, 16 and 9,
    stamps frame 5 and caches the vector; the second read returns the same
    vector and changes nothing. *)
Lemma cache_accessors_frame_gated_witness :
  let self := example_selected 1 in
  let distances := [F64.of_Z 25; F64.of_Z 16; F64.of_Z 9] in
  state self = Some {| game_loop := 5 |} /\
  _generated_frame2 self = -100 /\
  calculate_distances self = Some Bound_calculate_method1 /\
  fst (_pdist self) = Ok (VVec distances) /\
  _generated_frame2 (snd (_pdist self)) = 5 /\
  _cached_pdist (snd (_pdist self)) = Some distances /\
  _pdist (snd (_pdist self)) = (Ok (VVec distances), snd (_pdist self)).
Proof.
  intros self distances.
  assert (Hf : _generated_frame2 self <> game_loop {| game_loop := 5 |})
    by (vm_compute; discriminate).
  destruct (cache_accessors_frame_gated self {| game_loop := 5 |} eq_refl)
    as (_ & Hbuild & _ & Hsame & _).
  destruct (Hbuild Bound_calculate_method1 Hf eq_refl)
    as (Hp & _ & Hd & Hfr & _ & _ & Hv & _).
  split; [reflexivity|]. split; [reflexivity|]. split; [reflexivity|].
  rewrite Hp. split; [exact Hd|]. split; [exact Hfr|]. split; [exact Hv|].
  apply (Hsame (VVec distances) (snd (calculate_function Bound_calculate_method1 self))).
  - rewrite Hp. reflexivity.
  - now right.
Defined.

(** C1, as stated, fails for the accessor that the bound build does not
    fill. In frame 5, with strategy 2 selected and nothing built yet, the
    first read of [_pdist] runs the square build and returns its matrix; the
    second read in the same frame finds the counter current and returns
    [_cached_pdist], which is [None]. *)
Lemma cache_accessors_frame_gated_counterexample :
  state (example_selected 2) = Some {| game_loop := 5 |} /\
  _generated_frame2 (example_selected 2) = -100 /\
  calculate_distances (example_selected 2) = Some Bound_calculate_method2 /\
  fst (_pdist (example_selected 2)) =
    Ok (VMat [[F64.of_Z 0; F64.of_Z 25; F64.of_Z 16];
              [F64.of_Z 25; F64.of_Z 0; F64.of_Z 9];
              [F64.of_Z 16; F64.of_Z 9; F64.of_Z 0]]) /\
  state (snd (_pdist (example_selected 2))) = Some {| game_loop := 5 |} /\
  fst (_pdist (snd (_pdist (example_selected 2)))) = Ok VNone.
Proof. repeat split. Qed.

(** C10. The two accessors share the one counter [_generated_frame2]. After
    the condensed build has run in a frame, [_cdist] finds the counter current
    and returns what [_cached_cdist] held before that build, [None] or an
    older matrix, without a build; after a square build (checked or not) has
    run, [_pdist] likewise returns what [_cached_pdist] held before. *)
Theorem shared_generation_counter self g :
  state self = Some g ->
  (let self' := snd (_calculate_distances_method1 self) in
   _generated_frame2 self' = game_loop g /\
   _cached_cdist self' = _cached_cdist self /\
   _cdist self' = (Ok (of_option VMat (_cached_cdist self)), self'))
  /\
  (let self' := snd (_calculate_distances_method2 self) in
   _generated_frame2 self' = game_loop g /\
   _cached_pdist self' = _cached_pdist self /\
   _pdist self' = (Ok (of_option VVec (_cached_pdist self)), self'))
  /\
  (let self' := snd (_calculate_distances_method3 self) in
   _generated_frame2 self' = game_loop g /\
   _cached_pdist self' = _cached_pdist self /\
   _pdist self' = (Ok (of_option VVec (_cached_pdist self)), self')).
Proof.
  intros Hg.
  rewrite (_calculate_distances_method1_eq self g Hg),
          (_calculate_distances_method2_eq self g Hg),
          (_calculate_distances_method3_eq self g Hg).
  cbv zeta. simpl snd.
  repeat split.
  - apply (_cdist_fresh (built Bound_calculate_method1 (game_loop g) self) g);
      [now rewrite built_state | reflexivity].
  - apply (_pdist_fresh (built Bound_calculate_method2 (game_loop g) self) g);
      [now rewrite built_state | reflexivity].
  - apply (_pdist_fresh (built Bound_calculate_method3 (game_loop g) self) g);
      [now rewrite built_state | reflexivity].
Qed.

(** On a new object the condensed build leaves [_cdist] returning [None]. *)
Lemma shared_generation_counter_witness :
  state example_self = Some {| game_loop := 5 |} /\
  fst (_cdist (snd (_calculate_distances_method1 example_self))) = Ok VNone.
Proof.
  split; [reflexivity|].
  destruct (shared_generation_counter example_self {| game_loop := 5 |} eq_refl)
    as [(_ & _ & H) _].
  rewrite H. reflexivity.
Defined.

(** ** The condensed index *)

(** [j * (j + 1)] is even, so the floor division of the formula is exact. *)
Lemma twice_triangle j : 2 * (j * (j + 1) / 2) = j * (j + 1).
Proof.
  symmetry. apply Z.div_exact; [lia|].
  destruct (Z.even j) eqn:He.
  - apply Z.even_spec in He. destruct He as [k ->].
    replace (2 * k * (2 * k + 1)) with (k * (2 * k + 1) * 2) by ring.
    apply Z.mod_mul. lia.
  - assert (Ho : Z.odd j = true) by (rewrite <- Z.negb_even, He; reflexivity).
    apply Z.odd_spec in Ho. destruct Ho as [k ->].
    replace ((2 * k + 1) * (2 * k + 1 + 1)) with ((2 * k + 1) * (k + 1) * 2) by ring.
    apply Z.mod_mul. lia.
Qed.

Lemma twice_pairs n : 2 * (n * (n - 1) / 2) = n * (n - 1).
Proof.
  pose proof (twice_triangle (n - 1)) as H.
  replace (n - 1 + 1) with n in H by lia.
  replace (n * (n - 1)) with ((n - 1) * n) by ring. exact H.
Qed.

(** The offset of a pair of valid indices lies inside the condensed vector. *)
Lemma condensed_offset_bounds N i j :
  0 <= j < i -> i < N ->
  0 <= condensed_offset N i j < N * (N - 1) / 2.
Proof.
  intros Hji HiN. unfold condensed_offset.
  pose proof (twice_triangle j) as Hj.
  pose proof (twice_pairs N) as HN.
  set (T := j * (j + 1) / 2) in *. set (P := N * (N - 1) / 2) in *.
  assert (H1 : 0 <= j * (2 * N - j - 3)) by (apply Z.mul_nonneg_nonneg; lia).
  assert (H2 : 0 <= (N - j - 2) * (N - j - 1)) by (apply Z.mul_nonneg_nonneg; lia).
  lia.
Qed.

Lemma condensed_offset_first N i : condensed_offset N i 0 = i - 1.
Proof. unfold condensed_offset. change (0 * (0 + 1) / 2) with 0. lia. Qed.

Lemma condensed_offset_step N i j :
  condensed_offset (N + 1) (i + 1) (j + 1) = N + condensed_offset N i j.
Proof.
  unfold condensed_offset.
  pose proof (twice_triangle j) as Hj.
  pose proof (twice_triangle (j + 1)) as Hj1.
  set (T := j * (j + 1) / 2) in *. set (T1 := (j + 1) * (j + 1 + 1) / 2) in *.
  nia.
Qed.

Lemma pdist_length X :
  Np.len (Scipy.pdist X) = Np.len X * (Np.len X - 1) / 2.
Proof.
  unfold Np.len.
  induction X as [|u rest IH]; [reflexivity|].
  simpl Scipy.pdist. rewrite length_app, length_map. simpl length.
  rewrite Nat2Z.inj_add, IH, Nat2Z.inj_succ.
  set (n := Z.of_nat (length rest)).
  pose proof (twice_pairs n) as H1.
  pose proof (twice_pairs (Z.succ n)) as H2.
  set (P := n * (n - 1) / 2) in *. set (P1 := Z.succ n * (Z.succ n - 1) / 2) in *.
  nia.
Qed.

(** The condensed vector holds the distance of rows [j < i] at the offset of
    the formula: the index mapping follows the order of [pdist]. *)
Lemma pdist_at_condensed_offset X :
  forall (i j : nat) u v,
    (j < i)%nat ->
    nth_error X j = Some u -> nth_error X i = Some v ->
    nth_error (Scipy.pdist X)
              (Z.to_nat (condensed_offset (Np.len X) (Z.of_nat i) (Z.of_nat j)))
    = Some (Scipy.sqeuclidean u v).
Proof.
  induction X as [|x rest IH]; intros i j u v Hlt Hj Hi.
  - destruct j; discriminate.
  - destruct i as [|i']; [lia|]. simpl in Hi.
    assert (Hi' : (i' < length rest)%nat) by (apply nth_error_Some; congruence).
    destruct j as [|j'].
    + simpl in Hj. inversion Hj; subst x.
      change (Z.of_nat 0) with 0. rewrite condensed_offset_first.
      replace (Z.to_nat (Z.of_nat (S i') - 1)) with i' by lia.
      simpl Scipy.pdist. rewrite nth_error_app1 by now rewrite length_map.
      rewrite nth_error_map, Hi. reflexivity.
    + simpl in Hj.
      unfold Np.len. simpl length. rewrite !Nat2Z.inj_succ.
      unfold Z.succ. rewrite condensed_offset_step.
      pose proof (condensed_offset_bounds (Z.of_nat (length rest))
                    (Z.of_nat i') (Z.of_nat j')) as Hb.
      rewrite Z2Nat.inj_add by lia. rewrite Nat2Z.id.
      simpl Scipy.pdist.
      rewrite nth_error_app2 by (rewrite length_map; lia).
      rewrite length_map.
      replace (length rest + _ - length rest)%nat
        with (Z.to_nat (condensed_offset (Z.of_nat (length rest)) (Z.of_nat i') (Z.of_nat j')))
        by lia.
      apply IH; [lia | assumption | assumption].
Qed.

Lemma square_to_condensed_distinct self i j :
  i <> j ->
  square_to_condensed self i j =
    Ok (condensed_offset (_units_count self) (Z.max i j) (Z.min i j)).
Proof.
  intros Hij. unfold square_to_condensed, condensed_offset.
  apply Z.eqb_neq in Hij. rewrite Hij. simpl.
  destruct (Z.ltb_spec i j).
  - rewrite Z.max_r, Z.min_l by lia. reflexivity.
  - rewrite Z.max_l, Z.min_r by lia. reflexivity.
Qed.

(** C2. For distinct indices, [square_to_condensed] returns the offset of the
    specification with the larger index as [i] and the smaller as [j], and
    [N] the entity count; this is the count the condensed build uses: the
    build leaves the entity set as it is and returns [N * (N - 1) / 2]
    distances. *)
Theorem square_to_condensed_offset self i j :
  i <> j ->
  let N := _units_count self in
  square_to_condensed self i j = Ok (condensed_offset N (Z.max i j) (Z.min i j))
  /\
  (forall g, state self = Some g ->
     exists d self',
       _calculate_distances_method1 self = (Ok (VVec d), self') /\
       Np.len d = N * (N - 1) / 2 /\
       _units_count self' = N /\
       square_to_condensed self' i j =
         Ok (condensed_offset N (Z.max i j) (Z.min i j))).
Proof.
  intros Hij N. split.
  - now apply square_to_condensed_distinct.
  - intros g Hg.
    exists (Scipy.pdist (positions self)),
           (built Bound_calculate_method1 (game_loop g) self).
    split; [now apply _calculate_distances_method1_eq|].
    split; [rewrite pdist_length, positions_len; reflexivity|].
    split; [reflexivity|].
    now apply square_to_condensed_distinct.
Qed.

Lemma square_to_condensed_offset_witness :
  2 <> 0 /\ square_to_condensed example_self 2 0 = Ok 1 /\
  square_to_condensed example_self 1 2 = Ok 2.
Proof.
  split; [discriminate|]. split.
  - apply (square_to_condensed_offset example_self 2 0). discriminate.
  - apply (square_to_condensed_offset example_self 1 2). discriminate.
Defined.

(** C6. The index mapping is symmetric on distinct indices. *)
Theorem square_to_condensed_symmetric self i j :
  i <> j ->
  square_to_condensed self i j = square_to_condensed self j i.
Proof.
  intros Hij.
  rewrite (square_to_condensed_distinct self i j) by assumption.
  rewrite (square_to_condensed_distinct self j i) by auto.
  now rewrite Z.max_comm, Z.min_comm.
Qed.

Lemma square_to_condensed_symmetric_witness :
  1 <> 2 /\
  square_to_condensed example_self 1 2 = square_to_condensed example_self 2 1.
Proof.
  split; [discriminate|].
  apply (square_to_condensed_symmetric example_self 1 2). discriminate.
Defined.

(** C8. On equal indices [square_to_condensed] raises the assertion error
    with its message about the diagonal, and so returns no offset. *)
Theorem square_to_condensed_diagonal self i :
  square_to_condensed self i i = Raise (AssertionError NoDiagonal).
Proof.
  unfold square_to_condensed. now rewrite Z.eqb_refl.
Qed.

(** ** Strategy selection *)

(** C9. A mode outside [0..3] makes the selection fail with the assertion
    error that names the mode, and binds nothing; a mode in [0..3] makes it
    succeed and binds the unit-to-unit implementation of that mode and, for
    the modes 1 to 3, the build of that mode (mode 0 leaves the build
    binding as it was); nothing else of the object changes. *)
Theorem strategy_selection libm method self :
  (method < 0 \/ 3 < method ->
     _distances_override_functions method self =
       (Raise (AssertionError (SelectedMethodWas method)), self))
  /\
  (0 <= method <= 3 ->
     exists self',
       _distances_override_functions method self = (Ok tt, self') /\
       _distance_squared_unit_to_unit self' = Some (unit_to_unit_of_mode method) /\
       (forall unit1 unit2,
          call_distance_squared_unit_to_unit libm unit1 unit2 self' =
            unit_to_unit_function libm (unit_to_unit_of_mode method) unit1 unit2 self') /\
       (1 <= method ->
          exists k, calculate_of_mode method = Some k /\
                    calculate_distances self' = Some k /\
                    call_calculate_distances self' = calculate_function k self') /\
       (method = 0 -> calculate_distances self' = calculate_distances self) /\
       state self' = state self /\
       _generated_frame2 self' = _generated_frame2 self /\
       _cached_pdist self' = _cached_pdist self /\
       _cached_cdist self' = _cached_cdist self /\
       all_units self' = all_units self).
Proof.
  split.
  - intros Hout. unfold _distances_override_functions, bind, eval, assert_.
    replace ((0 <=? method) && (method <=? 3)) with false; [reflexivity|].
    symmetry. apply andb_false_iff.
    destruct Hout; [left; apply Z.leb_gt | right; apply Z.leb_gt]; lia.
  - intros Hin.
    assert (Hcases : method = 0 \/ method = 1 \/ method = 2 \/ method = 3) by lia.
    destruct Hcases as [-> | [-> | [-> | ->]]];
      (eexists; split; [reflexivity|]);
      repeat split; try reflexivity; try lia;
      intros _; eexists; repeat split; reflexivity.
Qed.

Lemma strategy_selection_witness :
  (3 < 4 /\
   _distances_override_functions 4 example_self =
     (Raise (AssertionError (SelectedMethodWas 4)), example_self)) /\
  (0 <= 3 <= 3 /\
   exists self',
     _distances_override_functions 3 example_self = (Ok tt, self') /\
     _distance_squared_unit_to_unit self' = Some Bound_unit_to_unit_method2 /\
     calculate_distances self' = Some Bound_calculate_method3).
Proof.
  split; (split; [lia|]).
  - apply (strategy_selection example_libm 4 example_self). lia.
  - destruct (proj2 (strategy_selection example_libm 3 example_self) ltac:(lia))
      as (self' & Hsel & Hu & _ & Hc & _).
    exists self'. split; [exact Hsel|]. split; [exact Hu|].
    destruct (Hc ltac:(lia)) as (k & Hk & Hk' & _).
    cbv in Hk. inversion Hk; subst k. exact Hk'.
Defined.

(** ** The builds *)

Lemma rows2_length_le n :
  forall flat, (length flat <= n)%nat ->
               length (Np.rows2 flat) = Nat.div2 (length flat).
Proof.
  induction n as [|n IH]; intros flat Hn.
  - destruct flat; [reflexivity | simpl in Hn; lia].
  - destruct flat as [|x [|y rest]]; try reflexivity.
    simpl. f_equal. apply IH. simpl in Hn. lia.
Qed.

(** The rows of a flat array of even length are [N] exactly when the array
    has [2 * N] numbers. *)
Lemma rows2_len flat N :
  Z.even (Np.len flat) = true ->
  (Np.len (Np.rows2 flat) = N <-> Np.len flat = 2 * N).
Proof.
  unfold Np.len. intros Heven.
  rewrite (rows2_length_le (length flat) flat (le_n _)).
  apply Z.even_spec in Heven. destruct Heven as [k Hk].
  assert (Hnat : length flat = (2 * Z.to_nat k)%nat) by lia.
  rewrite Hnat, Nat.div2_double. lia.
Qed.

(** A build with the read left open, in a running game: the frame is
    stamped, and the rest of the build runs on what the read hands back. *)
Lemma _calculate_distances_method1_reading_eq read self g positions_array :
  state self = Some g ->
  read (set_generated_frame2 (game_loop g) self) = Ok positions_array ->
  _calculate_distances_method1_reading read self =
    _calculate_distances_method1_store positions_array
      (set_generated_frame2 (game_loop g) self).
Proof.
  intros Hg Hread. unfold _calculate_distances_method1_reading.
  unfold bind at 1. unfold eval at 1. unfold state_game_loop. rewrite Hg.
  unfold bind at 1. unfold assign at 1.
  unfold bind at 1. unfold eval at 1. now rewrite Hread.
Qed.

Lemma _calculate_distances_method2_reading_eq read self g positions_array :
  state self = Some g ->
  read (set_generated_frame2 (game_loop g) self) = Ok positions_array ->
  _calculate_distances_method2_reading read self =
    _calculate_distances_method2_store positions_array
      (set_generated_frame2 (game_loop g) self).
Proof.
  intros Hg Hread. unfold _calculate_distances_method2_reading.
  unfold bind at 1. unfold eval at 1. unfold state_game_loop. rewrite Hg.
  unfold bind at 1. unfold assign at 1.
  unfold bind at 1. unfold eval at 1. now rewrite Hread.
Qed.

Lemma _calculate_distances_method3_reading_eq read self g positions_array :
  state self = Some g ->
  read (set_generated_frame2 (game_loop g) self) = Ok positions_array ->
  _calculate_distances_method3_reading read self =
    _calculate_distances_method3_store positions_array
      (set_generated_frame2 (game_loop g) self).
Proof.
  intros Hg Hread. unfold _calculate_distances_method3_reading.
  unfold bind at 1. unfold eval at 1. unfold state_game_loop. rewrite Hg.
  unfold bind at 1. unfold assign at 1.
  unfold bind at 1. unfold eval at 1. now rewrite Hread.
Qed.

(** C7. Each build stamps the frame, reads the array of the positions and
    runs on it; builds 1 and 2 assert that the array has [N] rows of two,
    which for a flat array is to have exactly [2 * N] numbers, and build 3
    asserts nothing. Whatever array the read hands back in a running game:
    with a number of rows other than [N], builds 1 and 2 raise the assertion
    error, with the frame stamped and neither cache written, and build 3
    caches and returns the matrix of that array; with [N] rows all three
    cache and return the distances of the array. In the builds themselves
    the array is read with [count = 2 * N], has [N] rows, and the assertion
    passes. *)
Theorem position_count_assertion self g :
  state self = Some g ->
  let N := _units_count self in
  let stamped := set_generated_frame2 (game_loop g) self in
  (_calculate_distances_method1 = _calculate_distances_method1_reading read_positions_n_2 /\
   _calculate_distances_method2 = _calculate_distances_method2_reading read_positions_n_2 /\
   _calculate_distances_method3 = _calculate_distances_method3_reading read_positions_any_2)
  /\
  (forall flat, Z.even (Np.len flat) = true ->
     (Np.len (Np.rows2 flat) = N <-> Np.len flat = 2 * N))
  /\
  (forall read positions_array,
     read stamped = Ok positions_array -> Np.len positions_array <> N ->
     _calculate_distances_method1_reading read self =
       (Raise (AssertionError NoMessage), stamped) /\
     _calculate_distances_method2_reading read self =
       (Raise (AssertionError NoMessage), stamped) /\
     _calculate_distances_method3_reading read self =
       (Ok (VMat (Scipy.cdist positions_array positions_array)),
        set_cached_cdist (Scipy.cdist positions_array positions_array) stamped))
  /\
  (forall read positions_array,
     read stamped = Ok positions_array -> Np.len positions_array = N ->
     _calculate_distances_method1_reading read self =
       (Ok (VVec (Scipy.pdist positions_array)),
        set_cached_pdist (Scipy.pdist positions_array) stamped) /\
     _calculate_distances_method2_reading read self =
       (Ok (VMat (Scipy.cdist positions_array positions_array)),
        set_cached_cdist (Scipy.cdist positions_array positions_array) stamped) /\
     _calculate_distances_method3_reading read self =
       (Ok (VMat (Scipy.cdist positions_array positions_array)),
        set_cached_cdist (Scipy.cdist positions_array positions_array) stamped))
  /\
  (Np.fromiter (flat_positions stamped) (2 * N) = Ok (flat_positions self) /\
   Np.len (flat_positions self) = 2 * N /\
   read_positions_n_2 stamped = Ok (positions self) /\
   read_positions_any_2 stamped = Ok (positions self) /\
   Np.len (positions self) = N /\
   _calculate_distances_method1 self =
     (Ok (VVec (Scipy.pdist (positions self))),
      set_cached_pdist (Scipy.pdist (positions self)) stamped) /\
   _calculate_distances_method2 self =
     (Ok (VMat (Scipy.cdist (positions self) (positions self))),
      set_cached_cdist (Scipy.cdist (positions self) (positions self)) stamped) /\
   _calculate_distances_method3 self =
     (Ok (VMat (Scipy.cdist (positions self) (positions self))),
      set_cached_cdist (Scipy.cdist (positions self) (positions self)) stamped)).
Proof.
  intros Hg N stamped.
  assert (Hrun : forall read positions_array,
            read stamped = Ok positions_array ->
            _calculate_distances_method1_reading read self =
              _calculate_distances_method1_store positions_array stamped /\
            _calculate_distances_method2_reading read self =
              _calculate_distances_method2_store positions_array stamped /\
            _calculate_distances_method3_reading read self =
              _calculate_distances_method3_store positions_array stamped).
  { intros read pa Hread. repeat split.
    - exact (_calculate_distances_method1_reading_eq read self g pa Hg Hread).
    - exact (_calculate_distances_method2_reading_eq read self g pa Hg Hread).
    - exact (_calculate_distances_method3_reading_eq read self g pa Hg Hread). }
  split; [|split; [|split; [|split]]].
  - repeat split.
  - intros flat. apply rows2_len.
  - intros read pa Hread Hne. apply Z.eqb_neq in Hne.
    destruct (Hrun read pa Hread) as (-> & -> & ->).
    unfold _calculate_distances_method1_store, _calculate_distances_method2_store,
      _calculate_distances_method3_store, bind, eval, assign, assert_.
    change (_units_count stamped) with N. rewrite Hne. repeat split.
  - intros read pa Hread Heq. apply Z.eqb_eq in Heq.
    destruct (Hrun read pa Hread) as (-> & -> & ->).
    unfold _calculate_distances_method1_store, _calculate_distances_method2_store,
      _calculate_distances_method3_store, bind, eval, assign, assert_.
    change (_units_count stamped) with N. rewrite Heq. repeat split.
  - split; [apply (fromiter_flat_positions self)|].
    split; [apply flat_positions_length|].
    split; [apply (positions_array_n_2 self)|].
    split; [apply (positions_array_any_2 self)|].
    split; [apply positions_len|].
    split; [apply (_calculate_distances_method1_eq self g Hg)|].
    split; [apply (_calculate_distances_method2_eq self g Hg)|].
    apply (_calculate_distances_method3_eq self g Hg).
Qed.

(** Three entities in frame 5, and a read that hands back two rows: builds 1
    and 2 raise the assertion error and cache nothing, build 3 caches the
    matrix of the two rows; the build as it is reads three rows and returns
    the three distances. *)
Lemma position_count_assertion_witness :
  let rows := [(F64.of_Z 0, F64.of_Z 0); (F64.of_Z 3, F64.of_Z 4)] in
  let read := fun _ : DistanceCalculation => Ok rows in
  state example_self = Some {| game_loop := 5 |} /\
  _units_count example_self = 3 /\
  _calculate_distances_method1_reading read example_self =
    (Raise (AssertionError NoMessage), set_generated_frame2 5 example_self) /\
  _calculate_distances_method2_reading read example_self =
    (Raise (AssertionError NoMessage), set_generated_frame2 5 example_self) /\
  fst (_calculate_distances_method3_reading read example_self) =
    Ok (VMat [[F64.of_Z 0; F64.of_Z 25]; [F64.of_Z 25; F64.of_Z 0]]) /\
  fst (_calculate_distances_method1 example_self) =
    Ok (VVec [F64.of_Z 25; F64.of_Z 16; F64.of_Z 9]).
Proof.
  intros rows read.
  destruct (position_count_assertion example_self {| game_loop := 5 |} eq_refl)
    as (_ & _ & Hfail & _ & (_ & _ & _ & _ & _ & Hbuild & _)).
  assert (Hne : Np.len rows <> _units_count example_self) by (vm_compute; discriminate).
  destruct (Hfail read rows eq_refl Hne) as (H1 & H2 & H3).
  split; [reflexivity|]. split; [reflexivity|].
  split; [exact H1|]. split; [exact H2|].
  split; [rewrite H3; reflexivity|].
  rewrite Hbuild. reflexivity.
Defined.

(** ** Float arithmetic the strategies rely on *)

Lemma F64_sub_diag x : F64.is_finite x = true -> F64.sub x x = F64.zero.
Proof.
  destruct x as [s|s| |s m e]; simpl; intros Hfin; try discriminate.
  - now destruct s.
  - unfold F64.sub, SFsub. rewrite Z.sub_diag. reflexivity.
Qed.

(** A square is never [-0.0], so adding it to [0.0] gives it back. *)
Lemma F64_add_zero_square x : F64.add F64.zero (F64.mul x x) = F64.mul x x.
Proof.
  destruct x as [s|s| |s m e]; try (now destruct s); try reflexivity.
  unfold F64.mul, SFmul, binary_round_aux.
  destruct (shr_fexp _ _ _ _ _) as [mrs' e'].
  destruct (shr_fexp _ _ _ _ _) as [mrs'' e''].
  rewrite xorb_nilpotent.
  destruct (shr_m mrs''); try reflexivity.
  now destruct (_ <=? _).
Qed.

Lemma sqeuclidean_diag p : finite_position p -> Scipy.sqeuclidean p p = F64.zero.
Proof.
  intros [H1 H2]. unfold Scipy.sqeuclidean.
  rewrite !F64_sub_diag by assumption. reflexivity.
Qed.

Lemma hypot_squared_diag libm p :
  finite_position p -> distance_math_hypot_squared libm p p = Ok F64.zero.
Proof.
  intros [H1 H2]. unfold distance_math_hypot_squared.
  rewrite !F64_sub_diag by assumption. reflexivity.
Qed.

(** ** Lookups in the cached structures *)

Lemma item_nth_error {A} (a : list A) k x :
  0 <= k -> nth_error a (Z.to_nat k) = Some x -> Np.item a k = Ok x.
Proof.
  intros Hk Hx. unfold Np.item, Np.axis_index, Np.len.
  assert (Hlt : (Z.to_nat k < length a)%nat) by (apply nth_error_Some; congruence).
  replace (0 <=? k) with true by (symmetry; apply Z.leb_le; lia).
  replace (k <? Z.of_nat (length a)) with true by (symmetry; apply Z.ltb_lt; lia).
  simpl. now rewrite Hx.
Qed.

Lemma cdist_getitem2 X i j u v :
  0 <= i -> 0 <= j ->
  nth_error X (Z.to_nat i) = Some u -> nth_error X (Z.to_nat j) = Some v ->
  Np.getitem2 (VMat (Scipy.cdist X X)) i j = Ok (VFloat (Scipy.sqeuclidean u v)).
Proof.
  intros Hi Hj Hu Hv. unfold Np.getitem2, Scipy.cdist.
  rewrite (item_nth_error _ i (map (Scipy.sqeuclidean u) X)); [|assumption|].
  - cbn [rbind].
    rewrite (item_nth_error _ j (Scipy.sqeuclidean u v)); [reflexivity|assumption|].
    now rewrite nth_error_map, Hv.
  - now rewrite nth_error_map, Hu.
Qed.

Lemma positions_nth_error self n unit :
  nth_error (all_units self) n = Some unit ->
  nth_error (positions self) n = Some (position_tuple unit).
Proof. intros H. unfold positions. now rewrite nth_error_map, H. Qed.

(** In a square session [_cdist] returns the matrix of the current entity
    set, from the cache or from a build, and the session goes on. *)
Lemma square_session_cdist self :
  square_session self ->
  exists self',
    _cdist self = (Ok (VMat (Scipy.cdist (positions self) (positions self))), self') /\
    all_units self' = all_units self /\
    square_session self'.
Proof.
  intros (g & Hg & Hk & Hcache).
  destruct (Z.eq_dec (_generated_frame2 self) (game_loop g)) as [Hf|Hf].
  - exists self. rewrite (_cdist_fresh self g Hg Hf), (Hcache Hf).
    split; [reflexivity|]. split; [reflexivity|].
    exists g. auto.
  - rewrite (_cdist_stale self g Hg Hf).
    destruct Hk as [Hk|Hk];
      rewrite (call_calculate_distances_eq self g _ Hg Hk);
      (eexists; split; [reflexivity|]); (split; [reflexivity|]);
      exists g; repeat split; auto.
Qed.

(** A selection of strategy 2 or 3 on an object whose counter is not the
    current frame, as on a new object, starts a square session. *)
Lemma square_session_start method self g :
  method = 2 \/ method = 3 ->
  state self = Some g -> _generated_frame2 self <> game_loop g ->
  square_session (snd (_distances_override_functions method self)).
Proof.
  intros [-> | ->] Hg Hf; exists g; simpl; repeat split; auto;
    intros Hf'; contradiction.
Qed.

(** The strategy-2 lookup in a square session, on entities that stand at
    their indices. *)
Lemma square_session_lookup self unit1 unit2 :
  square_session self -> indexed self unit1 -> indexed self unit2 ->
  exists self',
    _distance_squared_unit_to_unit_method2 unit1 unit2 self =
      (Ok (VFloat (Scipy.sqeuclidean (position_tuple unit1) (position_tuple unit2))), self') /\
    all_units self' = all_units self /\
    square_session self'.
Proof.
  intros Hs [Hi1 Hn1] [Hi2 Hn2].
  destruct (square_session_cdist self Hs) as (self' & Hc & Hu & Hs').
  exists self'. split; [|auto].
  unfold _distance_squared_unit_to_unit_method2, bind, eval.
  rewrite Hc.
  rewrite (cdist_getitem2 _ _ _ (position_tuple unit1) (position_tuple unit2));
    auto using positions_nth_error.
Qed.

(** ** Rounding, on the integers *)

Lemma cexp_ge n : 1074 <= cexp n.
Proof. unfold cexp. lia. Qed.

Lemma cexp_nonneg n : 0 <= cexp n.
Proof. pose proof (cexp_ge n). lia. Qed.

Lemma pow_cexp_pos n : 0 < 2 ^ cexp n.
Proof. apply Z.pow_pos_nonneg; [lia | apply cexp_nonneg]. Qed.

Lemma cexp_mono n n' : n <= n' -> cexp n <= cexp n'.
Proof.
  intros H. unfold cexp. pose proof (Z.log2_le_mono n n' H). lia.
Qed.

(** Below [2 ^ (cexp n + 53)]. *)
Lemma lt_pow_cexp n : 0 <= n -> n < 2 ^ (cexp n + 53).
Proof.
  intros Hn. destruct (Z.eq_dec n 0) as [->|Hne].
  - apply Z.pow_pos_nonneg; [lia | pose proof (cexp_ge 0); lia].
  - pose proof (Z.log2_spec n ltac:(lia)) as [_ H].
    eapply Z.lt_le_trans; [exact H|].
    apply Z.pow_le_mono_r; [lia|]. unfold cexp. lia.
Qed.

(** In the normal range the leading bit is set. *)
Lemma ge_pow_cexp n : 0 <= n -> 1074 < cexp n -> 2 ^ (cexp n + 52) <= n.
Proof.
  intros Hn Hc. unfold cexp in *.
  assert (Hlog : Z.log2 n + 1 - 53 > 1074) by lia.
  assert (0 < n).
  { destruct (Z.eq_dec n 0) as [->|]; [simpl in Hlog; lia | lia]. }
  pose proof (Z.log2_spec n ltac:(lia)) as [Hlo _].
  replace (Z.max (Z.log2 n + 1 - 53) 1074 + 52) with (Z.log2 n) by lia.
  exact Hlo.
Qed.

Lemma quotient_lt n : 0 <= n -> n / 2 ^ cexp n < 2 ^ 53.
Proof.
  intros Hn. apply Z.div_lt_upper_bound; [apply pow_cexp_pos|].
  rewrite <- Z.pow_add_r by (pose proof (cexp_ge n); lia).
  apply lt_pow_cexp, Hn.
Qed.

Lemma quotient_ge n : 0 <= n -> 1074 < cexp n -> 2 ^ 52 <= n / 2 ^ cexp n.
Proof.
  intros Hn Hc. apply Z.div_le_lower_bound; [apply pow_cexp_pos|].
  rewrite <- Z.pow_add_r by (pose proof (cexp_ge n); lia).
  apply ge_pow_cexp; assumption.
Qed.

Lemma quotient_nonneg n : 0 <= n -> 0 <= n / 2 ^ cexp n.
Proof. intros. apply Z.div_pos; [assumption | apply pow_cexp_pos]. Qed.

Lemma floor_ordinal_mono n n' : 0 <= n -> n <= n' -> floor_ordinal n <= floor_ordinal n'.
Proof.
  intros Hn Hle. unfold floor_ordinal.
  pose proof (cexp_mono n n' Hle) as Hc.
  destruct (Z.eq_dec (cexp n) (cexp n')) as [He|Hne].
  - rewrite He.
    pose proof (Z.div_le_mono n n' (2 ^ cexp n') (pow_cexp_pos n') Hle). lia.
  - pose proof (quotient_lt n Hn).
    pose proof (quotient_ge n' ltac:(lia) ltac:(pose proof (cexp_ge n); lia)).
    assert (cexp n + 1 <= cexp n') by lia.
    nia.
Qed.

Lemma floor_ordinal_step n delta :
  0 <= n -> 0 <= delta <= 2 ^ cexp n ->
  floor_ordinal (n + delta) <= floor_ordinal n + 1.
Proof.
  intros Hn Hd. unfold floor_ordinal.
  assert (Hc : cexp n <= cexp (n + delta)) by (apply cexp_mono; lia).
  assert (Hcge : 1074 <= cexp n) by apply cexp_ge.
  assert (Hp : 0 < 2 ^ cexp n) by apply pow_cexp_pos.
  pose proof (Z.mod_pos_bound n (2 ^ cexp n) Hp) as Hr.
  pose proof (Z.div_mod n (2 ^ cexp n) ltac:(lia)) as Hdm.
  pose proof (quotient_lt n Hn) as Hqlt.
  pose proof (lt_pow_cexp n Hn) as Hnlt.
  assert (Hn' : 0 <= n + delta) by lia.
  pose proof (quotient_nonneg n Hn) as Hq0.
  revert Hc Hcge Hp Hr Hdm Hqlt Hnlt Hd.
  generalize (cexp n). intros c Hc Hcge Hp Hr Hdm Hqlt Hnlt Hd.
  assert (Hpow : 2 ^ (c + 53) = 2 ^ 53 * 2 ^ c) by (rewrite Z.pow_add_r by lia; lia).
  rewrite Hpow in Hnlt.
  revert Hq0 Hr Hdm Hqlt. generalize (n / 2 ^ c) (n mod 2 ^ c). intros q r Hq0 Hr Hdm Hqlt.
  destruct (Z.eq_dec c (cexp (n + delta))) as [He|Hne].
  - rewrite <- He.
    assert ((n + delta) / 2 ^ c < q + 2)
      by (apply Z.div_lt_upper_bound; [exact Hp | nia]).
    lia.
  - assert (Hlt : c < cexp (n + delta)) by lia.
    pose proof (ge_pow_cexp (n + delta) Hn' ltac:(lia)) as Hge.
    revert Hlt Hge Hc Hne. generalize (cexp (n + delta)). intros c' Hlt Hge Hc Hne.
    assert (Hc'1 : c' = c + 1).
    { destruct (Z.eq_dec c' (c + 1)) as [|Hne']; [assumption|exfalso].
      assert (c + 2 <= c') by lia.
      assert (2 ^ (c + 54) <= 2 ^ (c' + 52)) by (apply Z.pow_le_mono_r; lia).
      assert (2 ^ (c + 54) = 2 * (2 ^ 53 * 2 ^ c)).
      { replace (c + 54) with (1 + (c + 53)) by lia.
        rewrite Z.pow_add_r by lia. rewrite Hpow. lia. }
      nia. }
    subst c'.
    replace (c + 1 + 52) with (c + 53) in Hge by lia. rewrite Hpow in Hge.
    assert (Hpow1 : 2 ^ (c + 1) = 2 * 2 ^ c) by (rewrite Z.pow_add_r by lia; lia).
    rewrite Hpow1.
    assert (Hq : 2 ^ 53 - 1 <= q) by nia.
    assert (Hq' : (n + delta) / (2 * 2 ^ c) < 2 ^ 52 + 1).
    { apply Z.div_lt_upper_bound; [lia|]. nia. }
    lia.
Qed.

Lemma round_down_bounds n :
  0 <= n -> 0 <= round_down n <= n /\ n < round_down n + 2 ^ cexp n.
Proof.
  intros Hn. unfold round_down.
  pose proof (pow_cexp_pos n) as Hp.
  pose proof (Z.mod_pos_bound n (2 ^ cexp n) Hp) as Hr.
  pose proof (Z.div_mod n (2 ^ cexp n) ltac:(lia)) as Hdm.
  pose proof (quotient_nonneg n Hn) as Hq.
  revert Hp Hr Hdm Hq.
  generalize (2 ^ cexp n) (n / 2 ^ cexp n) (n mod 2 ^ cexp n). intros P q r Hp Hr Hdm Hq.
  nia.
Qed.

Lemma cexp_round_down n : 0 <= n -> cexp (round_down n) = cexp n.
Proof.
  intros Hn. pose proof (round_down_bounds n Hn) as [[H0 Hle] _].
  apply Z.le_antisymm; [apply cexp_mono, Hle|].
  destruct (Z.eq_dec (cexp n) 1074) as [He|Hne].
  - rewrite He. apply cexp_ge.
  - pose proof (cexp_ge n).
    pose proof (quotient_ge n Hn ltac:(lia)) as Hq.
    assert (Hpow : 2 ^ (cexp n + 52) <= round_down n).
    { unfold round_down. rewrite Z.pow_add_r by lia.
      pose proof (pow_cexp_pos n). nia. }
    assert (Hpos : 0 < round_down n).
    { eapply Z.lt_le_trans; [|exact Hpow]. apply Z.pow_pos_nonneg; lia. }
    apply Z.log2_le_pow2 in Hpow; [|exact Hpos].
    unfold cexp at 2. lia.
Qed.

Lemma floor_ordinal_round_down n : 0 <= n -> floor_ordinal (round_down n) = floor_ordinal n.
Proof.
  intros Hn. unfold floor_ordinal. rewrite (cexp_round_down n Hn).
  unfold round_down. rewrite Z.div_mul; [reflexivity|].
  pose proof (pow_cexp_pos n). lia.
Qed.

Lemma rounds_bounds n r :
  0 <= n -> rounds n r ->
  0 <= round_down n <= r /\ r <= round_down n + 2 ^ cexp n.
Proof.
  intros Hn Hr. pose proof (round_down_bounds n Hn). pose proof (pow_cexp_pos n).
  destruct Hr; lia.
Qed.

Lemma rounds_floor_ordinal n r :
  0 <= n -> rounds n r ->
  floor_ordinal n <= floor_ordinal r <= floor_ordinal n + 1.
Proof.
  intros Hn Hr. pose proof (round_down_bounds n Hn) as [[H0 Hle] Hlt].
  rewrite <- (floor_ordinal_round_down n Hn).
  destruct Hr as [->| ->]; [lia|]. split.
  - apply floor_ordinal_mono; [assumption|]. pose proof (pow_cexp_pos n). lia.
  - apply floor_ordinal_step; [assumption|].
    rewrite (cexp_round_down n Hn). pose proof (pow_cexp_pos n). lia.
Qed.

Lemma representable_round_down n : 0 <= n -> representable (round_down n).
Proof.
  intros Hn. unfold representable. rewrite (cexp_round_down n Hn).
  unfold round_down. apply Z.mod_mul. pose proof (pow_cexp_pos n). lia.
Qed.

Lemma rounds_representable n r : 0 <= n -> rounds n r -> representable r.
Proof.
  intros Hn [->| ->]; [now apply representable_round_down|].
  pose proof (round_down_bounds n Hn) as [[H0 Hle] Hlt].
  pose proof (cexp_ge n) as Hge. pose proof (pow_cexp_pos n) as Hp.
  pose proof (quotient_lt n Hn) as Hq. pose proof (quotient_nonneg n Hn) as Hq0.
  set (r := round_down n + 2 ^ cexp n).
  assert (Hr : r = (n / 2 ^ cexp n + 1) * 2 ^ cexp n) by (unfold r, round_down; lia).
  assert (Hc : cexp n <= cexp r) by (apply cexp_mono; unfold r; lia).
  assert (Hpow : 2 ^ (cexp n + 53) = 2 ^ 53 * 2 ^ cexp n)
    by (rewrite Z.pow_add_r by lia; lia).
  unfold representable.
  destruct (Z.eq_dec (cexp r) (cexp n)) as [He|Hne].
  - rewrite He, Hr. apply Z.mod_mul. lia.
  - pose proof (ge_pow_cexp r ltac:(unfold r; lia) ltac:(lia)) as Hbig.
    assert (Hle2 : r <= 2 ^ (cexp n + 53)) by (rewrite Hpow, Hr; nia).
    assert (Hc1 : cexp r = cexp n + 1).
    { destruct (Z.le_gt_cases (cexp r) (cexp n + 1)); [lia|exfalso].
      assert (2 ^ (cexp n + 54) <= 2 ^ (cexp r + 52)) by (apply Z.pow_le_mono_r; lia).
      assert (2 ^ (cexp n + 54) = 2 * 2 ^ (cexp n + 53)).
      { replace (cexp n + 54) with (1 + (cexp n + 53)) by lia.
        rewrite Z.pow_add_r by lia. lia. }
      assert (0 < 2 ^ (cexp n + 53)) by (apply Z.pow_pos_nonneg; lia).
      lia. }
    rewrite Hc1 in Hbig |- *.
    replace (cexp n + 1 + 52) with (cexp n + 53) in Hbig by lia.
    assert (Hreq : r = 2 ^ 52 * 2 ^ (cexp n + 1)).
    { rewrite (Z.pow_add_r 2 (cexp n) 1) by lia. lia. }
    rewrite Hreq. apply Z.mod_mul.
    assert (0 < 2 ^ (cexp n + 1)) by (apply Z.pow_pos_nonneg; lia). lia.
Qed.

Lemma round_down_representable n : 0 <= n -> representable n -> round_down n = n.
Proof.
  intros Hn Hrep. unfold representable in Hrep. unfold round_down.
  pose proof (pow_cexp_pos n) as Hp.
  pose proof (Z.div_mod n (2 ^ cexp n) ltac:(lia)) as Hdm.
  rewrite Hrep, Z.add_0_r in Hdm. rewrite Z.mul_comm. symmetry. exact Hdm.
Qed.

Lemma rounds_nearest_rounds n r : rounds_nearest n r -> rounds n r.
Proof. intros [[-> _]|[-> _]]; [now left | now right]. Qed.

(** The float after a float is one further. *)
Lemma floor_ordinal_next n :
  0 <= n -> floor_ordinal (round_down n + 2 ^ cexp n) = floor_ordinal n + 1.
Proof.
  intros Hn. apply Z.le_antisymm.
  - pose proof (round_down_bounds n Hn) as [[H0 _] _].
    pose proof (pow_cexp_pos n) as Hp.
    pose proof (floor_ordinal_step (round_down n) (2 ^ cexp n) H0) as Hstep.
    rewrite (cexp_round_down n Hn), (floor_ordinal_round_down n Hn) in Hstep.
    apply Hstep. lia.
  - pose proof (round_down_bounds n Hn) as [[H0 Hle] Hlt].
    pose proof (pow_cexp_pos n) as Hp. pose proof (cexp_ge n) as Hge.
    pose proof (quotient_lt n Hn) as Hq. pose proof (quotient_nonneg n Hn) as Hq0.
    set (r := round_down n + 2 ^ cexp n).
    assert (Hr : r = (n / 2 ^ cexp n + 1) * 2 ^ cexp n) by (unfold r, round_down; lia).
    assert (Hc : cexp n <= cexp r) by (apply cexp_mono; unfold r; lia).
    unfold floor_ordinal.
    destruct (Z.eq_dec (cexp r) (cexp n)) as [He|Hne].
    + rewrite He. rewrite Hr at 1. rewrite Z.div_mul by lia. lia.
    + pose proof (quotient_ge r ltac:(unfold r; lia) ltac:(lia)) as Hbig.
      nia.
Qed.

(** Between a float and the next, the float below is that float. *)
Lemma floor_ordinal_between y x :
  0 <= y -> representable y -> y <= x < y + 2 ^ cexp y ->
  floor_ordinal x = floor_ordinal y.
Proof.
  intros Hy Hrep [Hle Hlt].
  pose proof (pow_cexp_pos y) as Hp. pose proof (cexp_ge y) as Hge.
  pose proof (round_down_representable y Hy Hrep) as Hrd.
  assert (Hc : cexp x = cexp y).
  { apply Z.le_antisymm; [|now apply cexp_mono].
    destruct (Z.le_gt_cases (cexp x) (cexp y)) as [|Hgt]; [assumption|exfalso].
    pose proof (ge_pow_cexp x ltac:(lia) ltac:(lia)) as Hbig.
    pose proof (quotient_lt y Hy) as Hq.
    assert (2 ^ (cexp y + 53) <= 2 ^ (cexp x + 52)) by (apply Z.pow_le_mono_r; lia).
    assert (Hpow : 2 ^ (cexp y + 53) = 2 ^ 53 * 2 ^ cexp y)
      by (rewrite Z.pow_add_r by lia; lia).
    unfold round_down in Hrd. nia. }
  unfold floor_ordinal. rewrite Hc. f_equal.
  unfold round_down in Hrd.
  symmetry. apply Z.div_unique with (r := x - y + y mod 2 ^ cexp y).
  - unfold representable in Hrep. rewrite Hrep. left. lia.
  - unfold representable in Hrep. rewrite Hrep. lia.
Qed.

Lemma rounds_multiple n r : 0 <= n -> rounds n r -> r mod 2 ^ cexp n = 0.
Proof.
  intros Hn Hr. pose proof (pow_cexp_pos n) as Hp.
  destruct Hr as [->| ->]; unfold round_down.
  - apply Z.mod_mul. lia.
  - replace (n / 2 ^ cexp n * 2 ^ cexp n + 2 ^ cexp n)
      with ((n / 2 ^ cexp n + 1) * 2 ^ cexp n) by lia.
    apply Z.mod_mul. lia.
Qed.

Lemma representable_le_round_down y x :
  0 <= y -> representable y -> y <= x -> y <= round_down x.
Proof.
  intros Hy Hrep Hle.
  assert (Hx : 0 <= x) by lia.
  pose proof (cexp_mono y x Hle) as Hc.
  pose proof (pow_cexp_pos x) as Hp. pose proof (cexp_ge y) as Hge.
  destruct (Z.eq_dec (cexp y) (cexp x)) as [He|Hne].
  - unfold representable in Hrep. rewrite He in Hrep.
    pose proof (Z.div_mod y (2 ^ cexp x) ltac:(lia)) as Hdm. rewrite Hrep in Hdm.
    pose proof (Z.div_le_mono y x (2 ^ cexp x) Hp Hle) as Hq.
    unfold round_down. nia.
  - pose proof (quotient_ge x Hx ltac:(lia)) as Hq.
    pose proof (lt_pow_cexp y Hy) as Hlt.
    assert (2 ^ (cexp y + 53) <= 2 ^ (cexp x + 52)) by (apply Z.pow_le_mono_r; lia).
    assert (2 ^ (cexp x + 52) = 2 ^ 52 * 2 ^ cexp x)
      by (rewrite Z.pow_add_r by lia; lia).
    unfold round_down. nia.
Qed.

Lemma rounds_nearest_exists n : exists r, rounds_nearest n r.
Proof.
  destruct (Z.le_gt_cases (2 * (n - round_down n)) (2 ^ cexp n)) as [H|H].
  - exists (round_down n). now left.
  - exists (round_down n + 2 ^ cexp n). right. split; [reflexivity | lia].
Qed.

(** The exact sum of two rounded squares lies within two floats of the sum
    of the squares rounded down. *)
Lemma sum_floor_ordinal x y a b :
  0 <= x -> 0 <= y -> rounds x a -> rounds y b ->
  floor_ordinal (round_down x + round_down y) <= floor_ordinal (a + b)
    <= floor_ordinal (round_down x + round_down y) + 2.
Proof.
  intros Hx Hy Ha Hb.
  pose proof (rounds_bounds x a Hx Ha) as [[Hx0 Hxa] Hax].
  pose proof (rounds_bounds y b Hy Hb) as [[Hy0 Hyb] Hby].
  set (l := round_down x + round_down y) in *.
  assert (Hl : 0 <= l) by (unfold l; lia).
  assert (Hcx : cexp x <= cexp l).
  { rewrite <- (cexp_round_down x Hx). apply cexp_mono. unfold l. lia. }
  assert (Hcy : cexp y <= cexp l).
  { rewrite <- (cexp_round_down y Hy). apply cexp_mono. unfold l. lia. }
  assert (Hpx : 2 ^ cexp x <= 2 ^ cexp l)
    by (apply Z.pow_le_mono_r; [lia | exact Hcx]).
  assert (Hpy : 2 ^ cexp y <= 2 ^ cexp l)
    by (apply Z.pow_le_mono_r; [lia | exact Hcy]).
  pose proof (pow_cexp_pos l) as Hpl.
  split.
  - apply floor_ordinal_mono; unfold l in *; lia.
  - pose proof (floor_ordinal_step l (2 ^ cexp l) Hl ltac:(lia)) as H1.
    assert (Hc2 : 2 ^ cexp l <= 2 ^ cexp (l + 2 ^ cexp l))
      by (apply Z.pow_le_mono_r; [lia | apply cexp_mono; lia]).
    pose proof (floor_ordinal_step (l + 2 ^ cexp l) (2 ^ cexp l) ltac:(lia) ltac:(lia)) as H2.
    assert (H3 : floor_ordinal (a + b) <= floor_ordinal (l + 2 ^ cexp l + 2 ^ cexp l))
      by (apply floor_ordinal_mono; unfold l in *; lia).
    lia.
Qed.

(** Rounded to nearest, the sum of two rounded squares moves by at most two
    floats when each square is rounded the other way. *)
Lemma nearest_sum_ordinal_upper x y a b a' b' d d' :
  0 <= x -> 0 <= y ->
  rounds x a -> rounds y b -> rounds x a' -> rounds y b' ->
  rounds_nearest (a + b) d -> rounds_nearest (a' + b') d' ->
  floor_ordinal d' <= floor_ordinal d + 2.
Proof.
  intros Hx Hy Ha Hb Ha' Hb' Hd Hd'.
  pose proof (rounds_bounds x a Hx Ha) as [[Hx0 Hxa] Hax].
  pose proof (rounds_bounds y b Hy Hb) as [[Hy0 Hyb] Hby].
  pose proof (rounds_bounds x a' Hx Ha') as [[_ Hxa'] Hax'].
  pose proof (rounds_bounds y b' Hy Hb') as [[_ Hyb'] Hby'].
  pose proof (sum_floor_ordinal x y a b Hx Hy Ha Hb) as [Hl1 Hl2].
  pose proof (sum_floor_ordinal x y a' b' Hx Hy Ha' Hb') as [Hl1' Hl2'].
  set (s := a + b) in *. set (s' := a' + b') in *.
  assert (Hs : 0 <= s) by (unfold s; lia).
  assert (Hs' : 0 <= s') by (unfold s'; lia).
  pose proof (rounds_floor_ordinal s' d' Hs' (rounds_nearest_rounds _ _ Hd')) as [_ Hup'].
  destruct Hd as [[-> Hhalf]|[-> Hhalf]].
  2:{ rewrite (floor_ordinal_next s Hs). lia. }
  rewrite (floor_ordinal_round_down s Hs).
  destruct Hd' as [[-> Hhalf']|[-> Hhalf']].
  { rewrite (floor_ordinal_round_down s' Hs'). lia. }
  rewrite (floor_ordinal_next s' Hs').
  destruct (Z.le_gt_cases (floor_ordinal s') (floor_ordinal s + 1)) as [|Hgt]; [lia|exfalso].
  (* the float after [s] and the one after that *)
  pose proof (round_down_bounds s Hs) as [[Hlo0 Hlo] Hlo'].
  pose proof (pow_cexp_pos s) as Hq.
  set (y1 := round_down s + 2 ^ cexp s) in *.
  assert (Hy1 : 0 <= y1) by (unfold y1; lia).
  assert (Hr1 : representable y1)
    by (apply (rounds_representable s y1 Hs); now right).
  pose proof (floor_ordinal_next s Hs) as Hf1. fold y1 in Hf1.
  pose proof (pow_cexp_pos y1) as Hq1.
  assert (Hc1 : 2 ^ cexp s <= 2 ^ cexp y1)
    by (apply Z.pow_le_mono_r; [lia | apply cexp_mono; unfold y1; lia]).
  set (y2 := y1 + 2 ^ cexp y1).
  assert (Hr2 : representable y2).
  { apply (rounds_representable y1 y2 Hy1). right.
    now rewrite (round_down_representable y1 Hy1 Hr1). }
  assert (Hs'2 : y2 <= s').
  { destruct (Z.le_gt_cases y2 s') as [|Hlt]; [assumption|exfalso].
    destruct (Z.le_gt_cases y1 s') as [Hge|Hlt1].
    - pose proof (floor_ordinal_between y1 s' Hy1 Hr1 ltac:(unfold y2 in Hlt; lia)). lia.
    - pose proof (floor_ordinal_mono s' y1 Hs' ltac:(lia)). lia. }
  pose proof (representable_le_round_down y2 s' ltac:(unfold y2; lia) Hr2 Hs'2) as Hrd'.
  assert (Hc' : 2 ^ cexp s <= 2 ^ cexp s')
    by (apply Z.pow_le_mono_r; [lia | apply cexp_mono; unfold y2, y1 in *; lia]).
  (* the two sums are at most two units of [s] apart *)
  assert (Hcx : 2 ^ cexp x <= 2 ^ cexp s).
  { apply Z.pow_le_mono_r; [lia|]. rewrite <- (cexp_round_down x Hx).
    apply cexp_mono. unfold s. lia. }
  assert (Hcy : 2 ^ cexp y <= 2 ^ cexp s).
  { apply Z.pow_le_mono_r; [lia|]. rewrite <- (cexp_round_down y Hy).
    apply cexp_mono. unfold s. lia. }
  assert (Hdiff : s' - s <= 2 ^ cexp x + 2 ^ cexp y) by (unfold s, s'; lia).
  assert (Hex : 2 ^ cexp x = 2 ^ cexp s) by (unfold y2, y1 in *; lia).
  assert (Hey : 2 ^ cexp y = 2 ^ cexp s) by (unfold y2, y1 in *; lia).
  pose proof (rounds_multiple x a Hx Ha) as Hma. rewrite Hex in Hma.
  pose proof (rounds_multiple y b Hy Hb) as Hmb. rewrite Hey in Hmb.
  assert (Hms : s mod 2 ^ cexp s = 0).
  { change (s mod 2 ^ cexp s) with ((a + b) mod 2 ^ cexp s).
    rewrite Z.add_mod by lia. rewrite Hma, Hmb. reflexivity. }
  pose proof (Z.div_mod s (2 ^ cexp s) ltac:(lia)) as Hdm. rewrite Hms in Hdm.
  unfold y2, y1, round_down in *. lia.
Qed.

Lemma nearest_sum_ordinal x y a b a' b' d d' :
  0 <= x -> 0 <= y ->
  rounds x a -> rounds y b -> rounds x a' -> rounds y b' ->
  rounds_nearest (a + b) d -> rounds_nearest (a' + b') d' ->
  Z.abs (floor_ordinal d' - floor_ordinal d) <= 2.
Proof.
  intros Hx Hy Ha Hb Ha' Hb' Hd Hd'.
  pose proof (nearest_sum_ordinal_upper x y a b a' b' d d' Hx Hy Ha Hb Ha' Hb' Hd Hd').
  pose proof (nearest_sum_ordinal_upper x y a' b' a b d' d Hx Hy Ha' Hb' Ha Hb Hd' Hd).
  lia.
Qed.

(** ** Rounding of floats *)

Lemma one_up_nearest_even : one_up round_nearest_even.
Proof.
  intros q l. unfold round_nearest_even.
  destruct l as [|[]]; try destruct (Z.even q); lia.
Qed.

Lemma one_up_faithful up : one_up (PyMath.round_faithful up).
Proof.
  intros q l. unfold PyMath.round_faithful. destruct l; [|destruct up]; lia.
Qed.

Lemma digits2_pos_log2 p : Zpos (digits2_pos p) = Z.log2 (Zpos p) + 1.
Proof.
  induction p as [p IH|p IH|]; simpl digits2_pos; try reflexivity;
    rewrite Pos2Z.inj_succ, IH.
  - change (Zpos p~1) with (2 * Zpos p + 1).
    rewrite Z.log2_succ_double by lia. lia.
  - change (Zpos p~0) with (2 * Zpos p).
    rewrite Z.log2_double by lia. lia.
Qed.

Lemma fexp_eq e : fexp F64.prec F64.emax e = Z.max (e - 53) (-1074).
Proof. reflexivity. Qed.

Lemma shr_1_m mrs : 0 <= shr_m mrs -> shr_m (shr_1 mrs) = shr_m mrs / 2.
Proof.
  destruct mrs as [m r s]. simpl. intros Hm.
  destruct m as [|p|p]; try lia; [reflexivity|].
  destruct p as [p|p|]; simpl shr_m.
  - change (Zpos p~1) with (2 * Zpos p + 1).
    apply Z.div_unique with (r := 1); lia.
  - change (Zpos p~0) with (2 * Zpos p).
    apply Z.div_unique with (r := 0); lia.
  - reflexivity.
Qed.

Lemma shr_1_m_nonneg mrs : 0 <= shr_m mrs -> 0 <= shr_m (shr_1 mrs).
Proof.
  intros H. rewrite shr_1_m by assumption. apply Z.div_pos; lia.
Qed.

Lemma iter_pos_shr_1_m p :
  forall mrs, 0 <= shr_m mrs ->
              0 <= shr_m (iter_pos shr_1 p mrs) /\
              shr_m (iter_pos shr_1 p mrs) = shr_m mrs / 2 ^ Zpos p.
Proof.
  induction p as [p IH|p IH|]; intros mrs Hm; simpl iter_pos.
  - pose proof (shr_1_m_nonneg mrs Hm) as H1.
    destruct (IH _ H1) as [H2 E2]. destruct (IH _ H2) as [H3 E3].
    split; [exact H3|]. rewrite E3, E2, shr_1_m by assumption.
    rewrite !Z.div_div by (try apply Z.pow_pos_nonneg; lia).
    f_equal. replace (Zpos p~1) with (1 + (Zpos p + Zpos p)) by lia.
    rewrite !Z.pow_add_r by lia. lia.
  - destruct (IH _ Hm) as [H2 E2]. destruct (IH _ H2) as [H3 E3].
    split; [exact H3|]. rewrite E3, E2.
    rewrite !Z.div_div by (try apply Z.pow_pos_nonneg; lia).
    f_equal. replace (Zpos p~0) with (Zpos p + Zpos p) by lia.
    rewrite !Z.pow_add_r by lia. lia.
  - split; [now apply shr_1_m_nonneg|]. now rewrite shr_1_m.
Qed.

(** Shifting [m] right by [n >= 0] places. *)
Lemma shr_m_spec m l e n :
  0 <= m -> 0 <= n ->
  shr_m (fst (shr (shr_record_of_loc m l) e n)) = m / 2 ^ n /\
  snd (shr (shr_record_of_loc m l) e n) = e + n.
Proof.
  intros Hm Hn.
  assert (H0 : shr_m (shr_record_of_loc m l) = m) by (destruct l as [|[]]; reflexivity).
  unfold shr. destruct n as [|p|p]; try lia; cbn [fst snd].
  - rewrite H0, Z.div_1_r. split; [reflexivity | lia].
  - destruct (iter_pos_shr_1_m p (shr_record_of_loc m l) ltac:(lia)) as [_ E].
    rewrite E, H0. split; reflexivity.
Qed.

Lemma shr_nonpos mrs e n : n <= 0 -> shr mrs e n = (mrs, e).
Proof. intros Hn. destruct n; try reflexivity; lia. Qed.

Lemma cexp_mul_pow2 q c :
  0 < q -> 0 <= c -> cexp (q * 2 ^ c) = Z.max (Z.log2 q + c - 52) 1074.
Proof.
  intros Hq Hc. unfold cexp. rewrite Z.log2_mul_pow2 by assumption. lia.
Qed.

Lemma to_float_canonical s q c :
  1074 <= c -> 0 < q < 2 ^ 53 -> c = 1074 \/ 2 ^ 52 <= q ->
  to_float s (q * 2 ^ c) =
    if c - 2148 <=? 971 then S754_finite s (Z.to_pos q) (c - 2148) else S754_infinity s.
Proof.
  intros Hc [Hq0 Hq] Hn.
  assert (Hlog : Z.log2 q <= 52).
  { apply Z.lt_succ_r. apply Z.log2_lt_pow2; [assumption|]. exact Hq. }
  assert (Hce : cexp (q * 2 ^ c) = c).
  { rewrite cexp_mul_pow2 by lia. destruct Hn as [->|Hn]; [lia|].
    apply Z.log2_le_pow2 in Hn; lia. }
  unfold to_float. rewrite Hce.
  rewrite Z.div_mul by (apply Z.pow_nonzero; lia).
  destruct q; try lia. reflexivity.
Qed.

Lemma to_float_carry s c :
  1074 <= c ->
  to_float s (2 ^ 53 * 2 ^ c) =
    if c + 1 - 2148 <=? 971 then S754_finite s (Z.to_pos (2 ^ 52)) (c + 1 - 2148)
    else S754_infinity s.
Proof.
  intros Hc.
  assert (Hce : cexp (2 ^ 53 * 2 ^ c) = c + 1).
  { rewrite cexp_mul_pow2 by lia. rewrite Z.log2_pow2 by lia. lia. }
  unfold to_float. rewrite Hce.
  replace (2 ^ 53 * 2 ^ c) with (2 ^ 52 * 2 ^ (c + 1))
    by (rewrite (Z.pow_add_r 2 c 1) by lia; lia).
  rewrite Z.div_mul by (apply Z.pow_nonzero; lia).
  reflexivity.
Qed.

Lemma loc_of_shr_record_eq mrs :
  loc_of_shr_record mrs =
    match shr_r mrs, shr_s mrs with
    | false, false => loc_Exact
    | false, true => loc_Inexact Lt
    | true, false => loc_Inexact Eq
    | true, true => loc_Inexact Gt
    end.
Proof. now destruct mrs as [m [] []]. Qed.

Lemma shr_1_r mrs : 0 <= shr_m mrs -> shr_r (shr_1 mrs) = Z.odd (shr_m mrs).
Proof.
  destruct mrs as [m r s]. simpl. intros Hm.
  destruct m as [|[p|p|]|p]; try reflexivity; lia.
Qed.

Lemma shr_1_s mrs : shr_s (shr_1 mrs) = shr_r mrs || shr_s mrs.
Proof.
  destruct mrs as [m r s]. simpl. destruct m as [|[p|p|]|[p|p|]]; reflexivity.
Qed.

Lemma shr_1_inv M k mrs :
  0 <= M -> 0 <= k -> shr_inv M k mrs -> shr_inv M (k + 1) (shr_1 mrs).
Proof.
  intros HM Hk [Hm Hl].
  assert (HP : 0 < 2 ^ k) by (apply Z.pow_pos_nonneg; lia).
  assert (Hm0 : 0 <= shr_m mrs) by (rewrite Hm; apply Z.div_pos; lia).
  assert (Hpow : 2 ^ (k + 1) = 2 ^ k * 2) by (rewrite Z.pow_add_r by lia; lia).
  split.
  - rewrite shr_1_m by assumption. rewrite Hm, Z.div_div by lia. now rewrite Hpow.
  - rewrite loc_of_shr_record_eq, shr_1_r, shr_1_s by assumption.
    rewrite loc_of_shr_record_eq in Hl.
    rewrite Hpow, Z.rem_mul_r by lia. rewrite <- Hm, Zmod_odd.
    pose proof (Z.mod_pos_bound M (2 ^ k) HP) as Hr.
    revert Hl Hr. generalize (M mod 2 ^ k). intros rem. generalize (2 ^ k). intros P.
    destruct (shr_r mrs), (shr_s mrs), (Z.odd (shr_m mrs)); unfold loc_ok, orb; lia.
Qed.

Lemma iter_pos_shr_inv M p :
  0 <= M ->
  forall k mrs, 0 <= k -> shr_inv M k mrs -> shr_inv M (k + Zpos p) (iter_pos shr_1 p mrs).
Proof.
  intros HM. induction p as [p IH|p IH|]; intros k mrs Hk Hinv; simpl iter_pos.
  - replace (k + Zpos p~1) with (k + 1 + Zpos p + Zpos p) by lia.
    apply IH; [lia|]. apply IH; [lia|]. now apply shr_1_inv.
  - replace (k + Zpos p~0) with (k + Zpos p + Zpos p) by lia.
    apply IH; [lia|]. now apply IH.
  - now apply shr_1_inv.
Qed.

Lemma shr_inv_spec M e n :
  0 <= M -> 0 <= n ->
  shr_inv M n (fst (shr (shr_record_of_loc M loc_Exact) e n)).
Proof.
  intros HM Hn.
  assert (H0 : shr_inv M 0 (shr_record_of_loc M loc_Exact)).
  { split; simpl; [now rewrite Z.div_1_r | apply Z.mod_1_r]. }
  unfold shr. destruct n as [|p|p]; try lia; cbn [fst].
  - exact H0.
  - apply (iter_pos_shr_inv M p HM 0 _ ltac:(lia) H0).
Qed.

Lemma round_nearest_even_spec q rem P l :
  0 <= P -> loc_ok rem P l ->
  (round_nearest_even q l = q /\ 2 * rem <= P) \/
  (round_nearest_even q l = q + 1 /\ P <= 2 * rem).
Proof.
  intros HP Hl. destruct l as [|[]]; unfold loc_ok in Hl; unfold round_nearest_even.
  - left. split; [reflexivity | lia].
  - destruct (Z.even q); [left | right]; split; (reflexivity || lia).
  - left. split; [reflexivity | lia].
  - right. split; [reflexivity | lia].
Qed.

Lemma loc_ok_scale rem P l K : 0 < K -> loc_ok rem P l -> loc_ok (rem * K) (P * K) l.
Proof.
  intros HK Hl. destruct l as [|[]]; unfold loc_ok in *; nia.
Qed.

(** The rounding of [M * 2^E], when nothing has to be shifted left, with the
    location the rounding of the mantissa is given. *)
Lemma binary_round_aux_with_loc rnd s M E :
  one_up rnd ->
  0 <= E + 2148 -> E + 2148 <= cexp (Zpos M * 2 ^ (E + 2148)) ->
  exists l,
    loc_ok ((Zpos M * 2 ^ (E + 2148)) mod 2 ^ cexp (Zpos M * 2 ^ (E + 2148)))
           (2 ^ cexp (Zpos M * 2 ^ (E + 2148))) l /\
    binary_round_aux_with rnd s (Zpos M) E loc_Exact =
      to_float s (rnd (Zpos M * 2 ^ (E + 2148) / 2 ^ cexp (Zpos M * 2 ^ (E + 2148))) l
                  * 2 ^ cexp (Zpos M * 2 ^ (E + 2148))).
Proof.
  intros Hrnd HE Hn.
  set (N := Zpos M * 2 ^ (E + 2148)) in *.
  assert (HN : 0 <= N) by (unfold N; apply Z.mul_nonneg_nonneg; [lia | apply Z.pow_nonneg; lia]).
  set (c := cexp N) in *.
  assert (Hcge : 1074 <= c) by apply cexp_ge.
  assert (Hfe : fexp F64.prec F64.emax (Zdigits2 (Zpos M) + E) = c - 2148).
  { rewrite fexp_eq. unfold Zdigits2. rewrite digits2_pos_log2.
    unfold c, cexp, N. rewrite Z.log2_mul_pow2 by lia. lia. }
  assert (Hsplit : 2 ^ c = 2 ^ (c - 2148 - E) * 2 ^ (E + 2148))
    by (rewrite <- Z.pow_add_r by lia; f_equal; lia).
  assert (HK : 0 < 2 ^ (E + 2148)) by (apply Z.pow_pos_nonneg; lia).
  assert (Hn0 : 0 < 2 ^ (c - 2148 - E)) by (apply Z.pow_pos_nonneg; lia).
  assert (Hq : Zpos M / 2 ^ (c - 2148 - E) = N / 2 ^ c).
  { unfold N. rewrite Hsplit. rewrite Z.div_mul_cancel_r; [reflexivity | |]; lia. }
  assert (Hrem : N mod 2 ^ c = Zpos M mod 2 ^ (c - 2148 - E) * 2 ^ (E + 2148)).
  { unfold N. rewrite Hsplit. apply Z.mul_mod_distr_r; lia. }
  unfold binary_round_aux_with, shr_fexp. rewrite Hfe.
  destruct (shr_m_spec (Zpos M) loc_Exact E (c - 2148 - E) ltac:(lia) ltac:(lia))
    as [Hm He].
  destruct (shr_inv_spec (Zpos M) E (c - 2148 - E) ltac:(lia) ltac:(lia)) as [_ Hloc].
  destruct (shr (shr_record_of_loc (Zpos M) loc_Exact) E (c - 2148 - E)) as [mrs' e'].
  cbn [fst snd] in Hm, He, Hloc. rewrite Hq in Hm.
  replace e' with (c - 2148) by lia. clear He e'.
  pose proof (quotient_lt N HN) as Hqlt. pose proof (quotient_nonneg N HN) as Hq0.
  fold c in Hqlt, Hq0.
  pose proof (Hrnd (shr_m mrs') (loc_of_shr_record mrs')) as Hone.
  rewrite Hm in *.
  exists (loc_of_shr_record mrs'). split.
  { rewrite Hrem, Hsplit. now apply loc_ok_scale. }
  set (q' := rnd (N / 2 ^ c) (loc_of_shr_record mrs')) in *.
  rewrite fexp_eq.
  destruct (Z.eq_dec q' 0) as [Hz|Hnz].
  - rewrite Hz. cbn [Zdigits2]. rewrite shr_nonpos by lia. reflexivity.
  - assert (Hpos : 0 < q') by lia.
    assert (Hd : Zdigits2 q' = Z.log2 q' + 1).
    { destruct q'; try lia. apply digits2_pos_log2. }
    rewrite Hd.
    destruct (Z.eq_dec q' (2 ^ 53)) as [Hcarry|Hnc].
    + rewrite Hcarry. rewrite to_float_carry by assumption.
      rewrite Z.log2_pow2 by lia.
      replace (Z.max (53 + 1 + (c - 2148) - 53) (-1074) - (c - 2148)) with 1 by lia.
      cbn [shr shr_record_of_loc iter_pos].
      replace (c - 2148 + 1) with (c + 1 - 2148) by lia.
      reflexivity.
    + assert (Hlt : q' < 2 ^ 53) by lia.
      assert (Hlog : Z.log2 q' <= 52).
      { apply Z.lt_succ_r. apply Z.log2_lt_pow2; assumption. }
      rewrite shr_nonpos by lia.
      rewrite to_float_canonical; [| assumption | lia |].
      * destruct q'; try lia. reflexivity.
      * destruct (Z.eq_dec c 1074) as [|Hne]; [now left|right].
        pose proof (quotient_ge N HN ltac:(fold c; lia)). fold c in H. lia.
Qed.

(** Hence the result is the float of one of the two neighbours of the
    value. *)
Lemma binary_round_aux_with_spec rnd s M E :
  one_up rnd ->
  0 <= E + 2148 -> E + 2148 <= cexp (Zpos M * 2 ^ (E + 2148)) ->
  exists R,
    rounds (Zpos M * 2 ^ (E + 2148)) R /\
    binary_round_aux_with rnd s (Zpos M) E loc_Exact = to_float s R.
Proof.
  intros Hrnd HE Hn.
  destruct (binary_round_aux_with_loc rnd s M E Hrnd HE Hn) as (l & _ & ->).
  set (N := Zpos M * 2 ^ (E + 2148)).
  pose proof (Hrnd (N / 2 ^ cexp N) l) as Hone.
  exists (rnd (N / 2 ^ cexp N) l * 2 ^ cexp N). split; [|reflexivity].
  unfold rounds, round_down.
  destruct (Z.eq_dec (rnd (N / 2 ^ cexp N) l) (N / 2 ^ cexp N)) as [->|Hne]; [now left|right].
  replace (rnd (N / 2 ^ cexp N) l) with (N / 2 ^ cexp N + 1) by lia. lia.
Qed.

Lemma cexp_value M E :
  0 <= E + 2148 ->
  cexp (Zpos M * 2 ^ (E + 2148)) =
    fexp F64.prec F64.emax (Zpos (digits2_pos M) + E) + 2148.
Proof.
  intros HE. rewrite fexp_eq, digits2_pos_log2.
  unfold cexp. rewrite Z.log2_mul_pow2 by lia. lia.
Qed.

Lemma shl_align_spec mx ex ex' :
  snd (shl_align mx ex ex') = Z.min ex ex' /\
  Zpos (fst (shl_align mx ex ex')) = Zpos mx * 2 ^ (ex - Z.min ex ex').
Proof.
  unfold shl_align. destruct (ex' - ex) as [|d|d] eqn:Hd; cbn [fst snd].
  - replace (Z.min ex ex') with ex by lia. rewrite Z.sub_diag. split; lia.
  - replace (Z.min ex ex') with ex by lia. rewrite Z.sub_diag. split; lia.
  - replace (Z.min ex ex') with ex' by lia. split; [reflexivity|].
    replace (ex - ex') with (Zpos d) by lia.
    change (Pos.iter xO mx d) with (shift_pos d mx).
    rewrite shift_pos_correct. change (Z.pow_pos 2 d) with (2 ^ Zpos d). lia.
Qed.

(** [binary_round]: the float of one of the two neighbours of [M * 2^E]. *)
Lemma binary_round_spec s M E :
  0 <= E + 2148 ->
  exists R,
    rounds (Zpos M * 2 ^ (E + 2148)) R /\
    binary_round F64.prec F64.emax s M E = to_float s R.
Proof.
  intros HE. unfold binary_round.
  pose proof (shl_align_spec M E (fexp F64.prec F64.emax (Zpos (digits2_pos M) + E)))
    as [He Hm].
  destruct (shl_align M E _) as [mz ez]. cbn [fst snd] in He, Hm.
  pose proof (cexp_value M E HE) as Hc.
  assert (Hfe : -1074 <= fexp F64.prec F64.emax (Zpos (digits2_pos M) + E))
    by (rewrite fexp_eq; lia).
  assert (HN : Zpos mz * 2 ^ (ez + 2148) = Zpos M * 2 ^ (E + 2148)).
  { rewrite Hm, <- He, <- Z.mul_assoc, <- Z.pow_add_r by lia. do 2 f_equal. lia. }
  change (binary_round_aux F64.prec F64.emax s (Zpos mz) ez loc_Exact)
    with (binary_round_aux_with round_nearest_even s (Zpos mz) ez loc_Exact).
  rewrite <- HN.
  apply binary_round_aux_with_spec; [exact one_up_nearest_even | lia |].
  rewrite HN, Hc. lia.
Qed.

Lemma mod_eq_round_down n : n mod 2 ^ cexp n = n - round_down n.
Proof.
  unfold round_down. pose proof (pow_cexp_pos n).
  rewrite Z.mod_eq by lia. lia.
Qed.

(** Rounding to nearest even of [M * 2^E]. *)
Lemma binary_round_aux_nearest_spec s M E :
  0 <= E + 2148 -> E + 2148 <= cexp (Zpos M * 2 ^ (E + 2148)) ->
  exists R,
    rounds_nearest (Zpos M * 2 ^ (E + 2148)) R /\
    binary_round_aux F64.prec F64.emax s (Zpos M) E loc_Exact = to_float s R.
Proof.
  intros HE Hn.
  destruct (binary_round_aux_with_loc round_nearest_even s M E one_up_nearest_even HE Hn)
    as (l & Hl & Heq).
  change (binary_round_aux F64.prec F64.emax s (Zpos M) E loc_Exact)
    with (binary_round_aux_with round_nearest_even s (Zpos M) E loc_Exact).
  rewrite Heq. clear Heq.
  set (N := Zpos M * 2 ^ (E + 2148)) in *.
  pose proof (pow_cexp_pos N) as Hp.
  rewrite mod_eq_round_down in Hl.
  destruct (round_nearest_even_spec (N / 2 ^ cexp N) (N - round_down N) (2 ^ cexp N) l
              ltac:(lia) Hl)
    as [[-> Hh]|[-> Hh]].
  - exists (N / 2 ^ cexp N * 2 ^ cexp N). split; [|reflexivity]. left. now split.
  - exists ((N / 2 ^ cexp N + 1) * 2 ^ cexp N). split; [|reflexivity].
    right. split; [unfold round_down; lia | exact Hh].
Qed.

Lemma binary_round_nearest_spec s M E :
  0 <= E + 2148 ->
  exists R,
    rounds_nearest (Zpos M * 2 ^ (E + 2148)) R /\
    binary_round F64.prec F64.emax s M E = to_float s R.
Proof.
  intros HE. unfold binary_round.
  pose proof (shl_align_spec M E (fexp F64.prec F64.emax (Zpos (digits2_pos M) + E)))
    as [He Hm].
  destruct (shl_align M E _) as [mz ez]. cbn [fst snd] in He, Hm.
  pose proof (cexp_value M E HE) as Hc.
  assert (Hfe : -1074 <= fexp F64.prec F64.emax (Zpos (digits2_pos M) + E))
    by (rewrite fexp_eq; lia).
  assert (HN : Zpos mz * 2 ^ (ez + 2148) = Zpos M * 2 ^ (E + 2148)).
  { rewrite Hm, <- He, <- Z.mul_assoc, <- Z.pow_add_r by lia. do 2 f_equal. lia. }
  rewrite <- HN.
  apply binary_round_aux_nearest_spec; [lia|].
  rewrite HN, Hc. lia.
Qed.

(** The shapes of the float of a representable value. *)
Lemma to_float_cases s R :
  0 <= R -> representable R ->
  (R = 0 /\ to_float s R = S754_zero s) \/
  (exists m e, to_float s R = S754_finite s m e /\
               Zpos m * 2 ^ (e + 2148) = R /\ e + 2148 = cexp R /\ e <= 971) \/
  (to_float s R = S754_infinity s /\ 971 < cexp R - 2148 /\ 0 < R).
Proof.
  intros HR Hrep. unfold representable in Hrep.
  pose proof (pow_cexp_pos R) as Hp.
  pose proof (Z.div_mod R (2 ^ cexp R) ltac:(lia)) as Hdm. rewrite Hrep in Hdm.
  pose proof (quotient_nonneg R HR) as Hq.
  unfold to_float. destruct (R / 2 ^ cexp R) as [|m|m] eqn:Hm; try lia.
  - left. split; [lia | reflexivity].
  - right. destruct (Z.leb_spec (cexp R - 2148) 971) as [Hle|Hgt].
    + left. exists m, (cexp R - 2148). repeat split; try lia.
      replace (cexp R - 2148 + 2148) with (cexp R) by lia. lia.
    + right. repeat split; try lia.
Qed.

Lemma valid_binary_to_float s R :
  0 <= R -> representable R -> valid_binary F64.prec F64.emax (to_float s R) = true.
Proof.
  intros HR Hrep.
  destruct (to_float_cases s R HR Hrep) as [[_ ->]|[(m & e & -> & Hv & He & Hle)|[-> _]]];
    try reflexivity.
  unfold valid_binary, bounded, canonical_mantissa.
  assert (He0 : 0 <= e + 2148) by (pose proof (cexp_ge R); lia).
  pose proof (cexp_value m e He0) as Hc. rewrite Hv in Hc.
  apply andb_true_intro. split; [apply Z.eqb_eq; lia | apply Z.leb_le].
  change (F64.emax - F64.prec) with 971. lia.
Qed.

(** A valid finite float is the float of its value. *)
Lemma valid_binary_value s m e :
  valid_binary F64.prec F64.emax (S754_finite s m e) = true ->
  0 <= e + 2148 /\ e + 2148 = cexp (Zpos m * 2 ^ (e + 2148)) /\
  representable (Zpos m * 2 ^ (e + 2148)) /\
  S754_finite s m e = to_float s (Zpos m * 2 ^ (e + 2148)).
Proof.
  unfold valid_binary, bounded, canonical_mantissa. intros H.
  apply andb_prop in H. destruct H as [Hc Hb].
  apply Z.eqb_eq in Hc. apply Z.leb_le in Hb. change (F64.emax - F64.prec) with 971 in Hb.
  assert (He0 : 0 <= e + 2148) by (rewrite fexp_eq in Hc; lia).
  pose proof (cexp_value m e He0) as Hce. rewrite Hc in Hce.
  assert (Hp : 2 ^ (e + 2148) <> 0) by (apply Z.pow_nonzero; lia).
  repeat split; try lia.
  - unfold representable. rewrite Hce. apply Z.mod_mul. exact Hp.
  - unfold to_float. rewrite Hce, Z.div_mul by exact Hp.
    replace (e + 2148 - 2148) with e by lia.
    destruct (Z.leb_spec e 971); [reflexivity | lia].
Qed.

Lemma rounds_representable_self n : 0 <= n -> representable n -> rounds n n.
Proof. intros Hn Hrep. left. symmetry. now apply round_down_representable. Qed.

Lemma to_float_overflow s R :
  0 <= R -> representable R -> 971 < cexp R - 2148 -> to_float s R = S754_infinity s.
Proof.
  intros HR Hrep Hov.
  destruct (to_float_cases s R HR Hrep) as [[-> _]|[(m & e & _ & _ & He & Hle)|[H _]]].
  - change (cexp 0) with 1074 in Hov. lia.
  - lia.
  - exact H.
Qed.

(** Past the largest float everything that rounds is an infinity. *)
Lemma rounds_overflow s A N R :
  0 <= A -> A <= N -> 971 < cexp A - 2148 -> rounds N R ->
  to_float s R = S754_infinity s.
Proof.
  intros HA HAN Hov HR.
  pose proof (rounds_bounds N R ltac:(lia) HR) as [[H0 H1] _].
  apply to_float_overflow.
  - lia.
  - apply (rounds_representable N R); [lia | exact HR].
  - pose proof (cexp_mono A N HAN). pose proof (cexp_round_down N ltac:(lia)).
    pose proof (cexp_mono (round_down N) R H1). lia.
Qed.

Lemma ordinal_to_float s R :
  0 <= R -> representable R ->
  ordinal (to_float s R) = Z.min (floor_ordinal R) (2047 * 2 ^ 52).
Proof.
  intros HR Hrep.
  pose proof (quotient_lt R HR) as Hlt. pose proof (cexp_ge R) as Hge.
  destruct (to_float_cases s R HR Hrep)
    as [[-> ->]|[(m & e & -> & Hv & He & Hle)|[-> [Hov Hpos]]]].
  - reflexivity.
  - unfold ordinal, floor_ordinal.
    assert (Hq : R / 2 ^ cexp R = Zpos m).
    { rewrite <- Hv at 1. rewrite <- He. apply Z.div_mul. apply Z.pow_nonzero; lia. }
    rewrite Hq in *. replace (cexp R - 1074) with (e + 1074) by lia.
    change (2 ^ 53) with (2 * 2 ^ 52) in Hlt. nia.
  - unfold ordinal, floor_ordinal.
    pose proof (quotient_ge R HR ltac:(lia)). nia.
Qed.

Lemma F64_add_zero_l R :
  F64.add (S754_zero false) (to_float false R) = to_float false R.
Proof.
  unfold to_float. destruct (R / 2 ^ cexp R); try reflexivity.
  destruct (_ <=? _); reflexivity.
Qed.

Lemma F64_add_zero_r R :
  F64.add (to_float false R) (S754_zero false) = to_float false R.
Proof.
  unfold to_float. destruct (R / 2 ^ cexp R); try reflexivity.
  destruct (_ <=? _); reflexivity.
Qed.

Lemma F64_add_infinity_l R :
  F64.add (S754_infinity false) (to_float false R) = S754_infinity false.
Proof.
  unfold to_float. destruct (R / 2 ^ cexp R); try reflexivity.
  destruct (_ <=? _); reflexivity.
Qed.

Lemma F64_add_infinity_r R :
  F64.add (to_float false R) (S754_infinity false) = S754_infinity false.
Proof.
  unfold to_float. destruct (R / 2 ^ cexp R); try reflexivity.
  destruct (_ <=? _); reflexivity.
Qed.

(** The sum of two floats that are zero or more is the exact sum rounded to
    nearest. *)
Lemma F64_add_nearest_spec A B :
  0 <= A -> representable A -> 0 <= B -> representable B ->
  exists R,
    rounds_nearest (A + B) R /\
    F64.add (to_float false A) (to_float false B) = to_float false R.
Proof.
  intros HA HrA HB HrB.
  assert (Hself : forall n, 0 <= n -> representable n -> rounds_nearest n n).
  { intros n Hn Hr. left. rewrite (round_down_representable n Hn Hr).
    split; [reflexivity|]. pose proof (pow_cexp_pos n). lia. }
  destruct (to_float_cases false A HA HrA)
    as [[-> Ea]|[(ma & ea & Ea & Va & Ca & La)|(Ea & Oa & Pa)]].
  { exists B. split; [now apply Hself|]. rewrite Ea. apply F64_add_zero_l. }
  - destruct (to_float_cases false B HB HrB)
      as [[-> Eb]|[(mb & eb & Eb & Vb & Cb & Lb)|(Eb & Ob & Pb)]].
    { exists A. rewrite Z.add_0_r. split; [now apply Hself|].
      rewrite Eb. apply F64_add_zero_r. }
    + rewrite Ea, Eb. unfold F64.add, SFadd.
      pose proof (shl_align_spec ma ea (Z.min ea eb)) as [_ Hma].
      pose proof (shl_align_spec mb eb (Z.min ea eb)) as [_ Hmb].
      destruct (shl_align ma ea (Z.min ea eb)) as [pa xa].
      destruct (shl_align mb eb (Z.min ea eb)) as [pb xb].
      cbn [fst snd cond_Zopp] in *.
      change (Zpos pa + Zpos pb) with (Zpos (pa + pb)). cbn [binary_normalize].
      pose proof (cexp_ge A). pose proof (cexp_ge B).
      assert (HE : 0 <= Z.min ea eb + 2148) by lia.
      destruct (binary_round_nearest_spec false (pa + pb) (Z.min ea eb) HE) as (R & HR & ->).
      exists R. split; [|reflexivity].
      replace (A + B) with (Zpos (pa + pb) * 2 ^ (Z.min ea eb + 2148)); [exact HR|].
      rewrite Pos2Z.inj_add, Hma, Hmb, <- Va, <- Vb.
      rewrite Z.mul_add_distr_r, <- !Z.mul_assoc, <- !Z.pow_add_r by lia.
      do 2 f_equal; f_equal; lia.
    + destruct (rounds_nearest_exists (A + B)) as [R HR].
      exists R. split; [exact HR|].
      rewrite Eb, F64_add_infinity_r. symmetry.
      apply (rounds_overflow false B (A + B)); try lia. now apply rounds_nearest_rounds.
  - destruct (rounds_nearest_exists (A + B)) as [R HR].
    exists R. split; [exact HR|].
    rewrite Ea, F64_add_infinity_l. symmetry.
    apply (rounds_overflow false A (A + B)); try lia. now apply rounds_nearest_rounds.
Qed.

(** The exact square of a valid float, and what its roundings are. *)
Lemma square_spec x :
  valid_binary F64.prec F64.emax x = true -> x <> S754_nan ->
  exists X,
    0 <= X /\
    (exists A, rounds X A /\ F64.mul x x = to_float false A) /\
    (forall up, exists A, rounds X A /\ PyMath.square up x = to_float false A).
Proof.
  intros Hv Hnan. destruct x as [s|s| |s m e]; try contradiction.
  - exists 0. split; [lia|]. split.
    + exists 0. split; [now left | now destruct s].
    + intros up. exists 0. split; [now left | reflexivity].
  - set (X := 2 ^ 53 * 2 ^ 4000).
    assert (HX : 0 <= X) by (unfold X; lia).
    assert (Hrep : representable X).
    { unfold representable, X. rewrite cexp_mul_pow2 by lia.
      rewrite Z.log2_pow2 by lia. apply Z.mod_divide; [lia|].
      exists (2 ^ 52).
      replace (Z.max (53 + 4000 - 52) 1074) with (4000 + 1) by lia.
      rewrite (Z.pow_add_r 2 4000 1) by lia. lia. }
    assert (Hinf : to_float false X = S754_infinity false).
    { unfold X. rewrite to_float_carry by lia. reflexivity. }
    exists X. split; [exact HX|]. split.
    + exists X. split; [now apply rounds_representable_self|].
      rewrite Hinf. now destruct s.
    + intros up. exists X. split; [now apply rounds_representable_self|].
      rewrite Hinf. reflexivity.
  - destruct (valid_binary_value s m e Hv) as (He0 & Hc & _ & _).
    pose proof (cexp_ge (Zpos m * 2 ^ (e + 2148))) as Hge.
    set (X := Zpos (m * m) * 2 ^ (e + e + 2148)).
    assert (HE : 0 <= e + e + 2148) by lia.
    assert (Hn : e + e + 2148 <= cexp X).
    { unfold X, cexp in *. rewrite Z.log2_mul_pow2 in * by lia.
      pose proof (Z.log2_mul_below (Zpos m) (Zpos m) ltac:(lia) ltac:(lia)).
      rewrite Pos2Z.inj_mul. lia. }
    exists X. split; [unfold X; lia|]. split.
    + unfold F64.mul, SFmul. rewrite xorb_nilpotent.
      change (binary_round_aux F64.prec F64.emax false (Zpos (m * m)) (e + e) loc_Exact)
        with (binary_round_aux_with round_nearest_even false (Zpos (m * m)) (e + e) loc_Exact).
      destruct (binary_round_aux_with_spec round_nearest_even false (m * m) (e + e)
                  one_up_nearest_even HE Hn) as (A & HA & ->).
      exists A. split; [exact HA | reflexivity].
    + intros up. unfold PyMath.square.
      change (PyMath.binary_round_aux_faithful up false (Zpos (m * m)) (e + e) loc_Exact)
        with (binary_round_aux_with (PyMath.round_faithful up) false
                (Zpos (m * m)) (e + e) loc_Exact).
      destruct (binary_round_aux_with_spec (PyMath.round_faithful up) false (m * m) (e + e)
                  (one_up_faithful up) HE Hn) as (A & HA & ->).
      exists A. split; [exact HA | reflexivity].
Qed.

Lemma valid_binary_normalize z e :
  0 <= e + 2148 ->
  valid_binary F64.prec F64.emax (binary_normalize F64.prec F64.emax z e false) = true.
Proof.
  intros He. destruct z as [|p|p]; [reflexivity| |]; cbn [binary_normalize].
  - destruct (binary_round_spec false p e He) as (R & HR & ->).
    assert (0 <= Zpos p * 2 ^ (e + 2148)) by lia.
    pose proof (rounds_bounds _ R H HR) as [[? ?] _].
    apply valid_binary_to_float; [lia | now apply (rounds_representable _ R H)].
  - destruct (binary_round_spec true p e He) as (R & HR & ->).
    assert (0 <= Zpos p * 2 ^ (e + 2148)) by lia.
    pose proof (rounds_bounds _ R H HR) as [[? ?] _].
    apply valid_binary_to_float; [lia | now apply (rounds_representable _ R H)].
Qed.

(** The difference of two valid finite floats is a valid float. *)
Lemma valid_binary_sub x y :
  valid_binary F64.prec F64.emax x = true -> valid_binary F64.prec F64.emax y = true ->
  F64.is_finite x = true -> F64.is_finite y = true ->
  valid_binary F64.prec F64.emax (F64.sub x y) = true.
Proof.
  intros Hx Hy Fx Fy.
  destruct x as [sx|sx| |sx mx ex]; try discriminate;
    destruct y as [sy|sy| |sy my ey]; try discriminate.
  - now destruct sx, sy.
  - exact Hy.
  - exact Hx.
  - unfold F64.sub, SFsub.
    destruct (valid_binary_value sx mx ex Hx) as (Hex & _).
    destruct (valid_binary_value sy my ey Hy) as (Hey & _).
    apply valid_binary_normalize. lia.
Qed.

(** [ordinal] on 0.0, 1.0 and 2.0: the bits [0x0], [0x3FF0000000000000] and
    [0x4000000000000000]; and the largest float comes just before [inf]. *)
Example ordinal_bits :
  ordinal (F64.of_Z 0) = 0 /\
  ordinal (F64.of_Z 1) = 4607182418800017408 /\
  ordinal (F64.of_Z 2) = 4611686018427387904 /\
  ordinal (S754_finite false 9007199254740991 971) + 1 = ordinal (S754_infinity false).
Proof. repeat split. Qed.

Lemma to_float_not_nan s R : to_float s R <> S754_nan.
Proof.
  unfold to_float. destruct (R / 2 ^ cexp R); try discriminate.
  destruct (_ <=? _); discriminate.
Qed.

(** The difference of two valid finite floats is not a NaN. *)
Lemma valid_sub_not_nan x y :
  valid_binary F64.prec F64.emax x = true -> valid_binary F64.prec F64.emax y = true ->
  F64.is_finite x = true -> F64.is_finite y = true ->
  F64.sub x y <> S754_nan.
Proof.
  intros Hx Hy Fx Fy.
  destruct x as [sx|sx| |sx mx ex]; try discriminate;
    destruct y as [sy|sy| |sy my ey]; try discriminate.
  - destruct sx, sy; discriminate.
  - unfold F64.sub, SFsub.
    destruct (valid_binary_value sx mx ex Hx) as (Hex & _).
    destruct (valid_binary_value sy my ey Hy) as (Hey & _).
    assert (HE : 0 <= Z.min ex ey + 2148) by lia.
    set (z := _ - _). destruct z as [|p|p]; [discriminate| |]; cbn [binary_normalize].
    + destruct (binary_round_spec false p _ HE) as (R & _ & ->). apply to_float_not_nan.
    + destruct (binary_round_spec true p _ HE) as (R & _ & ->). apply to_float_not_nan.
Qed.

Lemma to_float_nonneg R : nonneg_number (to_float false R).
Proof.
  unfold to_float. destruct (R / 2 ^ cexp R); try exact I.
  destruct (_ <=? _); exact I.
Qed.

(** The sum of the squares, with each square rounded one way or the other:
    the float is the same up to two units in the last place. *)
Lemma sum_of_squares_ordinal dx dy up1 up2 :
  valid_binary F64.prec F64.emax dx = true -> dx <> S754_nan ->
  valid_binary F64.prec F64.emax dy = true -> dy <> S754_nan ->
  exists D D' A' B',
    F64.add (F64.mul dx dx) (F64.mul dy dy) = to_float false D /\
    PyMath.square up1 dx = to_float false A' /\
    PyMath.square up2 dy = to_float false B' /\
    F64.add (PyMath.square up1 dx) (PyMath.square up2 dy) = to_float false D' /\
    Z.abs (ordinal (to_float false D') - ordinal (to_float false D)) <= 2.
Proof.
  intros Vx Nx Vy Ny.
  destruct (square_spec dx Vx Nx) as (X & HX & (A & HA & EA) & HA').
  destruct (square_spec dy Vy Ny) as (Y & HY & (B & HB & EB) & HB').
  destruct (HA' up1) as (A' & HA1 & EA'). destruct (HB' up2) as (B' & HB1 & EB').
  pose proof (rounds_bounds X A HX HA) as [[? ?] _].
  pose proof (rounds_bounds Y B HY HB) as [[? ?] _].
  pose proof (rounds_bounds X A' HX HA1) as [[? ?] _].
  pose proof (rounds_bounds Y B' HY HB1) as [[? ?] _].
  pose proof (rounds_representable X A HX HA).
  pose proof (rounds_representable Y B HY HB).
  pose proof (rounds_representable X A' HX HA1).
  pose proof (rounds_representable Y B' HY HB1).
  destruct (F64_add_nearest_spec A B) as (D & HD & ED); try assumption; try lia.
  destruct (F64_add_nearest_spec A' B') as (D' & HD' & ED'); try assumption; try lia.
  exists D, D', A', B'.
  rewrite EA, EB, EA', EB', ED, ED'. repeat split.
  pose proof (nearest_sum_ordinal X Y A B A' B' D D' HX HY HA HB HA1 HB1 HD HD').
  pose proof (rounds_nearest_rounds _ _ HD) as HDr.
  pose proof (rounds_nearest_rounds _ _ HD') as HDr'.
  pose proof (rounds_bounds (A + B) D ltac:(lia) HDr) as [[? ?] _].
  pose proof (rounds_bounds (A' + B') D' ltac:(lia) HDr') as [[? ?] _].
  rewrite !ordinal_to_float;
    try lia; try (apply (rounds_representable (A + B) D); [lia | assumption]);
    try (apply (rounds_representable (A' + B') D'); [lia | assumption]).
Qed.

(** ** Strategy 0 and the kernel of [cdist] *)

(** The direct strategy leaves the object as it is, and returns a float or
    raises [OverflowError]. *)
Lemma method0_returns_or_overflows libm unit1 unit2 self :
  (exists d,
     _distance_squared_unit_to_unit_method0 libm unit1 unit2 self = (Ok (VFloat d), self))
  \/
  _distance_squared_unit_to_unit_method0 libm unit1 unit2 self =
    (Raise OverflowError, self).
Proof.
  unfold _distance_squared_unit_to_unit_method0, eval, distance_math_hypot_squared,
    PyMath.pow_2.
  destruct (F64.sub (fst _) (fst _)) as [s1|s1| |s1 m1 e1];
    destruct (F64.sub (snd _) (snd _)) as [s2|s2| |s2 m2 e2];
    cbn [rbind];
    repeat match goal with
           | |- context [PyMath.square ?u ?x] =>
               destruct (PyMath.square u x); cbn [rbind]
           end;
    try (now right); left; eexists; reflexivity.
Qed.

(** The correctly rounded square, which the kernel of [cdist] computes, is
    one of the two squares a faithful library may return. *)
Lemma correctly_rounded_square_is_faithful x :
  F64.mul x x = PyMath.square false x \/ F64.mul x x = PyMath.square true x.
Proof.
  destruct x as [s|s| |s m e]; try (left; now destruct s); try (now left).
  unfold F64.mul, SFmul, binary_round_aux, PyMath.square,
    PyMath.binary_round_aux_faithful.
  rewrite xorb_nilpotent.
  destruct (shr_fexp _ _ _ _ _) as [mrs' e'].
  unfold round_nearest_even, PyMath.round_faithful.
  destruct (loc_of_shr_record mrs') as [|[]]; try (now left); try (now right).
  destruct (Z.even (shr_m mrs')); [now left | now right].
Qed.

Lemma example_square_session : square_session (example_selected 2).
Proof.
  apply (square_session_start 2 example_self {| game_loop := 5 |}).
  - now left.
  - reflexivity.
  - vm_compute. discriminate.
Qed.

(** [math.pow(x, 2)] returns the square the library gives, or raises when
    a finite [x] squares to an infinity. *)
Lemma pow_2_outcome libm x :
  PyMath.pow_2 libm x = Ok (PyMath.square (libm (SFabs x)) x) \/
  PyMath.pow_2 libm x = Raise OverflowError /\
  exists s, PyMath.square (libm (SFabs x)) x = S754_infinity s.
Proof.
  unfold PyMath.pow_2.
  destruct x as [s|s| |s m e]; try (now left).
  destruct (PyMath.square _ _) as [s'|s'| |s' m' e']; try (now left).
  right. split; [reflexivity | now exists s'].
Qed.

Lemma to_float_infinity R s : to_float false R = S754_infinity s -> s = false.
Proof.
  pose proof (to_float_nonneg R) as H. intros E. rewrite E in H.
  destruct s; [contradiction | reflexivity].
Qed.

(** The arithmetic of strategy 0 against the kernel of [cdist], on valid
    coordinates: the same float up to two units in the last place, an
    overflow of [pow] counted as [inf]. *)
Lemma hypot_squared_ordinal libm p1 p2 :
  binary64_position p1 -> binary64_position p2 ->
  nonneg_number (Scipy.sqeuclidean p1 p2) /\
  ((exists d0,
      distance_math_hypot_squared libm p1 p2 = Ok d0 /\
      nonneg_number d0 /\
      Z.abs (ordinal d0 - ordinal (Scipy.sqeuclidean p1 p2)) <= 2)
   \/
   (distance_math_hypot_squared libm p1 p2 = Raise OverflowError /\
    ordinal (S754_infinity false) - 2 <= ordinal (Scipy.sqeuclidean p1 p2))).
Proof.
  intros ([Fx1 Fy1] & Vx1 & Vy1) ([Fx2 Fy2] & Vx2 & Vy2).
  unfold Scipy.sqeuclidean, distance_math_hypot_squared. cbv zeta.
  rewrite F64_add_zero_square.
  set (dx := F64.sub (fst p1) (fst p2)). set (dy := F64.sub (snd p1) (snd p2)).
  assert (Vx : valid_binary F64.prec F64.emax dx = true)
    by (apply valid_binary_sub; assumption).
  assert (Vy : valid_binary F64.prec F64.emax dy = true)
    by (apply valid_binary_sub; assumption).
  assert (Nx : dx <> S754_nan) by (apply valid_sub_not_nan; assumption).
  assert (Ny : dy <> S754_nan) by (apply valid_sub_not_nan; assumption).
  destruct (sum_of_squares_ordinal dx dy (libm (SFabs dx)) (libm (SFabs dy)) Vx Nx Vy Ny)
    as (D & D' & A' & B' & ED & EA & EB & ED' & Hord).
  rewrite ED. split; [apply to_float_nonneg|].
  destruct (pow_2_outcome libm dx) as [-> | [-> [s Hs]]]; cbn [rbind].
  - destruct (pow_2_outcome libm dy) as [-> | [-> [s Hs]]]; cbn [rbind].
    + left. exists (to_float false D'). rewrite ED'.
      split; [reflexivity|]. split; [apply to_float_nonneg | exact Hord].
    + right. split; [reflexivity|].
      pose proof (to_float_infinity B' s) as Hsf. rewrite <- EB in Hsf.
      specialize (Hsf Hs). subst s.
      rewrite Hs, EA, F64_add_infinity_r in ED'. rewrite <- ED' in Hord. lia.
  - right. split; [reflexivity|].
    pose proof (to_float_infinity A' s) as Hsf. rewrite <- EA in Hsf.
    specialize (Hsf Hs). subst s.
    rewrite Hs, EB, F64_add_infinity_l in ED'. rewrite <- ED' in Hord. lia.
Qed.

(** C3, amended. In a session of strategy 2 (or 3), for two entities of the
    current set that stand at their indices and whose coordinates are
    binary64 numbers: the lookup of strategy 2 in the matrix of the current
    frame (built first when the cache is not current) returns a float that is
    zero or more; the direct arithmetic of strategy 0, whatever the last bit
    the platform gives [pow], returns a float that is zero or more and at
    most two units in the last place away from it; unless a square
    overflows in [pow], where strategy 0 raises [OverflowError] and the
    float of strategy 2 is [inf] or one of the two largest floats. *)
Theorem direct_equals_square_lookup libm self a b :
  square_session self -> indexed self a -> indexed self b ->
  binary64_position (position_tuple a) -> binary64_position (position_tuple b) ->
  exists d2,
    fst (_distance_squared_unit_to_unit_method2 a b self) = Ok (VFloat d2) /\
    square_session (snd (_distance_squared_unit_to_unit_method2 a b self)) /\
    nonneg_number d2 /\
    ((exists d0,
        _distance_squared_unit_to_unit_method0 libm a b self = (Ok (VFloat d0), self) /\
        nonneg_number d0 /\
        Z.abs (ordinal d0 - ordinal d2) <= 2)
     \/
     (_distance_squared_unit_to_unit_method0 libm a b self = (Raise OverflowError, self) /\
      ordinal (S754_infinity false) - 2 <= ordinal d2)).
Proof.
  intros Hs Ha Hb Va Vb.
  exists (Scipy.sqeuclidean (position_tuple a) (position_tuple b)).
  destruct (square_session_lookup self a b Hs Ha Hb) as (self' & H2 & _ & Hs').
  rewrite H2. cbn [fst snd].
  split; [reflexivity|]. split; [exact Hs'|].
  destruct (hypot_squared_ordinal libm (position_tuple a) (position_tuple b) Va Vb)
    as [Hnn [(d0 & E0 & N0 & Hord) | [E0 Hord]]].
  - split; [exact Hnn|]. left. exists d0.
    unfold _distance_squared_unit_to_unit_method0, eval. rewrite E0.
    split; [reflexivity|]. split; assumption.
  - split; [exact Hnn|]. right.
    unfold _distance_squared_unit_to_unit_method0, eval. rewrite E0.
    split; [reflexivity | exact Hord].
Qed.

(** The entities at [(3,4)] and [(0,4)] in frame 5, strategy 2 selected. *)
Lemma direct_equals_square_lookup_witness :
  let a := example_unit 11 3 4 1 in
  let b := example_unit 12 0 4 2 in
  square_session (example_selected 2) /\
  indexed (example_selected 2) a /\ indexed (example_selected 2) b /\
  binary64_position (position_tuple a) /\ binary64_position (position_tuple b) /\
  exists d2,
    fst (_distance_squared_unit_to_unit_method2 a b (example_selected 2)) = Ok (VFloat d2) /\
    square_session (snd (_distance_squared_unit_to_unit_method2 a b (example_selected 2))) /\
    nonneg_number d2 /\
    ((exists d0,
        _distance_squared_unit_to_unit_method0 example_libm a b (example_selected 2) =
          (Ok (VFloat d0), example_selected 2) /\
        nonneg_number d0 /\
        Z.abs (ordinal d0 - ordinal d2) <= 2)
     \/
     (_distance_squared_unit_to_unit_method0 example_libm a b (example_selected 2) =
        (Raise OverflowError, example_selected 2) /\
      ordinal (S754_infinity false) - 2 <= ordinal d2)).
Proof.
  intros a b.
  assert (Hs : square_session (example_selected 2)) by exact example_square_session.
  assert (Ha : indexed (example_selected 2) a)
    by (split; [vm_compute; discriminate | reflexivity]).
  assert (Hb : indexed (example_selected 2) b)
    by (split; [vm_compute; discriminate | reflexivity]).
  assert (Va : binary64_position (position_tuple a)) by (repeat split).
  assert (Vb : binary64_position (position_tuple b)) by (repeat split).
  repeat (split; [assumption|]).
  exact (direct_equals_square_lookup example_libm (example_selected 2) a b Hs Ha Hb Va Vb).
Defined.

(** C3, as stated, fails where a square overflows. Two entities at
    [(2^600, 0)] and [(0, 0)], binary64 coordinates both, in frame 5 with
    strategy 2 selected: [math.pow] raises [OverflowError] on the difference
    [2^600], on every platform, so strategy 0 returns no distance, while
    strategy 2 returns [inf] from the matrix. *)
Lemma direct_equals_square_lookup_counterexample :
  let a := {| tag := 1; position_tuple := (F64.of_Z (2 ^ 600), F64.zero);
              distance_calculation_index := 0 |} in
  let b := {| tag := 2; position_tuple := (F64.zero, F64.zero);
              distance_calculation_index := 1 |} in
  let self := snd (_distances_override_functions 2
                     (set_state (Some {| game_loop := 5 |})
                                (set_all_units [a; b] __init__))) in
  binary64_position (position_tuple a) /\ binary64_position (position_tuple b) /\
  indexed self a /\ indexed self b /\
  state self = Some {| game_loop := 5 |} /\
  calculate_distances self = Some Bound_calculate_method2 /\
  (forall libm,
     fst (_distance_squared_unit_to_unit_method0 libm a b self) = Raise OverflowError) /\
  fst (_distance_squared_unit_to_unit_method2 a b self) = Ok (VFloat (S754_infinity false)).
Proof.
  intros a b self.
  split; [repeat split|]. split; [repeat split|].
  split; [split; [vm_compute; discriminate | reflexivity]|].
  split; [split; [vm_compute; discriminate | reflexivity]|].
  split; [reflexivity|]. split; [reflexivity|].
  split; [intros libm|]; vm_compute; reflexivity.
Qed.

(** At [(3,4)] and [(0,4)] the squares are exact and the two strategies
    return 9 on every platform. *)
Example direct_and_square_lookup_at_exact_squares libm :
  let a := example_unit 11 3 4 1 in
  let b := example_unit 12 0 4 2 in
  fst (_distance_squared_unit_to_unit_method0 libm a b (example_selected 2))
    = Ok (VFloat (F64.of_Z 9)) /\
  fst (_distance_squared_unit_to_unit_method2 a b (example_selected 2))
    = Ok (VFloat (F64.of_Z 9)).
Proof. split; vm_compute; reflexivity. Qed.

(** Where a square is inexact the two may part in the last bit. The square
    of [2^28 + 3] ends in 9 sixteenths of the last place: the kernel of
    [cdist] rounds it up, and on a platform whose [pow] rounds it down
    strategy 0 returns the float just below. *)
Example direct_and_square_lookup_last_bit :
  let a := example_unit 1 (2 ^ 28 + 3) 0 0 in
  let b := example_unit 2 0 0 1 in
  let self := snd (_distances_override_functions 2
                     (set_state (Some {| game_loop := 5 |})
                                (set_all_units [a; b] __init__))) in
  let below := S754_finite false 4503599728033792 4 in
  let above := S754_finite false 4503599728033793 4 in
  fst (_distance_squared_unit_to_unit_method0 example_libm a b self) = Ok (VFloat below) /\
  fst (_distance_squared_unit_to_unit_method2 a b self) = Ok (VFloat above) /\
  ordinal above - ordinal below = 1.
Proof. repeat split; vm_compute; reflexivity. Qed.

(** Two units in the last place are reached: at [(285990743, 621931212)]
    and [(0, 0)], on a platform whose [pow] rounds every inexact square up,
    strategy 0 returns the float two above the one of strategy 2. *)
Example direct_and_square_lookup_two_bits :
  let a := example_unit 1 285990743 621931212 0 in
  let b := example_unit 2 0 0 1 in
  let self := snd (_distances_override_functions 2
                     (set_state (Some {| game_loop := 5 |})
                                (set_all_units [a; b] __init__))) in
  let libm_up : PyMath.pow_rounding := fun _ => true in
  let direct := S754_finite false 7321705274085642 6 in
  let looked_up := S754_finite false 7321705274085640 6 in
  fst (_distance_squared_unit_to_unit_method0 libm_up a b self) = Ok (VFloat direct) /\
  fst (_distance_squared_unit_to_unit_method2 a b self) = Ok (VFloat looked_up) /\
  ordinal direct - ordinal looked_up = 2.
Proof. repeat split; vm_compute; reflexivity. Qed.

(** ** Distance of an entity with itself *)

(** C4. The squared distance of an entity with itself is zero under every
    strategy: under strategy 0 by the arithmetic, on finite coordinates;
    under strategy 1 by the shortcut on the tag, whatever the cache and the
    index are; under strategies 2 and 3 by the diagonal of the matrix, for an
    entity of the current set with finite coordinates. *)
Theorem self_distance_zero libm self a :
  (finite_position (position_tuple a) ->
     _distance_squared_unit_to_unit_method0 libm a a self = (Ok (VFloat F64.zero), self))
  /\
  _distance_squared_unit_to_unit_method1 a a self = (Ok (VInt 0), self)
  /\
  (finite_position (position_tuple a) -> indexed self a -> square_session self ->
     fst (_distance_squared_unit_to_unit_method2 a a self) = Ok (VFloat F64.zero) /\
     square_session (snd (_distance_squared_unit_to_unit_method2 a a self))).
Proof.
  split; [|split].
  - intros Hfin. unfold _distance_squared_unit_to_unit_method0, eval.
    now rewrite hypot_squared_diag.
  - unfold _distance_squared_unit_to_unit_method1. now rewrite Z.eqb_refl.
  - intros Hfin Ha Hs.
    destruct (square_session_lookup self a a Hs Ha Ha) as (self' & H2 & _ & Hs').
    rewrite H2. cbn [fst snd]. split; [|assumption].
    now rewrite sqeuclidean_diag.
Qed.

Lemma self_distance_zero_witness :
  let a := example_unit 11 3 4 1 in
  fst (_distance_squared_unit_to_unit_method0 example_libm a a (example_selected 0))
    = Ok (VFloat F64.zero) /\
  fst (_distance_squared_unit_to_unit_method1 a a (example_selected 1))
    = Ok (VInt 0) /\
  fst (_distance_squared_unit_to_unit_method2 a a (example_selected 2))
    = Ok (VFloat F64.zero) /\
  fst (_distance_squared_unit_to_unit_method2 a a (example_selected 3))
    = Ok (VFloat F64.zero).
Proof.
  intros a.
  assert (Hfin : finite_position (position_tuple a)) by (split; reflexivity).
  split; [|split; [|split]].
  - now rewrite (proj1 (self_distance_zero example_libm (example_selected 0) a) Hfin).
  - now rewrite (proj1 (proj2 (self_distance_zero example_libm (example_selected 1) a))).
  - apply (self_distance_zero example_libm (example_selected 2) a); auto.
    + split; [vm_compute; discriminate | reflexivity].
    + exact example_square_session.
  - apply (self_distance_zero example_libm (example_selected 3) a); auto.
    + split; [vm_compute; discriminate | reflexivity].
    + apply (square_session_start 3 example_self {| game_loop := 5 |});
        [now right | reflexivity | vm_compute; discriminate].
Defined.

(** ** The guard of the condensed lookup *)

Lemma method1_distinct self unit1 unit2 v k :
  tag unit1 <> tag unit2 ->
  _cached_pdist self = Some v ->
  square_to_condensed self (distance_calculation_index unit1)
                           (distance_calculation_index unit2) = Ok k ->
  _distance_squared_unit_to_unit_method1 unit1 unit2 self =
    if k <? Np.len v
    then bind _pdist (fun a => eval (fun _ => Np.getitem a k)) self
    else (Raise (AssertionError
                   (CondensedIndexTooLarge k (Np.len v) (tag unit1) (tag unit2))), self).
Proof.
  intros Htag Hv Hk.
  unfold _distance_squared_unit_to_unit_method1.
  apply Z.eqb_neq in Htag. rewrite Htag.
  unfold bind at 1. unfold eval at 1. rewrite Hk.
  unfold bind at 1. unfold eval at 1. rewrite Hv. cbn [of_option Np.len_value].
  unfold bind at 1. unfold eval at 1. unfold assert_.
  destruct (k <? Np.len v); reflexivity.
Qed.

(** C5, amended. For a strategy-1 query on two entities with distinct tags,
    made while a condensed vector is cached, the computed offset is asserted
    to be less than the length of that vector before the accessor is read.
    An offset that is equal to the length or larger aborts with the assertion
    error that carries the offset, the length and the two entities, and
    leaves the object as it is; a query that returns a value has passed the
    assertion; and with the cache current for the frame, an offset from [0]
    up to the length returns the entry of the vector at that offset. *)
Theorem condensed_lookup_guard self unit1 unit2 v k :
  tag unit1 <> tag unit2 ->
  _cached_pdist self = Some v ->
  square_to_condensed self (distance_calculation_index unit1)
                           (distance_calculation_index unit2) = Ok k ->
  (Np.len v <= k ->
     _distance_squared_unit_to_unit_method1 unit1 unit2 self =
       (Raise (AssertionError
                 (CondensedIndexTooLarge k (Np.len v) (tag unit1) (tag unit2))), self))
  /\
  (forall r self',
     _distance_squared_unit_to_unit_method1 unit1 unit2 self = (Ok r, self') ->
     k < Np.len v)
  /\
  (forall g, state self = Some g -> _generated_frame2 self = game_loop g ->
     0 <= k < Np.len v ->
     exists x, nth_error v (Z.to_nat k) = Some x /\
               _distance_squared_unit_to_unit_method1 unit1 unit2 self =
                 (Ok (VFloat x), self)).
Proof.
  intros Htag Hv Hk.
  pose proof (method1_distinct self unit1 unit2 v k Htag Hv Hk) as Hm.
  split; [|split].
  - intros Hge. rewrite Hm.
    replace (k <? Np.len v) with false by (symmetry; apply Z.ltb_ge; lia).
    reflexivity.
  - intros r self' Hok. rewrite Hm in Hok.
    destruct (Z.ltb_spec k (Np.len v)); [assumption | discriminate].
  - intros g Hg Hf Hb. rewrite Hm.
    replace (k <? Np.len v) with true by (symmetry; apply Z.ltb_lt; lia).
    unfold bind. rewrite (_pdist_fresh self g Hg Hf), Hv.
    cbn [of_option]. unfold eval, Np.getitem.
    destruct (nth_error v (Z.to_nat k)) as [x|] eqn:Hx.
    + exists x. split; [reflexivity|].
      now rewrite (item_nth_error v k x) by (lia || assumption).
    + apply nth_error_None in Hx. unfold Np.len in Hb. lia.
Qed.

(** An offset of 9 against the six cached distances aborts. *)
Lemma condensed_lookup_guard_witness :
  let a := example_unit 20 0 0 3 in
  let b := example_unit 21 0 0 7 in
  tag a <> tag b /\
  _cached_pdist example_condensed4 = Some (Scipy.pdist (positions example_condensed4)) /\
  square_to_condensed example_condensed4 3 7 = Ok 9 /\
  _distance_squared_unit_to_unit_method1 a b example_condensed4 =
    (Raise (AssertionError (CondensedIndexTooLarge 9 6 20 21)), example_condensed4).
Proof.
  intros a b.
  assert (Htag : tag a <> tag b) by (vm_compute; discriminate).
  split; [exact Htag|]. split; [reflexivity|]. split; [reflexivity|].
  apply (condensed_lookup_guard example_condensed4 a b
           (Scipy.pdist (positions example_condensed4)) 9 Htag eq_refl eq_refl).
  vm_compute. discriminate.
Defined.

(** C5, as stated, fails at an offset below zero. The cache is current for
    frame 7 and holds the six distances of four entities; two entities carry
    the indices 9 and 8 of an earlier frame, when the set was larger. Their
    offset is [-4], outside the vector; the assertion [-4 < 6] passes, the
    lookup counts from the end, and the query returns 9, the distance of the
    entities 0 and 3, with no error, while the two entities are at squared
    distance 10000. *)
Lemma condensed_lookup_guard_counterexample :
  tag stale_unit_a <> tag stale_unit_b /\
  state example_condensed4 = Some {| game_loop := 7 |} /\
  _generated_frame2 example_condensed4 = 7 /\
  _cached_pdist example_condensed4 = Some (Scipy.pdist (positions example_condensed4)) /\
  Np.len (Scipy.pdist (positions example_condensed4)) = 6 /\
  square_to_condensed example_condensed4
    (distance_calculation_index stale_unit_a)
    (distance_calculation_index stale_unit_b) = Ok (-4) /\
  _distance_squared_unit_to_unit_method1 stale_unit_a stale_unit_b example_condensed4 =
    (Ok (VFloat (F64.of_Z 9)), example_condensed4) /\
  (forall libm,
     _distance_squared_unit_to_unit_method0 libm stale_unit_a stale_unit_b
       example_condensed4 =
     (Ok (VFloat (F64.of_Z 10000)), example_condensed4)).
Proof.
  split; [vm_compute; discriminate|].
  repeat (split; [vm_compute; reflexivity|]).
  intros libm. vm_compute; reflexivity.
Qed.

(** ** The condensed strategy on a current cache *)

Lemma method1_current self g unit1 unit2 v x :
  state self = Some g -> _generated_frame2 self = game_loop g ->
  _cached_pdist self = Some v ->
  tag unit1 <> tag unit2 ->
  distance_calculation_index unit1 <> distance_calculation_index unit2 ->
  let k := condensed_offset (_units_count self)
             (Z.max (distance_calculation_index unit1) (distance_calculation_index unit2))
             (Z.min (distance_calculation_index unit1) (distance_calculation_index unit2)) in
  0 <= k -> nth_error v (Z.to_nat k) = Some x ->
  _distance_squared_unit_to_unit_method1 unit1 unit2 self = (Ok (VFloat x), self).
Proof.
  intros Hg Hf Hv Htag Hidx k Hk Hx.
  rewrite (method1_distinct self unit1 unit2 v k Htag Hv
             (square_to_condensed_distinct self _ _ Hidx)).
  assert (Hlt : (Z.to_nat k < length v)%nat) by (apply nth_error_Some; congruence).
  replace (k <? Np.len v) with true
    by (symmetry; apply Z.ltb_lt; unfold Np.len; lia).
  unfold bind. rewrite (_pdist_fresh self g Hg Hf), Hv.
  cbn [of_option]. unfold eval, Np.getitem.
  now rewrite (item_nth_error v k x Hk Hx).
Qed.

(** With the condensed vector of the current entity set in the cache, two
    entities that stand at their indices pass the guard, and the lookup
    returns the distance [pdist] computed for them, in either order of the
    arguments. *)
Lemma condensed_lookup_current self g unit1 unit2 :
  state self = Some g -> _generated_frame2 self = game_loop g ->
  _cached_pdist self = Some (Scipy.pdist (positions self)) ->
  indexed self unit1 -> indexed self unit2 ->
  tag unit1 <> tag unit2 ->
  distance_calculation_index unit1 < distance_calculation_index unit2 ->
  let d := Scipy.sqeuclidean (position_tuple unit1) (position_tuple unit2) in
  _distance_squared_unit_to_unit_method1 unit1 unit2 self = (Ok (VFloat d), self) /\
  _distance_squared_unit_to_unit_method1 unit2 unit1 self = (Ok (VFloat d), self).
Proof.
  intros Hg Hf Hv [H1 Hn1] [H2 Hn2] Htag Hlt d.
  set (i1 := distance_calculation_index unit1) in *.
  set (i2 := distance_calculation_index unit2) in *.
  assert (Hi2 : (Z.to_nat i2 < length (all_units self))%nat)
    by (apply nth_error_Some; congruence).
  pose proof (pdist_at_condensed_offset (positions self) (Z.to_nat i2) (Z.to_nat i1)
                (position_tuple unit1) (position_tuple unit2) ltac:(lia)
                (positions_nth_error _ _ _ Hn1) (positions_nth_error _ _ _ Hn2)) as Hnth.
  rewrite positions_len, !Z2Nat.id in Hnth by lia.
  pose proof (condensed_offset_bounds (_units_count self) i2 i1 ltac:(lia)
                ltac:(unfold _units_count, Np.len; lia)) as Hb.
  split.
  - apply (method1_current self g unit1 unit2 _ d Hg Hf Hv Htag); fold i1 i2.
    + lia.
    + rewrite Z.max_r, Z.min_l by lia. lia.
    + rewrite Z.max_r, Z.min_l by lia. exact Hnth.
  - apply (method1_current self g unit2 unit1 _ d Hg Hf Hv); fold i1 i2.
    + auto.
    + lia.
    + rewrite Z.max_l, Z.min_r by lia. lia.
    + rewrite Z.max_l, Z.min_r by lia. exact Hnth.
Qed.

(** The assertion reads [_cached_pdist] itself, not the accessor: on a new
    object the first query of strategy 1 finds [None] there and raises
    [TypeError] before anything is built. *)
Example method1_before_first_build :
  fst (_distance_squared_unit_to_unit_method1
         (example_unit 10 0 0 0) (example_unit 12 0 4 2) (example_selected 1))
  = Raise TypeError.
Proof. reflexivity. Qed.

(** * Further properties *)

(** ** Symmetry of the float arithmetic *)

Lemma binary_round_aux_negb s m e l :
  binary_round_aux F64.prec F64.emax (negb s) m e l =
  SFopp (binary_round_aux F64.prec F64.emax s m e l).
Proof.
  unfold binary_round_aux.
  destruct (shr_fexp _ _ _ _ _) as [mrs' e'].
  destruct (shr_fexp _ _ _ _ _) as [mrs'' e''].
  destruct (shr_m mrs''); try reflexivity.
  now destruct (_ <=? _).
Qed.

Lemma binary_normalize_opp m e :
  binary_normalize F64.prec F64.emax (- m) e false =
    SFopp (binary_normalize F64.prec F64.emax m e false)
  \/ m = 0.
Proof.
  destruct m as [|p|p]; [now right| |]; left; unfold binary_normalize, binary_round;
    cbn [Z.opp]; destruct (shl_align _ _ _) as [mz ez].
  - apply (binary_round_aux_negb false).
  - change false with (negb true) at 1. rewrite binary_round_aux_negb.
    now destruct (binary_round_aux _ _ _ _ _ _).
Qed.

(** Swapping the operands of a subtraction flips the sign of the result, or
    both results are zeros. *)
Lemma F64_sub_swap x y :
  F64.sub y x = SFopp (F64.sub x y)
  \/ exists s s', F64.sub x y = S754_zero s /\ F64.sub y x = S754_zero s'.
Proof.
  destruct x as [sx|sx| |sx mx ex]; destruct y as [sy|sy| |sy my ey];
    try (left; reflexivity);
    try (left; destruct sx, sy; reflexivity);
    try (left; destruct sx; reflexivity);
    try (left; destruct sy; reflexivity).
  - right. destruct sx, sy; eexists; eexists; split; reflexivity.
  - unfold F64.sub, SFsub. rewrite (Z.min_comm ey ex).
    set (ez := Z.min ex ey).
    set (a := cond_Zopp sx (Z.pos (fst (shl_align mx ex ez)))).
    set (b := cond_Zopp sy (Z.pos (fst (shl_align my ey ez)))).
    replace (b - a) with (- (a - b)) by lia.
    destruct (binary_normalize_opp (a - b) ez) as [H|H].
    + now left.
    + right. rewrite H. exists false, false. split; reflexivity.
Qed.

Lemma F64_mul_opp d : F64.mul (SFopp d) (SFopp d) = F64.mul d d.
Proof.
  destruct d as [s|s| |s m e]; try (now destruct s); reflexivity.
Qed.

(** [pow] looks at the magnitude of its argument only, whatever the last
    bit the platform gives it. *)
Lemma pow_2_opp libm d : PyMath.pow_2 libm (SFopp d) = PyMath.pow_2 libm d.
Proof.
  destruct d as [s|s| |s m e]; reflexivity.
Qed.

Lemma pow_2_sub_swap libm x y :
  PyMath.pow_2 libm (F64.sub y x) = PyMath.pow_2 libm (F64.sub x y).
Proof.
  destruct (F64_sub_swap x y) as [H|(s & s' & H1 & H2)].
  - rewrite H. apply pow_2_opp.
  - rewrite H1, H2. reflexivity.
Qed.

Lemma F64_square_sub_swap x y :
  F64.mul (F64.sub y x) (F64.sub y x) = F64.mul (F64.sub x y) (F64.sub x y).
Proof.
  destruct (F64_sub_swap x y) as [H|(s & s' & H1 & H2)].
  - rewrite H. apply F64_mul_opp.
  - rewrite H1, H2. now destruct s, s'.
Qed.

Lemma sqeuclidean_sym u v : Scipy.sqeuclidean u v = Scipy.sqeuclidean v u.
Proof.
  unfold Scipy.sqeuclidean. cbv zeta.
  now rewrite (F64_square_sub_swap (fst u) (fst v)), (F64_square_sub_swap (snd u) (snd v)).
Qed.

Lemma hypot_squared_sym libm p1 p2 :
  distance_math_hypot_squared libm p1 p2 = distance_math_hypot_squared libm p2 p1.
Proof.
  unfold distance_math_hypot_squared.
  now rewrite (pow_2_sub_swap libm (fst p1) (fst p2)),
              (pow_2_sub_swap libm (snd p1) (snd p2)).
Qed.

(** ** Squared distances are never negative *)

Lemma shr_1_nonneg mrs : 0 <= shr_m mrs -> 0 <= shr_m (shr_1 mrs).
Proof.
  destruct mrs as [m r s]. simpl.
  destruct m as [|p|p]; simpl; try lia; destruct p; simpl; lia.
Qed.

Lemma iter_shr_1_nonneg p :
  forall mrs, 0 <= shr_m mrs -> 0 <= shr_m (iter_pos shr_1 p mrs).
Proof.
  induction p as [p IH|p IH|]; intros mrs H; simpl.
  - apply IH, IH, shr_1_nonneg, H.
  - apply IH, IH, H.
  - apply shr_1_nonneg, H.
Qed.

Lemma shr_fexp_nonneg m e l :
  0 <= m -> 0 <= shr_m (fst (shr_fexp F64.prec F64.emax m e l)).
Proof.
  intros Hm. unfold shr_fexp, shr.
  assert (H0 : 0 <= shr_m (shr_record_of_loc m l))
    by (destruct l as [|[]]; exact Hm).
  destruct (fexp _ _ _ - e); simpl; auto using iter_shr_1_nonneg.
Qed.

Lemma round_nearest_even_nonneg m l : 0 <= m -> 0 <= round_nearest_even m l.
Proof.
  intros Hm. unfold round_nearest_even.
  destruct l as [|[]]; try destruct (Z.even m); lia.
Qed.

(** Rounding a mantissa that is zero or more, with the sign of a positive
    number, gives a float that is zero or more. *)
Lemma binary_round_aux_nonneg m e l :
  0 <= m -> nonneg_number (binary_round_aux F64.prec F64.emax false m e l).
Proof.
  intros Hm. unfold binary_round_aux.
  pose proof (shr_fexp_nonneg m e l Hm) as H1.
  destruct (shr_fexp F64.prec F64.emax m e l) as [mrs' e'].
  simpl in H1.
  pose proof (shr_fexp_nonneg _ e' loc_Exact
                (round_nearest_even_nonneg _ (loc_of_shr_record mrs') H1)) as H2.
  destruct (shr_fexp F64.prec F64.emax _ e' loc_Exact) as [mrs'' e''].
  simpl in H2.
  destruct (shr_m mrs''); try exact I; try lia.
  now destruct (_ <=? _).
Qed.

Lemma binary_round_aux_not_nan s m e l :
  0 <= m -> binary_round_aux F64.prec F64.emax s m e l <> S754_nan.
Proof.
  intros Hm.
  pose proof (binary_round_aux_nonneg m e l Hm) as H.
  destruct s.
  - change true with (negb false). rewrite binary_round_aux_negb.
    destruct (binary_round_aux _ _ _ _ _ _); try discriminate. contradiction.
  - destruct (binary_round_aux _ _ _ _ _ _); try discriminate. contradiction.
Qed.

Lemma F64_sub_not_nan x y :
  F64.is_finite x = true -> F64.is_finite y = true -> F64.sub x y <> S754_nan.
Proof.
  intros Hx Hy.
  destruct x as [sx|sx| |sx mx ex]; try discriminate;
    destruct y as [sy|sy| |sy my ey]; try discriminate.
  - destruct sx, sy; discriminate.
  - unfold F64.sub, SFsub.
    set (z := _ - _). unfold binary_normalize, binary_round.
    destruct z as [|p|p]; try discriminate;
      destruct (shl_align p _ _) as [mz ez];
      apply binary_round_aux_not_nan; lia.
Qed.

Lemma F64_square_nonneg x : x <> S754_nan -> nonneg_number (F64.mul x x).
Proof.
  destruct x as [s|s| |s m e]; intros Hx; try (now destruct s); try contradiction.
  unfold F64.mul, SFmul. rewrite xorb_nilpotent.
  apply binary_round_aux_nonneg. lia.
Qed.

Lemma F64_add_nonneg x y :
  nonneg_number x -> nonneg_number y -> nonneg_number (F64.add x y).
Proof.
  intros Hx Hy.
  destruct x as [[]|[]| |[] mx ex]; try contradiction;
    destruct y as [[]|[]| |[] my ey]; try contradiction; try exact I.
  unfold F64.add, SFadd, cond_Zopp.
  set (z := _ + _). assert (Hz : 0 < z) by (unfold z; lia).
  unfold binary_normalize, binary_round.
  destruct z as [|p|p]; try lia.
  destruct (shl_align p _ _) as [mz ez]. apply binary_round_aux_nonneg. lia.
Qed.

Lemma round_faithful_nonneg up m l : 0 <= m -> 0 <= PyMath.round_faithful up m l.
Proof.
  intros Hm. unfold PyMath.round_faithful.
  destruct l; [|destruct up]; lia.
Qed.

Lemma binary_round_aux_faithful_nonneg up m e l :
  0 <= m -> nonneg_number (PyMath.binary_round_aux_faithful up false m e l).
Proof.
  intros Hm. unfold PyMath.binary_round_aux_faithful.
  pose proof (shr_fexp_nonneg m e l Hm) as H1.
  destruct (shr_fexp F64.prec F64.emax m e l) as [mrs' e'].
  simpl in H1.
  pose proof (shr_fexp_nonneg _ e' loc_Exact
                (round_faithful_nonneg up _ (loc_of_shr_record mrs') H1)) as H2.
  destruct (shr_fexp F64.prec F64.emax _ e' loc_Exact) as [mrs'' e''].
  simpl in H2.
  destruct (shr_m mrs''); try exact I; try lia.
  now destruct (_ <=? _).
Qed.

(** Whatever the last bit, the square [pow] returns is zero or more. *)
Lemma pow_2_nonneg libm x r :
  x <> S754_nan -> PyMath.pow_2 libm x = Ok r -> nonneg_number r.
Proof.
  intros Hx. unfold PyMath.pow_2.
  assert (Hsq : nonneg_number (PyMath.square (libm (SFabs x)) x)).
  { destruct x as [s|s| |s m e]; try exact I; try contradiction.
    unfold PyMath.square. apply binary_round_aux_faithful_nonneg. lia. }
  destruct x as [s|s| |s m e]; try contradiction;
    destruct (PyMath.square _ _); intros H; inversion H; subst; exact Hsq.
Qed.

Lemma hypot_squared_nonneg libm p1 p2 d :
  finite_position p1 -> finite_position p2 ->
  distance_math_hypot_squared libm p1 p2 = Ok d -> nonneg_number d.
Proof.
  intros [Hx1 Hy1] [Hx2 Hy2]. unfold distance_math_hypot_squared.
  destruct (PyMath.pow_2 libm (F64.sub (fst p1) (fst p2))) as [a|] eqn:Ha;
    [|discriminate].
  destruct (PyMath.pow_2 libm (F64.sub (snd p1) (snd p2))) as [b|] eqn:Hb;
    [|discriminate].
  cbn [rbind]. intros H. inversion H; subst d.
  apply F64_add_nonneg.
  - apply (pow_2_nonneg libm (F64.sub (fst p1) (fst p2)) a);
      [apply F64_sub_not_nan|]; assumption.
  - apply (pow_2_nonneg libm (F64.sub (snd p1) (snd p2)) b);
      [apply F64_sub_not_nan|]; assumption.
Qed.

Lemma sqeuclidean_nonneg p1 p2 :
  finite_position p1 -> finite_position p2 ->
  nonneg_number (Scipy.sqeuclidean p1 p2).
Proof.
  intros [Hx1 Hy1] [Hx2 Hy2]. unfold Scipy.sqeuclidean. cbv zeta.
  rewrite F64_add_zero_square.
  apply F64_add_nonneg; apply F64_square_nonneg, F64_sub_not_nan; assumption.
Qed.

(** ** More on the direct strategy *)

(** X1. The direct strategy does not depend on the order of its arguments,
    whatever the last bit the platform gives [pow]: with the entities swapped
    it returns the same float, or raises the same error; it never changes
    the object; and it either returns a float or raises [OverflowError],
    nothing else. *)
Theorem direct_distance_symmetric libm unit1 unit2 self :
  _distance_squared_unit_to_unit_method0 libm unit1 unit2 self =
    _distance_squared_unit_to_unit_method0 libm unit2 unit1 self
  /\
  snd (_distance_squared_unit_to_unit_method0 libm unit1 unit2 self) = self
  /\
  ((exists d,
      fst (_distance_squared_unit_to_unit_method0 libm unit1 unit2 self) = Ok (VFloat d))
   \/
   fst (_distance_squared_unit_to_unit_method0 libm unit1 unit2 self) =
     Raise OverflowError).
Proof.
  split; [|split].
  - unfold _distance_squared_unit_to_unit_method0, eval.
    now rewrite hypot_squared_sym.
  - reflexivity.
  - destruct (method0_returns_or_overflows libm unit1 unit2 self) as [[d H]|H];
      rewrite H; [left; now exists d | now right].
Qed.

Lemma cdist_nonneg X Y :
  Forall finite_position X -> Forall finite_position Y ->
  Forall (Forall nonneg_number) (Scipy.cdist X Y).
Proof.
  intros HX HY. unfold Scipy.cdist.
  apply Forall_map. apply Forall_forall. intros u Hu.
  apply Forall_map. apply Forall_forall. intros v Hv.
  rewrite Forall_forall in HX, HY. apply sqeuclidean_nonneg; auto.
Qed.

Lemma pdist_nonneg X :
  Forall finite_position X -> Forall nonneg_number (Scipy.pdist X).
Proof.
  induction X as [|u rest IH]; intros HX; [constructor|].
  inversion HX; subst. simpl. apply Forall_app. split; [|auto].
  apply Forall_map. apply Forall_forall. intros v Hv.
  rewrite Forall_forall in H2. apply sqeuclidean_nonneg; auto.
Qed.

(** X2. On finite coordinates no squared distance is negative, a negative
    zero or a NaN: neither the float the direct strategy returns, nor any
    entry of the vector and of the matrices the three builds cache. *)
Theorem squared_distances_nonnegative libm self :
  (forall unit1 unit2 d,
     finite_position (position_tuple unit1) ->
     finite_position (position_tuple unit2) ->
     fst (_distance_squared_unit_to_unit_method0 libm unit1 unit2 self) = Ok (VFloat d) ->
     nonneg_number d)
  /\
  (forall g, state self = Some g ->
     Forall (fun unit => finite_position (position_tuple unit)) (all_units self) ->
     (exists v, fst (_calculate_distances_method1 self) = Ok (VVec v) /\
                Forall nonneg_number v) /\
     (exists m, fst (_calculate_distances_method2 self) = Ok (VMat m) /\
                Forall (Forall nonneg_number) m) /\
     (exists m, fst (_calculate_distances_method3 self) = Ok (VMat m) /\
                Forall (Forall nonneg_number) m)).
Proof.
  split.
  - intros unit1 unit2 d H1 H2 Hd.
    unfold _distance_squared_unit_to_unit_method0, eval in Hd. cbn [fst] in Hd.
    destruct (distance_math_hypot_squared _ _) as [d'|] eqn:Hh; [|discriminate].
    cbn [rbind] in Hd. inversion Hd; subst d'.
    now apply (hypot_squared_nonneg libm _ _ d H1 H2).
  - intros g Hg Hfin.
    assert (HP : Forall finite_position (positions self)).
    { unfold positions. apply Forall_map. exact Hfin. }
    rewrite (_calculate_distances_method1_eq self g Hg),
            (_calculate_distances_method2_eq self g Hg),
            (_calculate_distances_method3_eq self g Hg).
    cbn [fst]. repeat split; eexists; (split; [reflexivity|]);
      auto using pdist_nonneg, cdist_nonneg.
Qed.

Lemma squared_distances_nonnegative_witness :
  Forall (fun unit => finite_position (position_tuple unit)) (all_units example_self) /\
  exists v, fst (_calculate_distances_method1 example_self) = Ok (VVec v) /\
            Forall nonneg_number v.
Proof.
  assert (Hfin : Forall (fun unit => finite_position (position_tuple unit))
                        (all_units example_self))
    by (repeat constructor).
  split; [exact Hfin|].
  apply (proj2 (squared_distances_nonnegative example_libm example_self)
               {| game_loop := 5 |} eq_refl Hfin).
Defined.

(** ** More on the builds *)

Lemma build_without_state (build : Method value) self :
  build = _calculate_distances_method1 \/ build = _calculate_distances_method2 \/
  build = _calculate_distances_method3 ->
  state self = None ->
  build self = (Raise (AttributeError "game_loop"), self).
Proof.
  intros [-> | [-> | ->]] Hs;
    unfold _calculate_distances_method1, _calculate_distances_method2,
      _calculate_distances_method3, bind, eval, state_game_loop;
    now rewrite Hs.
Qed.

(** X3. The unchecked build is the checked square build: on every object the
    two return the same result and leave the same object, so the assertion
    the third build drops never changes an outcome. *)
Theorem unchecked_build_same self :
  _calculate_distances_method3 self = _calculate_distances_method2 self.
Proof.
  destruct (state self) as [g|] eqn:Hs.
  - now rewrite (_calculate_distances_method2_eq self g Hs),
                (_calculate_distances_method3_eq self g Hs).
  - rewrite (build_without_state _calculate_distances_method2 self) by auto.
    now rewrite (build_without_state _calculate_distances_method3 self) by auto.
Qed.

Lemma cdist_shape X Y :
  Np.len (Scipy.cdist X Y) = Np.len X /\
  Forall (fun row => Np.len row = Np.len Y) (Scipy.cdist X Y).
Proof.
  unfold Scipy.cdist, Np.len. rewrite length_map. split; [reflexivity|].
  apply Forall_map, Forall_forall. intros u _. now rewrite length_map.
Qed.

(** X4. In a running game the square build returns and caches an [N x N]
    matrix whose entry [i, j] is the squared distance of the entities at the
    places [i] and [j] of [all_units]; it stamps the frame and leaves the
    entity set as it is. *)
Theorem square_build_entries self g (i j : nat) unit_i unit_j :
  state self = Some g ->
  nth_error (all_units self) i = Some unit_i ->
  nth_error (all_units self) j = Some unit_j ->
  exists m self',
    _calculate_distances_method2 self = (Ok (VMat m), self') /\
    _cached_cdist self' = Some m /\
    _generated_frame2 self' = game_loop g /\
    all_units self' = all_units self /\
    Np.len m = _units_count self /\
    Forall (fun row => Np.len row = _units_count self) m /\
    Np.getitem2 (VMat m) (Z.of_nat i) (Z.of_nat j) =
      Ok (VFloat (Scipy.sqeuclidean (position_tuple unit_i) (position_tuple unit_j))).
Proof.
  intros Hg Hi Hj.
  rewrite (_calculate_distances_method2_eq self g Hg).
  eexists; eexists. split; [reflexivity|].
  destruct (cdist_shape (positions self) (positions self)) as [Hlen Hrows].
  rewrite positions_len in Hlen, Hrows.
  repeat (split; [reflexivity || assumption|]).
  apply cdist_getitem2; try lia; rewrite Nat2Z.id; now apply positions_nth_error.
Qed.

Lemma square_build_entries_witness :
  exists m self',
    _calculate_distances_method2 example_self = (Ok (VMat m), self') /\
    Np.getitem2 (VMat m) 1 2 = Ok (VFloat (F64.of_Z 9)).
Proof.
  destruct (square_build_entries example_self {| game_loop := 5 |} 1 2
              (example_unit 11 3 4 1) (example_unit 12 0 4 2)
              eq_refl eq_refl eq_refl)
    as (m & self' & Hb & _ & _ & _ & _ & _ & Hget).
  exists m, self'. split; [exact Hb|]. exact Hget.
Defined.

(** X5. In a running game the condensed build returns and caches the
    vector in which [square_to_condensed] finds each pair: for two places
    [i < j] of [all_units] the offset is the same in both orders of the
    indices, lies inside the vector, and the entry there is the squared
    distance of the two entities. *)
Theorem condensed_build_round_trip self g (i j : nat) unit_i unit_j :
  state self = Some g ->
  (i < j)%nat ->
  nth_error (all_units self) i = Some unit_i ->
  nth_error (all_units self) j = Some unit_j ->
  exists v self' k,
    _calculate_distances_method1 self = (Ok (VVec v), self') /\
    _cached_pdist self' = Some v /\
    _generated_frame2 self' = game_loop g /\
    square_to_condensed self' (Z.of_nat i) (Z.of_nat j) = Ok k /\
    square_to_condensed self' (Z.of_nat j) (Z.of_nat i) = Ok k /\
    0 <= k < Np.len v /\
    Np.getitem (VVec v) k =
      Ok (VFloat (Scipy.sqeuclidean (position_tuple unit_i) (position_tuple unit_j))).
Proof.
  intros Hg Hlt Hi Hj.
  rewrite (_calculate_distances_method1_eq self g Hg).
  set (self' := built Bound_calculate_method1 (game_loop g) self).
  set (k := condensed_offset (_units_count self) (Z.of_nat j) (Z.of_nat i)).
  exists (Scipy.pdist (positions self)), self', k.
  assert (Hj' : (j < length (all_units self))%nat)
    by (apply nth_error_Some; congruence).
  assert (Hb : 0 <= k < Np.len (Scipy.pdist (positions self))).
  { rewrite pdist_length, positions_len.
    apply condensed_offset_bounds; unfold _units_count, Np.len; lia. }
  split; [reflexivity|]. split; [reflexivity|]. split; [reflexivity|].
  split; [|split; [|split; [exact Hb|]]].
  - rewrite (square_to_condensed_distinct self') by lia.
    rewrite Z.max_r, Z.min_l by lia. reflexivity.
  - rewrite (square_to_condensed_distinct self') by lia.
    rewrite Z.max_l, Z.min_r by lia. reflexivity.
  - unfold Np.getitem.
    rewrite (item_nth_error _ k (Scipy.sqeuclidean (position_tuple unit_i)
                                                   (position_tuple unit_j)));
      [reflexivity | lia |].
    unfold k. rewrite <- positions_len.
    apply pdist_at_condensed_offset; auto using positions_nth_error.
Qed.

Lemma condensed_build_round_trip_witness :
  exists v self',
    _calculate_distances_method1 example_self = (Ok (VVec v), self') /\
    square_to_condensed self' 1 2 = Ok 2 /\
    Np.getitem (VVec v) 2 = Ok (VFloat (F64.of_Z 9)).
Proof.
  destruct (condensed_build_round_trip example_self {| game_loop := 5 |} 1 2
              (example_unit 11 3 4 1) (example_unit 12 0 4 2)
              eq_refl ltac:(lia) eq_refl eq_refl)
    as (v & self' & k & Hb & _ & _ & Hk & _ & _ & Hget).
  assert (E : self' = snd (_calculate_distances_method1 example_self))
    by now rewrite Hb.
  assert (Hk2 : k = 2).
  { rewrite E in Hk. vm_compute in Hk. now inversion Hk. }
  subst k. exists v, self'. auto.
Defined.

(** X6. On an empty entity set, in a running game, the three builds raise
    nothing: the condensed build returns the empty vector and the square
    builds the empty matrix, and each caches it. *)
Theorem builds_on_empty_set self g :
  state self = Some g ->
  all_units self = [] ->
  _calculate_distances_method1 self =
    (Ok (VVec []), set_cached_pdist [] (set_generated_frame2 (game_loop g) self)) /\
  _calculate_distances_method2 self =
    (Ok (VMat []), set_cached_cdist [] (set_generated_frame2 (game_loop g) self)) /\
  _calculate_distances_method3 self =
    (Ok (VMat []), set_cached_cdist [] (set_generated_frame2 (game_loop g) self)).
Proof.
  intros Hg Hu.
  rewrite (_calculate_distances_method1_eq self g Hg),
          (_calculate_distances_method2_eq self g Hg),
          (_calculate_distances_method3_eq self g Hg).
  unfold built, positions. rewrite Hu. repeat split.
Qed.

Lemma builds_on_empty_set_witness :
  fst (_calculate_distances_method1 (set_state (Some {| game_loop := 0 |}) __init__))
    = Ok (VVec []).
Proof.
  now rewrite (proj1 (builds_on_empty_set
                        (set_state (Some {| game_loop := 0 |}) __init__)
                        {| game_loop := 0 |} eq_refl eq_refl)).
Defined.

(** X7. Before the bot has set [self.state], the two accessors and the three
    builds raise [AttributeError] and change nothing: the frame is not
    stamped and no cache is written. *)
Theorem nothing_runs_without_state self :
  state self = None ->
  _pdist self = (Raise (AttributeError "game_loop"), self) /\
  _cdist self = (Raise (AttributeError "game_loop"), self) /\
  _calculate_distances_method1 self = (Raise (AttributeError "game_loop"), self) /\
  _calculate_distances_method2 self = (Raise (AttributeError "game_loop"), self) /\
  _calculate_distances_method3 self = (Raise (AttributeError "game_loop"), self) /\
  (forall unit1 unit2,
     _distance_squared_unit_to_unit_method2 unit1 unit2 self =
       (Raise (AttributeError "game_loop"), self)).
Proof.
  intros Hs.
  assert (Hp : _pdist self = (Raise (AttributeError "game_loop"), self))
    by (unfold _pdist, bind, eval, state_game_loop; now rewrite Hs).
  assert (Hc : _cdist self = (Raise (AttributeError "game_loop"), self))
    by (unfold _cdist, bind, eval, state_game_loop; now rewrite Hs).
  repeat split; auto using build_without_state.
  intros unit1 unit2. unfold _distance_squared_unit_to_unit_method2, bind.
  now rewrite Hc.
Qed.

Lemma nothing_runs_without_state_witness :
  _cdist __init__ = (Raise (AttributeError "game_loop"), __init__).
Proof.
  apply (nothing_runs_without_state __init__ eq_refl).
Defined.

(** ** More on the condensed index *)

(** A pair with the smaller low index comes first in the condensed vector. *)
Lemma condensed_offset_lt N i j i' j' :
  0 <= j < j' -> j < i < N -> j' < i' < N ->
  condensed_offset N i j < condensed_offset N i' j'.
Proof.
  intros Hj Hi Hi'. unfold condensed_offset.
  pose proof (twice_triangle j) as Tj.
  pose proof (twice_triangle j') as Tj'.
  set (T := j * (j + 1) / 2) in *. set (T' := j' * (j' + 1) / 2) in *.
  assert (H1 : 0 <= (j' - j - 1) * (N - j' - 2))
    by (apply Z.mul_nonneg_nonneg; lia).
  assert (H2 : 0 <= (j' - j - 1) * (j' - j))
    by (apply Z.mul_nonneg_nonneg; lia).
  nia.
Qed.

Lemma condensed_offset_inj N i j i' j' :
  0 <= j < i -> i < N -> 0 <= j' < i' -> i' < N ->
  condensed_offset N i j = condensed_offset N i' j' ->
  i = i' /\ j = j'.
Proof.
  intros Hj Hi Hj' Hi' Heq.
  destruct (Z.lt_trichotomy j j') as [Hlt | [-> | Hgt]].
  - pose proof (condensed_offset_lt N i j i' j'). lia.
  - unfold condensed_offset in Heq. lia.
  - pose proof (condensed_offset_lt N i' j' i j). lia.
Qed.

(** X8. On indices of the current set the index mapping is a one-to-one
    map into the condensed vector: two distinct indices in [0, N) get an
    offset in [0, N(N-1)/2), and two pairs get the same offset only if they
    are the same pair, in one order or the other. *)
Theorem square_to_condensed_one_to_one self i j i' j' :
  let N := _units_count self in
  0 <= i < N -> 0 <= j < N -> i <> j ->
  0 <= i' < N -> 0 <= j' < N -> i' <> j' ->
  (exists k, square_to_condensed self i j = Ok k /\ 0 <= k < N * (N - 1) / 2) /\
  (square_to_condensed self i j = square_to_condensed self i' j' ->
   (i = i' /\ j = j') \/ (i = j' /\ j = i')).
Proof.
  intros N Hi Hj Hij Hi' Hj' Hij'.
  rewrite (square_to_condensed_distinct self i j Hij),
          (square_to_condensed_distinct self i' j' Hij').
  fold N. split.
  - eexists. split; [reflexivity|]. apply condensed_offset_bounds; lia.
  - intros Heq. inversion Heq as [Hk].
    apply condensed_offset_inj in Hk; lia.
Qed.

Lemma square_to_condensed_one_to_one_witness :
  (exists k, square_to_condensed example_self 2 0 = Ok k /\ 0 <= k < 3) /\
  (square_to_condensed example_self 2 0 = square_to_condensed example_self 0 2 ->
   (2 = 0 /\ 0 = 2) \/ (2 = 2 /\ 0 = 0)).
Proof.
  apply (square_to_condensed_one_to_one example_self 2 0 0 2);
    change (_units_count example_self) with 3; lia.
Defined.

(** ** More on the cached strategies *)

Lemma item_out_of_range {A} (a : list A) k :
  k < - Np.len a \/ Np.len a <= k -> Np.item a k = Raise IndexError.
Proof.
  intros Hk. unfold Np.item, Np.axis_index.
  assert (Hlen : 0 <= Np.len a) by (unfold Np.len; lia).
  replace ((0 <=? k) && (k <? Np.len a)) with false
    by (symmetry; apply andb_false_iff;
        destruct Hk; [left; apply Z.leb_gt | right; apply Z.ltb_ge]; lia).
  replace ((- Np.len a <=? k) && (k <? 0)) with false
    by (symmetry; apply andb_false_iff;
        destruct Hk; [left; apply Z.leb_gt | right; apply Z.ltb_ge]; lia).
  reflexivity.
Qed.

Lemma item_at {A} (a : list A) k x :
  - Np.len a <= k < Np.len a ->
  nth_error a (Z.to_nat (if k <? 0 then k + Np.len a else k)) = Some x ->
  Np.item a k = Ok x.
Proof.
  intros Hk. unfold Np.item, Np.axis_index.
  destruct (Z.ltb_spec k 0) as [Hneg|Hpos]; intros Hx.
  - assert (E1 : (0 <=? k) = false) by (apply Z.leb_gt; lia).
    assert (E2 : (- Np.len a <=? k) = true) by (apply Z.leb_le; lia).
    rewrite E1, E2. cbn [andb rbind]. now rewrite Hx.
  - assert (E1 : (0 <=? k) = true) by (apply Z.leb_le; lia).
    assert (E2 : (k <? Np.len a) = true) by (apply Z.ltb_lt; lia).
    rewrite E1, E2. cbn [andb rbind]. now rewrite Hx.
Qed.

Lemma item_in {A} (a : list A) k x : Np.item a k = Ok x -> In x a.
Proof.
  unfold Np.item. destruct (Np.axis_index (Np.len a) k) as [n|]; [|discriminate].
  cbn [rbind]. destruct (nth_error a n) eqn:Hn; [|discriminate].
  intros H. inversion H; subst. eapply nth_error_In; eauto.
Qed.

Lemma indexed_distinct self unit1 unit2 :
  indexed self unit1 -> indexed self unit2 -> tag unit1 <> tag unit2 ->
  distance_calculation_index unit1 <> distance_calculation_index unit2.
Proof.
  intros [_ H1] [_ H2] Htag Heq. rewrite Heq in H1. congruence.
Qed.

Lemma condensed_cache_current_after_build self g :
  state self = Some g ->
  condensed_cache_current (snd (_calculate_distances_method1 self)).
Proof.
  intros Hg. rewrite (_calculate_distances_method1_eq self g Hg).
  exists g. repeat split; assumption.
Qed.

(** X9. With the condensed vector of the current set cached for the frame,
    strategy 1 answers every pair of entities of the set that have distinct
    tags: it raises nothing, leaves the object as it is, and returns the
    same float in both orders of the arguments, the squared distance the
    kernel of [pdist] computes from the two positions. *)
Theorem condensed_strategy_valid_pair self unit1 unit2 :
  condensed_cache_current self ->
  indexed self unit1 -> indexed self unit2 -> tag unit1 <> tag unit2 ->
  exists d,
    d = Scipy.sqeuclidean (position_tuple unit1) (position_tuple unit2) /\
    _distance_squared_unit_to_unit_method1 unit1 unit2 self = (Ok (VFloat d), self) /\
    _distance_squared_unit_to_unit_method1 unit2 unit1 self = (Ok (VFloat d), self).
Proof.
  intros (g & Hg & Hf & Hv) H1 H2 Htag.
  pose proof (indexed_distinct self unit1 unit2 H1 H2 Htag) as Hidx.
  exists (Scipy.sqeuclidean (position_tuple unit1) (position_tuple unit2)).
  split; [reflexivity|].
  destruct (Z.lt_ge_cases (distance_calculation_index unit1)
                          (distance_calculation_index unit2)) as [Hlt|Hge].
  - exact (condensed_lookup_current self g unit1 unit2 Hg Hf Hv H1 H2 Htag Hlt).
  - rewrite (sqeuclidean_sym (position_tuple unit1)).
    destruct (condensed_lookup_current self g unit2 unit1 Hg Hf Hv H2 H1
                ltac:(auto) ltac:(lia)) as [Ha Hb].
    split; assumption.
Qed.

Lemma condensed_strategy_valid_pair_witness :
  let a := example_unit 11 3 4 1 in
  let b := example_unit 13 3 0 3 in
  condensed_cache_current example_condensed4 /\
  indexed example_condensed4 a /\ indexed example_condensed4 b /\
  tag a <> tag b /\
  exists d,
    d = Scipy.sqeuclidean (position_tuple a) (position_tuple b) /\
    _distance_squared_unit_to_unit_method1 a b example_condensed4 =
      (Ok (VFloat d), example_condensed4) /\
    _distance_squared_unit_to_unit_method1 b a example_condensed4 =
      (Ok (VFloat d), example_condensed4).
Proof.
  intros a b.
  assert (Hc : condensed_cache_current example_condensed4)
    by (exists {| game_loop := 7 |}; repeat split).
  assert (Ha : indexed example_condensed4 a)
    by (split; [vm_compute; discriminate | reflexivity]).
  assert (Hb : indexed example_condensed4 b)
    by (split; [vm_compute; discriminate | reflexivity]).
  assert (Ht : tag a <> tag b) by (vm_compute; discriminate).
  repeat (split; [assumption|]).
  exact (condensed_strategy_valid_pair example_condensed4 a b Hc Ha Hb Ht).
Defined.

(** X10. In a session of strategy 2 or 3 the lookup is symmetric: for two
    entities of the current set, both orders of the arguments return the
    same float. *)
Theorem square_strategy_symmetric self unit1 unit2 :
  square_session self -> indexed self unit1 -> indexed self unit2 ->
  exists d,
    fst (_distance_squared_unit_to_unit_method2 unit1 unit2 self) = Ok (VFloat d) /\
    fst (_distance_squared_unit_to_unit_method2 unit2 unit1 self) = Ok (VFloat d).
Proof.
  intros Hs H1 H2.
  destruct (square_session_lookup self unit1 unit2 Hs H1 H2) as (s1 & E1 & _).
  destruct (square_session_lookup self unit2 unit1 Hs H2 H1) as (s2 & E2 & _).
  rewrite E1, E2. cbn [fst]. eexists. split; [reflexivity|].
  now rewrite sqeuclidean_sym.
Qed.

Lemma square_strategy_symmetric_witness :
  let a := example_unit 10 0 0 0 in
  let b := example_unit 11 3 4 1 in
  square_session (example_selected 2) /\
  exists d,
    fst (_distance_squared_unit_to_unit_method2 a b (example_selected 2)) = Ok (VFloat d) /\
    fst (_distance_squared_unit_to_unit_method2 b a (example_selected 2)) = Ok (VFloat d).
Proof.
  intros a b. split; [exact example_square_session|].
  apply (square_strategy_symmetric (example_selected 2) a b example_square_session);
    (split; [vm_compute; discriminate | reflexivity]).
Defined.

Lemma cdist_getitem2_at X i j u v :
  - Np.len X <= i < Np.len X -> - Np.len X <= j < Np.len X ->
  nth_error X (Z.to_nat (if i <? 0 then i + Np.len X else i)) = Some u ->
  nth_error X (Z.to_nat (if j <? 0 then j + Np.len X else j)) = Some v ->
  Np.getitem2 (VMat (Scipy.cdist X X)) i j = Ok (VFloat (Scipy.sqeuclidean u v)).
Proof.
  intros Hi Hj Hu Hv. unfold Np.getitem2.
  destruct (cdist_shape X X) as [Hlen _].
  rewrite (item_at (Scipy.cdist X X) i (map (Scipy.sqeuclidean u) X)).
  - cbn [rbind].
    assert (Hrow : Np.len (map (Scipy.sqeuclidean u) X) = Np.len X)
      by (unfold Np.len; now rewrite length_map).
    rewrite (item_at _ j (Scipy.sqeuclidean u v)); [reflexivity| |].
    + now rewrite Hrow.
    + rewrite Hrow, nth_error_map. now rewrite Hv.
  - now rewrite Hlen.
  - rewrite Hlen. unfold Scipy.cdist. rewrite nth_error_map. now rewrite Hu.
Qed.

Lemma cdist_getitem2_out X i j :
  i < - Np.len X \/ Np.len X <= i \/ j < - Np.len X \/ Np.len X <= j ->
  Np.getitem2 (VMat (Scipy.cdist X X)) i j = Raise IndexError.
Proof.
  intros Hout. unfold Np.getitem2.
  destruct (cdist_shape X X) as [Hlen Hrows].
  destruct (Np.item (Scipy.cdist X X) i) as [r|e] eqn:Hr.
  - cbn [rbind].
    assert (Hi : - Np.len X <= i < Np.len X).
    { destruct (Z_lt_dec i (- Np.len X)) as [H|H];
        [|destruct (Z_le_dec (Np.len X) i) as [H'|H']; [|lia]];
        rewrite item_out_of_range in Hr by (rewrite Hlen; lia); discriminate. }
    rewrite Forall_forall in Hrows. pose proof (Hrows r (item_in _ _ _ Hr)) as Hlr.
    rewrite item_out_of_range by (rewrite Hlr; lia). reflexivity.
  - cbn [rbind]. f_equal.
    revert Hr. unfold Np.item, Np.axis_index.
    destruct ((0 <=? i) && (i <? _)); cbn [rbind].
    + destruct (nth_error _ _); intros H; inversion H; reflexivity.
    + destruct ((- _ <=? i) && (i <? 0)); cbn [rbind].
      * destruct (nth_error _ _); intros H; inversion H; reflexivity.
      * intros H; inversion H; reflexivity.
Qed.

(** X11. Strategy 2 reads only the indices of its arguments. In a session of
    strategy 2 or 3 it returns the squared distance of the two entities of
    the current set that the indices select, a negative index counting from
    the end, whatever units were passed; and an index outside [-N, N) makes
    it raise [IndexError]. *)
Theorem square_strategy_by_index self unit1 unit2 :
  square_session self ->
  (forall entity1 entity2,
     at_index self (distance_calculation_index unit1) entity1 ->
     at_index self (distance_calculation_index unit2) entity2 ->
     fst (_distance_squared_unit_to_unit_method2 unit1 unit2 self) =
       Ok (VFloat (Scipy.sqeuclidean (position_tuple entity1) (position_tuple entity2))))
  /\
  (let N := _units_count self in
   distance_calculation_index unit1 < - N \/ N <= distance_calculation_index unit1 \/
   distance_calculation_index unit2 < - N \/ N <= distance_calculation_index unit2 ->
   fst (_distance_squared_unit_to_unit_method2 unit1 unit2 self) = Raise IndexError).
Proof.
  intros Hs.
  destruct (square_session_cdist self Hs) as (self' & Hc & _ & _).
  unfold _distance_squared_unit_to_unit_method2, bind, eval. rewrite Hc. cbn [fst].
  split.
  - intros e1 e2 [Hb1 Hn1] [Hb2 Hn2].
    rewrite <- positions_len in Hb1, Hb2, Hn1, Hn2.
    apply cdist_getitem2_at; auto using positions_nth_error.
  - cbv zeta. intros Hout. apply cdist_getitem2_out. rewrite positions_len. exact Hout.
Qed.

(** A unit kept from an earlier frame with index [-1] gets the distances of
    the last entity of the current set; with index 7 it gets [IndexError]. *)
Lemma square_strategy_by_index_witness :
  let stale := example_unit 99 50 50 (-1) in
  let gone := example_unit 98 50 50 7 in
  let first := example_unit 10 0 0 0 in
  square_session (example_selected 2) /\
  fst (_distance_squared_unit_to_unit_method2 stale first (example_selected 2)) =
    Ok (VFloat (F64.of_Z 16)) /\
  fst (_distance_squared_unit_to_unit_method2 gone first (example_selected 2)) =
    Raise IndexError.
Proof.
  intros stale gone first.
  split; [exact example_square_session|]. split.
  - apply (proj1 (square_strategy_by_index (example_selected 2) stale first
                    example_square_session)
                 (example_unit 12 0 4 2) (example_unit 10 0 0 0));
      (split; [split; [vm_compute; discriminate | vm_compute; reflexivity] | reflexivity]).
  - apply (proj2 (square_strategy_by_index (example_selected 2) gone first
                    example_square_session)).
    right. left. vm_compute. discriminate.
Defined.

(** X12. The order of the checks of strategy 1, for two units with distinct
    tags: equal indices raise the assertion error about the diagonal before
    the cache is looked at; distinct indices with no condensed vector cached
    yet raise [TypeError], whether or not a build is bound or due: the
    assertion measures [_cached_pdist] itself and nothing is built. Both
    leave the object as it is. *)
Theorem condensed_strategy_check_order self unit1 unit2 :
  tag unit1 <> tag unit2 ->
  (distance_calculation_index unit1 = distance_calculation_index unit2 ->
   _distance_squared_unit_to_unit_method1 unit1 unit2 self =
     (Raise (AssertionError NoDiagonal), self))
  /\
  (distance_calculation_index unit1 <> distance_calculation_index unit2 ->
   _cached_pdist self = None ->
   _distance_squared_unit_to_unit_method1 unit1 unit2 self = (Raise TypeError, self)).
Proof.
  intros Htag. apply Z.eqb_neq in Htag.
  unfold _distance_squared_unit_to_unit_method1. rewrite Htag.
  split.
  - intros Heq. unfold bind at 1. unfold eval at 1.
    unfold square_to_condensed. now rewrite Heq, Z.eqb_refl.
  - intros Hne Hnone. unfold bind at 1. unfold eval at 1.
    rewrite (square_to_condensed_distinct self _ _ Hne).
    unfold bind at 1. unfold eval at 1. now rewrite Hnone.
Qed.

Lemma condensed_strategy_check_order_witness :
  let a := example_unit 10 0 0 0 in
  let b := example_unit 12 0 4 2 in
  tag a <> tag b /\
  _cached_pdist (example_selected 1) = None /\
  _distance_squared_unit_to_unit_method1 a b (example_selected 1) =
    (Raise TypeError, example_selected 1).
Proof.
  intros a b.
  assert (Ht : tag a <> tag b) by (vm_compute; discriminate).
  split; [exact Ht|]. split; [reflexivity|].
  apply (proj2 (condensed_strategy_check_order (example_selected 1) a b Ht));
    [vm_compute; discriminate | reflexivity].
Defined.

(** X13. No distance is read from an empty structure. With the empty
    condensed vector cached for the frame, a strategy-1 query on two units
    with distinct tags raises, whatever their indices; in a session of
    strategy 2 or 3 on an empty entity set every query raises [IndexError]. *)
Theorem no_distance_from_empty_structure self unit1 unit2 :
  (forall g, state self = Some g -> _generated_frame2 self = game_loop g ->
     _cached_pdist self = Some [] -> tag unit1 <> tag unit2 ->
     exists e, _distance_squared_unit_to_unit_method1 unit1 unit2 self = (Raise e, self))
  /\
  (square_session self -> all_units self = [] ->
     fst (_distance_squared_unit_to_unit_method2 unit1 unit2 self) = Raise IndexError).
Proof.
  split.
  - intros g Hg Hf Hv Htag.
    destruct (Z.eq_dec (distance_calculation_index unit1)
                       (distance_calculation_index unit2)) as [Heq|Hne].
    + eexists. unfold _distance_squared_unit_to_unit_method1.
      apply Z.eqb_neq in Htag. rewrite Htag.
      unfold bind at 1. unfold eval at 1. unfold square_to_condensed.
      rewrite Heq, Z.eqb_refl. reflexivity.
    + rewrite (method1_distinct self unit1 unit2 [] _ Htag Hv
                 (square_to_condensed_distinct self _ _ Hne)).
      set (k := condensed_offset _ _ _).
      destruct (Z.ltb_spec k (Np.len (@nil float))) as [Hlt|Hge].
      * eexists. unfold bind. rewrite (_pdist_fresh self g Hg Hf), Hv.
        cbn [of_option]. unfold eval, Np.getitem.
        rewrite item_out_of_range by (left; exact Hlt). reflexivity.
      * eexists. reflexivity.
  - intros Hs Hu.
    destruct (square_session_cdist self Hs) as (self' & Hc & _ & _).
    unfold _distance_squared_unit_to_unit_method2, bind, eval. rewrite Hc. cbn [fst].
    apply cdist_getitem2_out. unfold positions. rewrite Hu.
    change (Np.len (map position_tuple [])) with 0. lia.
Qed.

Lemma no_distance_from_empty_structure_witness :
  let self := snd (_distances_override_functions 2
                     (set_state (Some {| game_loop := 0 |}) __init__)) in
  square_session self /\ all_units self = [] /\
  fst (_distance_squared_unit_to_unit_method2
         (example_unit 10 0 0 0) (example_unit 11 3 4 1) self) = Raise IndexError.
Proof.
  intros self.
  assert (Hs : square_session self).
  { apply (square_session_start 2 _ {| game_loop := 0 |});
      [now left | reflexivity | vm_compute; discriminate]. }
  split; [exact Hs|]. split; [reflexivity|].
  apply (proj2 (no_distance_from_empty_structure self _ _) Hs eq_refl).
Defined.

(** X14. The accessors can only build through a bound build. In a running
    game, with the counter not current and [calculate_distances] unbound (no
    strategy selected, or only strategy 0), the accessors and the strategy-2
    lookup raise [AttributeError] and leave the object as it is; and a
    selection of strategy 0 on an object without a bound build leaves the
    build unbound. *)
Theorem accessors_need_bound_build self g :
  state self = Some g ->
  _generated_frame2 self <> game_loop g ->
  calculate_distances self = None ->
  _pdist self = (Raise (AttributeError "calculate_distances"), self) /\
  _cdist self = (Raise (AttributeError "calculate_distances"), self) /\
  (forall unit1 unit2,
     _distance_squared_unit_to_unit_method2 unit1 unit2 self =
       (Raise (AttributeError "calculate_distances"), self)) /\
  calculate_distances (snd (_distances_override_functions 0 self)) = None.
Proof.
  intros Hg Hf Hk.
  assert (Hp : _pdist self = (Raise (AttributeError "calculate_distances"), self))
    by (rewrite (_pdist_stale self g Hg Hf); now apply call_calculate_distances_unbound).
  assert (Hc : _cdist self = (Raise (AttributeError "calculate_distances"), self))
    by (rewrite (_cdist_stale self g Hg Hf); now apply call_calculate_distances_unbound).
  repeat split; auto.
  intros unit1 unit2. unfold _distance_squared_unit_to_unit_method2, bind.
  now rewrite Hc.
Qed.

Lemma accessors_need_bound_build_witness :
  state (example_selected 0) = Some {| game_loop := 5 |} /\
  calculate_distances (example_selected 0) = None /\
  _cdist (example_selected 0) =
    (Raise (AttributeError "calculate_distances"), example_selected 0).
Proof.
  split; [reflexivity|]. split; [reflexivity|].
  apply (accessors_need_bound_build (example_selected 0) {| game_loop := 5 |});
    [reflexivity | vm_compute; discriminate | reflexivity].
Defined.

(** ** Sessions *)

(** X15. Selections compose: after a selection of [m] a selection of [m']
    succeeds, and the last one wins. For [m'] from 1 to 3 the object is the
    one a selection of [m'] alone gives; a selection of 0 binds the direct
    strategy and keeps the build the earlier selection bound. *)
Theorem selection_last_wins m m' self :
  0 <= m <= 3 -> 0 <= m' <= 3 ->
  let self1 := snd (_distances_override_functions m self) in
  let self2 := snd (_distances_override_functions m' self1) in
  fst (_distances_override_functions m' self1) = Ok tt /\
  _distance_squared_unit_to_unit self2 = Some (unit_to_unit_of_mode m') /\
  (1 <= m' -> self2 = snd (_distances_override_functions m' self)) /\
  (m' = 0 -> calculate_distances self2 = calculate_distances self1).
Proof.
  intros Hm Hm'.
  assert (Hc : m = 0 \/ m = 1 \/ m = 2 \/ m = 3) by lia.
  assert (Hc' : m' = 0 \/ m' = 1 \/ m' = 2 \/ m' = 3) by lia.
  destruct Hc as [-> | [-> | [-> | ->]]];
    destruct Hc' as [-> | [-> | [-> | ->]]];
    cbv zeta; repeat split; try reflexivity; intros; lia.
Qed.

Lemma selection_last_wins_witness :
  _distance_squared_unit_to_unit
    (snd (_distances_override_functions 0 (example_selected 1)))
    = Some Bound_unit_to_unit_method0 /\
  calculate_distances (snd (_distances_override_functions 0 (example_selected 1)))
    = Some Bound_calculate_method1.
Proof.
  destruct (selection_last_wins 1 0 example_self ltac:(lia) ltac:(lia))
    as (_ & Hu & _ & Hc).
  split; [exact Hu|]. exact (Hc eq_refl).
Defined.




(** X17. The cache is keyed by the frame counter alone. In a session of
    strategy 2 or 3, once the bot has moved to a frame with another counter
    and put a new entity set in place, the first query answers from the new
    set and stamps the new frame; but when the entity set is replaced while
    the counter stays the same, the queries keep answering from the matrix
    cached before, and nothing is rebuilt. *)
Theorem cache_keyed_by_frame self units unit1 unit2 :
  (forall g',
     square_session self -> game_loop g' <> _generated_frame2 self ->
     let self1 := set_all_units units (set_state (Some g') self) in
     indexed self1 unit1 -> indexed self1 unit2 ->
     fst (_distance_squared_unit_to_unit_method2 unit1 unit2 self1) =
       Ok (VFloat (Scipy.sqeuclidean (position_tuple unit1) (position_tuple unit2))) /\
     _generated_frame2 (snd (_distance_squared_unit_to_unit_method2 unit1 unit2 self1))
       = game_loop g')
  /\
  (forall g m,
     state self = Some g -> _generated_frame2 self = game_loop g ->
     _cached_cdist self = Some m ->
     let self1 := set_all_units units self in
     _distance_squared_unit_to_unit_method2 unit1 unit2 self1 =
       (Np.getitem2 (VMat m) (distance_calculation_index unit1)
                             (distance_calculation_index unit2), self1)).
Proof.
  split.
  - intros g' (g & Hg & Hk & _) Hne self1 H1 H2.
    assert (Hs1 : square_session self1).
    { exists g'. split; [reflexivity|]. split; [exact Hk|].
      intros Hf. simpl in Hf. congruence. }
    destruct (square_session_lookup self1 unit1 unit2 Hs1 H1 H2) as (s' & E & _ & _).
    split; [now rewrite E|].
    unfold _distance_squared_unit_to_unit_method2, bind, eval.
    rewrite (_cdist_stale self1 g' eq_refl) by (simpl; congruence).
    destruct Hk as [Hk|Hk];
      rewrite (call_calculate_distances_eq self1 g' _ eq_refl Hk); reflexivity.
  - intros g m Hg Hf Hm self1.
    unfold _distance_squared_unit_to_unit_method2, bind, eval.
    rewrite (_cdist_fresh self1 g Hg Hf). simpl _cached_cdist. rewrite Hm. reflexivity.
Qed.

(** The bot moves from frame 5 to frame 6 with a single entity left: the
    first query is answered from the new set. *)
Lemma cache_keyed_by_frame_witness :
  let last := example_unit 12 7 7 0 in
  let self0 := snd (_cdist (example_selected 2)) in
  let self1 := set_all_units [last] (set_state (Some {| game_loop := 6 |}) self0) in
  fst (_distance_squared_unit_to_unit_method2 last last self1) = Ok (VFloat F64.zero) /\
  _generated_frame2 (snd (_distance_squared_unit_to_unit_method2 last last self1)) = 6.
Proof.
  intros last self0 self1.
  assert (Hs0 : square_session self0).
  { destruct (square_session_cdist (example_selected 2) example_square_session)
      as (s' & E & _ & Hs'). unfold self0. now rewrite E. }
  assert (Hi : indexed self1 last) by (split; [vm_compute; discriminate | reflexivity]).
  destruct (proj1 (cache_keyed_by_frame self0 [last] last last)
                  {| game_loop := 6 |} Hs0 ltac:(vm_compute; discriminate) Hi Hi)
    as [Hv Hfr].
  split; [exact Hv | exact Hfr].
Defined.

(** X18. A strategy switched within a frame finds no structure. After the
    condensed build has run in a frame on an object with no square matrix
    cached, a selection of strategy 2 leaves every strategy-2 query of that
    frame raising [TypeError], with the object unchanged; the queries work
    again from the next frame on, where the session is a square session. *)
Theorem switch_within_frame self g unit1 unit2 :
  state self = Some g ->
  _cached_cdist self = None ->
  let self1 := snd (_calculate_distances_method1 self) in
  let self2 := snd (_distances_override_functions 2 self1) in
  _distance_squared_unit_to_unit_method2 unit1 unit2 self2 = (Raise TypeError, self2) /\
  (forall g', game_loop g' <> game_loop g ->
     square_session (set_state (Some g') self2)).
Proof.
  intros Hg Hnone.
  rewrite (_calculate_distances_method1_eq self g Hg). cbv zeta. cbn [snd].
  set (self2 := snd (_distances_override_functions 2 _)).
  split.
  - unfold _distance_squared_unit_to_unit_method2, bind, eval.
    rewrite (_cdist_fresh self2 g); [|exact Hg|reflexivity].
    simpl _cached_cdist. rewrite Hnone. reflexivity.
  - intros g' Hne. exists g'. split; [reflexivity|]. split; [now left|].
    intros Hf. simpl in Hf. congruence.
Qed.

Lemma switch_within_frame_witness :
  let self2 := snd (_distances_override_functions 2
                      (snd (_calculate_distances_method1 (example_selected 1)))) in
  state (example_selected 1) = Some {| game_loop := 5 |} /\
  _cached_cdist (example_selected 1) = None /\
  _distance_squared_unit_to_unit_method2
    (example_unit 10 0 0 0) (example_unit 11 3 4 1) self2 = (Raise TypeError, self2).
Proof.
  intros self2. split; [reflexivity|]. split; [reflexivity|].
  apply (switch_within_frame (example_selected 1) {| game_loop := 5 |}
           (example_unit 10 0 0 0) (example_unit 11 3 4 1) eq_refl eq_refl).
Defined.

(** ** The conversion of a position *)

(** X19. [convert_tuple_to_numpy_array] returns the one-row array of the
    first two coordinates: coordinates after the second are dropped without
    an error, and a sequence of fewer than two raises [ValueError]. *)
Theorem convert_tuple_first_two pos :
  convert_tuple_to_numpy_array pos =
    match pos with
    | x :: y :: _ => Ok [(x, y)]
    | _ => Raise ValueError
    end.
Proof.
  destruct pos as [|x [|y rest]]; try reflexivity.
  unfold convert_tuple_to_numpy_array, Np.fromiter.
  replace (Z.of_nat (length (x :: y :: rest)) <? 2) with false
    by (symmetry; apply Z.ltb_ge; simpl length; lia).
  reflexivity.
Qed.

(** ** The first strategy-1 query of a frame *)

Lemma pdist_entry_of_pair self unit1 unit2 :
  indexed self unit1 -> indexed self unit2 ->
  distance_calculation_index unit1 <> distance_calculation_index unit2 ->
  let k := condensed_offset (_units_count self)
             (Z.max (distance_calculation_index unit1) (distance_calculation_index unit2))
             (Z.min (distance_calculation_index unit1) (distance_calculation_index unit2)) in
  0 <= k /\
  nth_error (Scipy.pdist (positions self)) (Z.to_nat k) =
    Some (Scipy.sqeuclidean (position_tuple unit1) (position_tuple unit2)).
Proof.
  intros [H1 Hn1] [H2 Hn2] Hne.
  set (i1 := distance_calculation_index unit1) in *.
  set (i2 := distance_calculation_index unit2) in *.
  assert (Hb1 : (Z.to_nat i1 < length (all_units self))%nat)
    by (apply nth_error_Some; congruence).
  assert (Hb2 : (Z.to_nat i2 < length (all_units self))%nat)
    by (apply nth_error_Some; congruence).
  destruct (Z.lt_ge_cases i1 i2) as [Hlt|Hge]; cbv zeta.
  - rewrite Z.max_r, Z.min_l by lia.
    pose proof (pdist_at_condensed_offset (positions self) (Z.to_nat i2) (Z.to_nat i1)
                  (position_tuple unit1) (position_tuple unit2) ltac:(lia)
                  (positions_nth_error _ _ _ Hn1) (positions_nth_error _ _ _ Hn2)) as Hnth.
    rewrite positions_len, !Z2Nat.id in Hnth by lia.
    split; [|exact Hnth].
    apply (condensed_offset_bounds (_units_count self) i2 i1);
      unfold _units_count, Np.len; lia.
  - rewrite Z.max_l, Z.min_r by lia.
    pose proof (pdist_at_condensed_offset (positions self) (Z.to_nat i1) (Z.to_nat i2)
                  (position_tuple unit2) (position_tuple unit1) ltac:(lia)
                  (positions_nth_error _ _ _ Hn2) (positions_nth_error _ _ _ Hn1)) as Hnth.
    rewrite positions_len, !Z2Nat.id in Hnth by lia.
    rewrite (sqeuclidean_sym (position_tuple unit1)).
    split; [|exact Hnth].
    apply (condensed_offset_bounds (_units_count self) i1 i2);
      unfold _units_count, Np.len; lia.
Qed.

(** X20. The first strategy-1 query of a frame, made while the cache still
    holds the vector [old] of an earlier frame, measures its offset against
    [old]. For two entities of the current set with distinct tags: when the
    offset is below the length of [old], the accessor then builds the vector
    of the current set, stamps the frame, and the query returns the squared
    distance of the pair; when it is not, as after the entity set has grown,
    the query raises the assertion error although the pair is valid, and
    nothing is built. *)
Theorem first_condensed_query_of_frame self g old unit1 unit2 :
  state self = Some g ->
  _generated_frame2 self <> game_loop g ->
  calculate_distances self = Some Bound_calculate_method1 ->
  _cached_pdist self = Some old ->
  indexed self unit1 -> indexed self unit2 -> tag unit1 <> tag unit2 ->
  let k := condensed_offset (_units_count self)
             (Z.max (distance_calculation_index unit1) (distance_calculation_index unit2))
             (Z.min (distance_calculation_index unit1) (distance_calculation_index unit2)) in
  (k < Np.len old ->
   _distance_squared_unit_to_unit_method1 unit1 unit2 self =
     (Ok (VFloat (Scipy.sqeuclidean (position_tuple unit1) (position_tuple unit2))),
      built Bound_calculate_method1 (game_loop g) self))
  /\
  (Np.len old <= k ->
   _distance_squared_unit_to_unit_method1 unit1 unit2 self =
     (Raise (AssertionError
               (CondensedIndexTooLarge k (Np.len old) (tag unit1) (tag unit2))), self)).
Proof.
  intros Hg Hf Hk Hold H1 H2 Htag k.
  pose proof (indexed_distinct self unit1 unit2 H1 H2 Htag) as Hidx.
  destruct (pdist_entry_of_pair self unit1 unit2 H1 H2 Hidx) as [Hk0 Hnth].
  fold k in Hk0, Hnth.
  rewrite (method1_distinct self unit1 unit2 old k Htag Hold
             (square_to_condensed_distinct self _ _ Hidx)).
  split; intros Hcmp.
  - replace (k <? Np.len old) with true by (symmetry; apply Z.ltb_lt; lia).
    unfold bind. rewrite (_pdist_stale self g Hg Hf).
    rewrite (call_calculate_distances_eq self g _ Hg Hk).
    cbn [built_data]. unfold eval, Np.getitem.
    now rewrite (item_nth_error _ k _ Hk0 Hnth).
  - replace (k <? Np.len old) with false by (symmetry; apply Z.ltb_ge; lia).
    reflexivity.
Qed.

(** The bot moves on from frame 7 with the four entities in place: the first
    query of frame 8 builds and answers. *)
Lemma first_condensed_query_of_frame_witness :
  let self := set_state (Some {| game_loop := 8 |}) example_condensed4 in
  let a := example_unit 11 3 4 1 in
  let b := example_unit 13 3 0 3 in
  fst (_distance_squared_unit_to_unit_method1 a b self) = Ok (VFloat (F64.of_Z 16)) /\
  _generated_frame2 (snd (_distance_squared_unit_to_unit_method1 a b self)) = 8.
Proof.
  intros self a b.
  assert (Ha : indexed self a) by (split; [vm_compute; discriminate | reflexivity]).
  assert (Hb : indexed self b) by (split; [vm_compute; discriminate | reflexivity]).
  assert (Ht : tag a <> tag b) by (vm_compute; discriminate).
  pose proof (proj1 (first_condensed_query_of_frame self {| game_loop := 8 |}
                       (Scipy.pdist (positions example_condensed4)) a b
                       eq_refl ltac:(vm_compute; discriminate) eq_refl eq_refl
                       Ha Hb Ht) ltac:(vm_compute; reflexivity)) as E.
  rewrite E. split; reflexivity.
Defined.
